(** * xmas_tool: the layered character-grid compositor

    A shallow embedding of [xmas_tool.py]: cells, canvas elements, the shape
    builders (box, tree), the canvas with its render pass, and the ornament
    decoration.  Python objects live in a store of objects addressed by
    references, so that aliasing and in-place mutation are visible; methods
    are computations in a state-and-exception monad over that store. *)

From Stdlib Require Import ZArith Lia.
From stdpp Require Import base option list strings pretty sorting.

Local Open Scope Z_scope.
Local Open Scope string_scope.

(** ** Python values the program computes with *)

(** [range(a, b)]: empty when [b <= a]. *)
Definition range (a b : Z) : list Z := seqZ a (b - a).

(** Index normalisation of [list.__getitem__] / [__setitem__]: indices
    [-len .. -1] count from the end, anything outside [-len .. len-1] is an
    [IndexError] (here [None]). *)
Definition py_index (len : nat) (i : Z) : option nat :=
  if bool_decide (0 <= i < Z.of_nat len) then Some (Z.to_nat i)
  else if bool_decide (- Z.of_nat len <= i < 0) then Some (Z.to_nat (Z.of_nat len + i))
  else None.

(** The [@dataclass Cell]: fields [x] (row), [y] (column), [c] (a one
    character [str]). *)
Module Cell.
Record t := mk { x : Z; y : Z; c : string }.
End Cell.

(** ** The object store *)

Definition loc := nat.

Inductive obj :=
| OCell (cell : Cell.t)                       (* a [Cell] instance *)
| OList (items : list loc)                    (* a list of object references *)
| ORow (chars : list string)                  (* a list of [str] *)
| OElement (id : string) (z : Z) (cell_list : loc)   (* a [CanvasElement] *)
| OCanvas (nrows ncols : Z) (elements : list (string * loc)).
    (* a [Canvas]; [elements] is its dict, in insertion order *)

Inductive exn :=
| NameError (name : string)
| AttributeError (attr : string)
| TypeError
| IndexError
| ValueError
| DanglingReference.   (* a reference to no object: cannot arise in Python *)

(** [Diverge]: the computation has not finished within the given fuel. *)
Inductive outcome (A : Type) :=
| Return (a : A)
| Raise (e : exn)
| Diverge.
Arguments Return {A} a.
Arguments Raise {A} e.
Arguments Diverge {A}.

(** The state a run threads along: the store, what [print] wrote, and the two
    external sources of the program, [uuid.uuid4] and [random.randint], each as
    an injected stream with the number of values already consumed. *)
Record world := World {
  heap : list obj;
  stdout : list string;
  uuid_src : nat -> string;
  uuid_pos : nat;
  rand_src : nat -> Z;
  rand_pos : nat
}.

Definition set_heap (h : list obj) (w : world) : world :=
  World h (stdout w) (uuid_src w) (uuid_pos w) (rand_src w) (rand_pos w).

Definition M (A : Type) : Type := world -> outcome A * world.

Definition ret {A} (a : A) : M A := fun w => (Return a, w).

Definition raise {A} (e : exn) : M A := fun w => (Raise e, w).

Definition diverge {A} : M A := fun w => (Diverge, w).

Definition bind {A B} (m : M A) (k : A -> M B) : M B :=
  fun w =>
    match m w with
    | (Return a, w') => k a w'
    | (Raise e, w') => (Raise e, w')
    | (Diverge, w') => (Diverge, w')
    end.

Notation "x <- m ;; k" := (bind m (fun x => k))
  (at level 100, m at next level, right associativity).
Notation "m ;;; k" := (bind m (fun _ => k))
  (at level 100, right associativity).

(** [for a in l: body(a)] *)
Fixpoint for_each {A} (l : list A) (body : A -> M unit) : M unit :=
  match l with
  | [] => ret tt
  | a :: l' => body a ;;; for_each l' body
  end.

(** [[f(a) for a in l]] *)
Fixpoint comprehension {A B} (l : list A) (f : A -> M B) : M (list B) :=
  match l with
  | [] => ret []
  | a :: l' => b <- f a ;; bs <- comprehension l' f ;; ret (b :: bs)
  end.

(** *** Store primitives *)

Definition alloc (o : obj) : M loc :=
  fun w => (Return (length (heap w)), set_heap (heap w ++ [o]) w).

Definition load (l : loc) : M obj :=
  fun w =>
    match heap w !! l with
    | Some o => (Return o, w)
    | None => (Raise DanglingReference, w)
    end.

Definition store (l : loc) (o : obj) : M unit :=
  fun w =>
    match heap w !! l with
    | Some _ => (Return tt, set_heap (<[l := o]> (heap w)) w)
    | None => (Raise DanglingReference, w)
    end.

Definition print (s : string) : M unit :=
  fun w => (Return tt,
            World (heap w) (stdout w ++ [s]) (uuid_src w) (uuid_pos w)
                  (rand_src w) (rand_pos w)).

(** [str(uuid.uuid4())] *)
Definition uuid4 : M string :=
  fun w => (Return (uuid_src w (uuid_pos w)),
            World (heap w) (stdout w) (uuid_src w) (S (uuid_pos w))
                  (rand_src w) (rand_pos w)).

(** [random.randint(a, b)]: some integer of [a .. b], [ValueError] on an
    empty range. *)
Definition randint (a b : Z) : M Z :=
  fun w =>
    if bool_decide (b < a) then (Raise ValueError, w)
    else (Return (a + rand_src w (rand_pos w) `mod` (b - a + 1)),
          World (heap w) (stdout w) (uuid_src w) (uuid_pos w)
                (rand_src w) (S (rand_pos w))).

(** *** Attribute access *)

Definition attr_x (o : loc) : M Z :=
  v <- load o ;;
  match v with OCell cell => ret (Cell.x cell) | _ => raise (AttributeError "x") end.

Definition attr_y (o : loc) : M Z :=
  v <- load o ;;
  match v with OCell cell => ret (Cell.y cell) | _ => raise (AttributeError "y") end.

Definition attr_c (o : loc) : M string :=
  v <- load o ;;
  match v with OCell cell => ret (Cell.c cell) | _ => raise (AttributeError "c") end.

(** [o.c = ch] *)
Definition set_attr_c (o : loc) (ch : string) : M unit :=
  v <- load o ;;
  match v with
  | OCell cell => store o (OCell (Cell.mk (Cell.x cell) (Cell.y cell) ch))
  | _ => raise (AttributeError "c")
  end.

Definition attr_id (o : loc) : M string :=
  v <- load o ;;
  match v with OElement id _ _ => ret id | _ => raise (AttributeError "id") end.

Definition attr_z (o : loc) : M Z :=
  v <- load o ;;
  match v with OElement _ z _ => ret z | _ => raise (AttributeError "z") end.

Definition attr_cell_list (o : loc) : M loc :=
  v <- load o ;;
  match v with
  | OElement _ _ cell_list => ret cell_list
  | _ => raise (AttributeError "cell_list")
  end.

Definition attr_nrows (o : loc) : M Z :=
  v <- load o ;;
  match v with OCanvas nrows _ _ => ret nrows | _ => raise (AttributeError "nrows") end.

Definition attr_ncols (o : loc) : M Z :=
  v <- load o ;;
  match v with OCanvas _ ncols _ => ret ncols | _ => raise (AttributeError "ncols") end.

Definition attr_elements (o : loc) : M (list (string * loc)) :=
  v <- load o ;;
  match v with
  | OCanvas _ _ elements => ret elements
  | _ => raise (AttributeError "elements")
  end.

(** *** Lists *)

(** The items of a list of references, as iteration sees them. *)
Definition list_items (l : loc) : M (list loc) :=
  v <- load l ;;
  match v with OList items => ret items | _ => raise TypeError end.

(** [l[i]] on a list of references *)
Definition list_getitem (l : loc) (i : Z) : M loc :=
  items <- list_items l ;;
  match py_index (length items) i with
  | Some k =>
      match items !! k with
      | Some r => ret r
      | None => raise IndexError
      end
  | None => raise IndexError
  end.

(** [l[i] = ch] on a list of [str] *)
Definition row_setitem (l : loc) (i : Z) (ch : string) : M unit :=
  v <- load l ;;
  match v with
  | ORow chars =>
      match py_index (length chars) i with
      | Some k => store l (ORow (<[k := ch]> chars))
      | None => raise IndexError
      end
  | _ => raise TypeError
  end.

(** *** Dicts (insertion ordered, one entry per key) *)

Definition dict_contains {V} (k : string) (d : list (string * V)) : bool :=
  bool_decide (k ∈ d.*1).

(** [d[k] = v]: an existing key keeps its place, a new key goes last. *)
Fixpoint dict_setitem {V} (k : string) (v : V) (d : list (string * V)) : list (string * V) :=
  match d with
  | [] => [(k, v)]
  | (k', v') :: d' =>
      if bool_decide (k' = k) then (k, v) :: d' else (k', v') :: dict_setitem k v d'
  end.

Fixpoint dict_get {V} (k : string) (d : list (string * V)) : option V :=
  match d with
  | [] => None
  | (k', v) :: d' => if bool_decide (k' = k) then Some v else dict_get k d'
  end.

Definition dict_pop {V} (k : string) (d : list (string * V)) : list (string * V) :=
  filter (fun kv => fst kv <> k) d.

(** ** [Cell.in_bounds] *)

Module CellOps.
(** [cell.x >= 0 and cell.x < nrows and cell.y >= 0 and cell.y < ncols],
    each attribute read when its conjunct is reached.  (The annotation
    [-> Bool] names nothing, but under [from __future__ import annotations]
    it is never evaluated.) *)
Definition in_bounds (cell : loc) (nrows ncols : Z) : M bool :=
  x <- attr_x cell ;;
  if negb (bool_decide (x >= 0)) then ret false else
  x <- attr_x cell ;;
  if negb (bool_decide (x < nrows)) then ret false else
  y <- attr_y cell ;;
  if negb (bool_decide (y >= 0)) then ret false else
  y <- attr_y cell ;;
  if negb (bool_decide (y < ncols)) then ret false else
  ret true.
End CellOps.

(** The same test on a cell's field values. *)
Definition cell_in_bounds (cell : Cell.t) (nrows ncols : Z) : bool :=
  bool_decide (0 <= Cell.x cell < nrows /\ 0 <= Cell.y cell < ncols).

(** ** Shape builders

    A builder's [_build] fills a list that is local to it with [Cell]s that
    are new, so it is given by the sequence of cells it appends;
    [new_cell_list] then makes them objects of the store. *)

Definition new_cell_list (cells : list Cell.t) : M loc :=
  items <- comprehension cells (fun cell => alloc (OCell cell)) ;;
  alloc (OList items).

Module Box.
Definition TOP_LEFT_CORNER := "╭".
Definition TOP_RIGHT_CORNER := "╮".
Definition BOTTOM_LEFT_CORNER := "╰".
Definition BOTTOM_RIGHT_CORNER := "╯".
Definition HORIZONTAL_EDGE := "─".
Definition VERTICAL_EDGE := "│".

Record t := mk {
  start_row : Z; end_row : Z; start_col : Z; end_col : Z; filled : bool
}.

Definition _build (self : t) : list Cell.t :=
  (if filled self then
     i ← range (start_row self + 1) (end_row self);
     j ← range (start_col self + 1) (end_col self);
     [Cell.mk i j " "]
   else [])
  (* top edge *)
  ++ [Cell.mk (start_row self) (start_col self) TOP_LEFT_CORNER]
  ++ [Cell.mk (start_row self) (end_col self) TOP_RIGHT_CORNER]
  ++ (i ← range (start_col self + 1) (end_col self);
      [Cell.mk (start_row self) i HORIZONTAL_EDGE])
  (* bottom edge *)
  ++ [Cell.mk (end_row self) (start_col self) BOTTOM_LEFT_CORNER]
  ++ [Cell.mk (end_row self) (end_col self) BOTTOM_RIGHT_CORNER]
  ++ (i ← range (start_col self + 1) (end_col self);
      [Cell.mk (end_row self) i HORIZONTAL_EDGE])
  (* left and right edges *)
  ++ (i ← range (start_row self + 1) (end_row self);
      [Cell.mk i (start_col self) VERTICAL_EDGE;
       Cell.mk i (end_col self) VERTICAL_EDGE]).
End Box.

Module XmasTree.
Record t := mk {
  start_row : Z; start_col : Z; height : Z; width : Z; cell_list : loc
}.

(** [_build] reads [start_row], [start_col], [height] and [width] of [self];
    it runs before [self.cell_list] exists. *)
Definition _build (start_row start_col height width : Z) : list Cell.t :=
  [Cell.mk start_row (start_col + width / 2) "✪"]
  (* tree leaves *)
  ++ (i ← range 1 height;
      let mid := width / 2 in
      j ← range (mid - i) (mid + i + 1);
      [Cell.mk (start_row + i) (start_col + j) "*"])
  (* tree trunk *)
  ++ (let trunk_width := height / 3 in
      let trunk_width :=
        if bool_decide (trunk_width `mod` 2 = 1) then trunk_width else trunk_width + 1 in
      let trunk_height := height / 4 in
      let trunk_start := width / 2 - trunk_width / 2 in
      i ← range height (height + trunk_height);
      j ← range trunk_start (trunk_start + trunk_width);
      [Cell.mk (start_row + i) (start_col + j) "*"]).

(** The [while True] of [_add_ornaments]: draw an index until it hits a
    cell whose character is ['*'], and retag that cell.  [fuel] bounds the
    number of draws the model follows. *)
Fixpoint retry (fuel : nat) (self : t) (num_cell : Z) : M unit :=
  match fuel with
  | O => diverge
  | S fuel' =>
      i <- randint 1 (num_cell - 1) ;;
      cell <- list_getitem (cell_list self) i ;;
      ch <- attr_c cell ;;
      if bool_decide (ch = "*") then
        cell <- list_getitem (cell_list self) i ;;
        set_attr_c cell "O"            (* break *)
      else retry fuel' self num_cell
  end.

Definition _add_ornaments (fuel : nat) (self : t) (n : Z) : M unit :=
  items <- list_items (cell_list self) ;;
  let num_cell := Z.of_nat (length items) in
  for_each (range 0 n) (fun _ => retry fuel self num_cell).

Definition __init__ (fuel : nat) (start_row start_col height : Z) : M t :=
  let width := 2 * height - 1 in
  cells <- new_cell_list (_build start_row start_col height width) ;;
  let self := mk start_row start_col height width cells in
  _add_ornaments fuel self 9 ;;;
  ret self.
End XmasTree.

(** ** Canvas elements *)

Module CanvasElement.
Definition __init__ (z : Z) (cell_list : loc) : M loc :=
  id <- uuid4 ;;
  alloc (OElement id z cell_list).

(** [element1.cell_list + element2.cell_list] is a new list holding the
    same [Cell] objects. *)
Definition merge (element1 element2 : loc) : M loc :=
  z <- attr_z element1 ;;
  l1 <- attr_cell_list element1 ;;
  items1 <- list_items l1 ;;
  l2 <- attr_cell_list element2 ;;
  items2 <- list_items l2 ;;
  cell_list <- alloc (OList (items1 ++ items2)) ;;
  __init__ z cell_list.
End CanvasElement.

(** ** Name lookup

    What a name in a function body refers to: a local of the function, else a
    name bound at module level, else a builtin, else [NameError]. *)

Inductive pyref :=
| Ref (l : loc)             (* an object of the store *)
| Global (name : string).   (* what a module-level or builtin name is bound to *)

(** The names bound at the top level of [xmas_tool.py]: what it imports and
    defines, and the names every module has. *)
Definition module_globals : list string :=
  ["annotations"; "curses"; "dataclass"; "datetime"; "timedelta"; "timezone";
   "random"; "time"; "uuid"; "time_until_christmas"; "Canvas"; "Cell";
   "CanvasElement"; "Message"; "Box"; "XmasTree"; "CanvasElementFactory";
   "xmas"; "animated_loop";
   "__name__"; "__doc__"; "__package__"; "__loader__"; "__spec__"; "__file__";
   "__cached__"; "__builtins__"; "__annotations__"].

(** The names of the [builtins] module: functions and types, constants,
    exceptions and warnings, and what [site] adds. *)
Definition builtins : list string :=
  ["abs"; "aiter"; "all"; "anext"; "any"; "ascii"; "bin"; "bool"; "breakpoint";
   "bytearray"; "bytes"; "callable"; "chr"; "classmethod"; "compile";
   "complex"; "delattr"; "dict"; "dir"; "divmod"; "enumerate"; "eval"; "exec";
   "filter"; "float"; "format"; "frozenset"; "getattr"; "globals"; "hasattr";
   "hash"; "help"; "hex"; "id"; "input"; "int"; "isinstance"; "issubclass";
   "iter"; "len"; "list"; "locals"; "map"; "max"; "memoryview"; "min"; "next";
   "object"; "oct"; "open"; "ord"; "pow"; "print"; "property"; "range"; "repr";
   "reversed"; "round"; "set"; "setattr"; "slice"; "sorted"; "staticmethod";
   "str"; "sum"; "super"; "tuple"; "type"; "vars"; "zip"; "__import__";
   "__build_class__"; "__debug__"; "__doc__"; "__loader__"; "__name__";
   "__package__"; "__spec__";
   "True"; "False"; "None"; "Ellipsis"; "NotImplemented";
   "copyright"; "credits"; "license"; "exit"; "quit";
   "BaseException"; "BaseExceptionGroup"; "Exception"; "ExceptionGroup";
   "GeneratorExit"; "KeyboardInterrupt"; "SystemExit";
   "ArithmeticError"; "AssertionError"; "AttributeError"; "BlockingIOError";
   "BrokenPipeError"; "BufferError"; "ChildProcessError";
   "ConnectionAbortedError"; "ConnectionError"; "ConnectionRefusedError";
   "ConnectionResetError"; "EOFError"; "EnvironmentError"; "FileExistsError";
   "FileNotFoundError"; "FloatingPointError"; "IOError"; "ImportError";
   "IndentationError"; "IndexError"; "InterruptedError"; "IsADirectoryError";
   "KeyError"; "LookupError"; "MemoryError"; "ModuleNotFoundError";
   "NameError"; "NotADirectoryError"; "NotImplementedError"; "OSError";
   "OverflowError"; "PermissionError"; "ProcessLookupError"; "RecursionError";
   "ReferenceError"; "RuntimeError"; "StopAsyncIteration"; "StopIteration";
   "SyntaxError"; "SystemError"; "TabError"; "TimeoutError"; "TypeError";
   "UnboundLocalError"; "UnicodeDecodeError"; "UnicodeEncodeError";
   "UnicodeError"; "UnicodeTranslateError"; "ValueError"; "ZeroDivisionError";
   "BytesWarning"; "DeprecationWarning"; "EncodingWarning"; "FutureWarning";
   "ImportWarning"; "PendingDeprecationWarning"; "ResourceWarning";
   "RuntimeWarning"; "SyntaxWarning"; "UnicodeWarning"; "UserWarning";
   "Warning"].

Definition load_name (locals : list (string * loc)) (name : string) : M pyref :=
  match dict_get name locals with
  | Some l => ret (Ref l)
  | None =>
      if bool_decide (name ∈ (module_globals ++ builtins)%list) then ret (Global name)
      else raise (NameError name)
  end.

(** [o.name]: no class of the program gives its instances a [name]. *)
Definition attr_name (o : pyref) : M string :=
  match o with
  | Ref l => load l ;;; raise (AttributeError "name")
  | Global _ => raise (AttributeError "name")
  end.

(** ** The canvas *)

(** A stable sort by key, as [sorted(l, key=...)] is: each key is computed
    once, and elements with equal keys keep their order. *)
Fixpoint insert_by_key {A} (p : Z * A) (l : list (Z * A)) : list (Z * A) :=
  match l with
  | [] => [p]
  | q :: l' => if bool_decide (fst p <= fst q) then p :: q :: l' else q :: insert_by_key p l'
  end.

Fixpoint sort_by_key {A} (l : list (Z * A)) : list (Z * A) :=
  match l with
  | [] => []
  | p :: l' => insert_by_key p (sort_by_key l')
  end.

Definition sorted {A} (l : list A) (key : A -> M Z) : M (list A) :=
  keys <- comprehension l key ;;
  ret ((sort_by_key (zip keys l)).*2).

Module Canvas.
Definition __init__ (nrows ncols : Z) : M loc :=
  alloc (OCanvas nrows ncols []).

(** Assignment through [self.elements]: the dict is changed in place. *)
Definition set_elements (self : loc) (elements : list (string * loc)) : M unit :=
  v <- load self ;;
  match v with
  | OCanvas nrows ncols _ => store self (OCanvas nrows ncols elements)
  | _ => raise (AttributeError "elements")
  end.

Definition upsert (self canvas_element : loc) : M unit :=
  elements <- attr_elements self ;;
  id <- attr_id canvas_element ;;
  set_elements self (dict_setitem id canvas_element elements).

(** The body names [element], which is neither a parameter nor assigned in
    the function: the locals are [self], [canvas_element] and (once
    assigned) [removed_element]. *)
Definition remove (self canvas_element : loc) : M unit :=
  let locals := [("self", self); ("canvas_element", canvas_element)] in
  element <- load_name locals "element" ;;
  name <- attr_name element ;;
  elements <- attr_elements self ;;
  if dict_contains name elements then
    elements <- attr_elements self ;;
    element <- load_name locals "element" ;;
    name <- attr_name element ;;
    set_elements self (dict_pop name elements)
  else
    element <- load_name locals "element" ;;
    name <- attr_name element ;;
    print ("No element found with name '" ++ name ++ "'.").

Definition get_element (self : loc) (name : string) : M (option loc) :=
  elements <- attr_elements self ;;
  ret (dict_get name elements).

(** The body of the loop over the cells of an element: [canvas] is the
    grid being filled. *)
Definition render_cell (self canvas cell : loc) : M unit :=
  nrows <- attr_nrows self ;;
  ncols <- attr_ncols self ;;
  inside <- CellOps.in_bounds cell nrows ncols ;;
  if negb inside then ret tt       (* continue *)
  else
    c <- attr_c cell ;;              (* the value, then the target *)
    x <- attr_x cell ;;
    row <- list_getitem canvas x ;;
    y <- attr_y cell ;;
    row_setitem row y c.

(** The body of the loop over the sorted elements. *)
Definition render_element (self canvas element : loc) : M unit :=
  cell_list <- attr_cell_list element ;;
  cells <- list_items cell_list ;;
  for_each cells (render_cell self canvas).

Definition render (self : loc) : M loc :=
  nrows <- attr_nrows self ;;
  rows <- comprehension (range 0 nrows) (fun _ =>
            ncols <- attr_ncols self ;;
            alloc (ORow ((fun _ => " ") <$> range 0 ncols))) ;;
  canvas <- alloc (OList rows) ;;
  elements <- attr_elements self ;;
  element_list <- sorted (elements.*2) attr_z ;;
  for_each element_list (render_element self canvas) ;;;
  ret canvas.
End Canvas.

(** [CanvasElementFactory] *)
Module CanvasElementFactory.
Definition create_box (start_row end_row start_col end_col : Z) (filled : bool)
    (z : Z) : M loc :=
  cell_list <- new_cell_list
                 (Box._build (Box.mk start_row end_row start_col end_col filled)) ;;
  CanvasElement.__init__ z cell_list.

Definition create_xmas_tree (fuel : nat) (start_row start_col height z : Z) : M loc :=
  tree <- XmasTree.__init__ fuel start_row start_col height ;;
  CanvasElement.__init__ z (XmasTree.cell_list tree).
End CanvasElementFactory.

(** ** Reading the store

    What a reference denotes in a store [h]: the values of a cell, of a cell
    list, of an element, of a canvas and of a rendered grid. *)

Definition cell_at (h : list obj) (l : loc) : option Cell.t :=
  match h !! l with Some (OCell cell) => Some cell | _ => None end.

Definition cells_at (h : list obj) (l : loc) : option (list Cell.t) :=
  match h !! l with
  | Some (OList items) => mapM (cell_at h) items
  | _ => None
  end.

Record element_view := ElementView {
  ev_id : string; ev_z : Z; ev_cells : list Cell.t
}.

Definition element_at (h : list obj) (l : loc) : option element_view :=
  match h !! l with
  | Some (OElement id z cell_list) => ElementView id z <$> cells_at h cell_list
  | _ => None
  end.

Record canvas_view := CanvasView {
  cv_nrows : Z; cv_ncols : Z; cv_elements : list (string * element_view)
}.

Definition entry_at (h : list obj) (kv : string * loc) : option (string * element_view) :=
  pair (fst kv) <$> element_at h (snd kv).

Definition canvas_at (h : list obj) (l : loc) : option canvas_view :=
  match h !! l with
  | Some (OCanvas nrows ncols elements) =>
      CanvasView nrows ncols <$> mapM (entry_at h) elements
  | _ => None
  end.

Definition row_at (h : list obj) (l : loc) : option (list string) :=
  match h !! l with Some (ORow chars) => Some chars | _ => None end.

Definition grid_at (h : list obj) (l : loc) : option (list (list string)) :=
  match h !! l with
  | Some (OList rows) => mapM (row_at h) rows
  | _ => None
  end.

(** The character of a grid at row [r], column [c]. *)
Definition char_at (G : list (list string)) (r c : nat) : option string :=
  G !! r ≫= fun row => row !! c.

(** ** Auxiliary definitions for the statements *)

(** The value of the local [trunk_width] of [XmasTree._build]: [height // 3],
    made odd. *)
Definition trunk_width (height : Z) : Z :=
  if bool_decide ((height / 3) `mod` 2 = 1) then height / 3 else height / 3 + 1.

(** The character an element shows at row [r], column [c]: that of the last
    of its cells there, later cells of a list being painted over earlier
    ones. *)
Definition top_char (cells : list Cell.t) (r c : Z) : option string :=
  Cell.c <$> last (filter (fun cell => Cell.x cell = r /\ Cell.y cell = c) cells).

(** What is shown at row [r], column [c] once the elements [es] are painted,
    in that order, over a position showing [below]. *)
Definition shown (es : list element_view) (r c : Z) (below : option string)
    : option string :=
  foldl (fun under e =>
           match top_char (ev_cells e) r c with
           | Some ch => Some ch
           | None => under
           end) below es.

(** The render pass on values: what painting cells, in order, does to a grid.
    A cell outside the canvas is skipped. *)
Definition paint_cell (nrows ncols : Z) (G : list (list string)) (cell : Cell.t)
    : list (list string) :=
  if cell_in_bounds cell nrows ncols then
    match G !! Z.to_nat (Cell.x cell) with
    | Some row =>
        <[Z.to_nat (Cell.x cell) := <[Z.to_nat (Cell.y cell) := Cell.c cell]> row]> G
    | None => G
    end
  else G.

Definition paint_cells (nrows ncols : Z) (G : list (list string)) (cells : list Cell.t)
    : list (list string) :=
  foldl (paint_cell nrows ncols) G cells.

Definition blank_grid (nrows ncols : Z) : list (list string) :=
  replicate (Z.to_nat nrows) (replicate (Z.to_nat ncols) " ").

(** The elements of a canvas in paint order. *)
Definition by_z (elements : list (string * element_view)) : list element_view :=
  (sort_by_key ((fun kv => (ev_z (snd kv), snd kv)) <$> elements)).*2.

Definition painted (cv : canvas_view) : list (list string) :=
  foldl (fun G e => paint_cells (cv_nrows cv) (cv_ncols cv) G (ev_cells e))
        (blank_grid (cv_nrows cv) (cv_ncols cv))
        (by_z (cv_elements cv)).

(** A canvas without the cells that lie outside of it. *)
Definition clip_element (nrows ncols : Z) (e : element_view) : element_view :=
  ElementView (ev_id e) (ev_z e)
    (filter (fun cell => cell_in_bounds cell nrows ncols = true) (ev_cells e)).

Definition clip (cv : canvas_view) : canvas_view :=
  CanvasView (cv_nrows cv) (cv_ncols cv)
    ((fun kv => (fst kv, clip_element (cv_nrows cv) (cv_ncols cv) (snd kv)))
       <$> cv_elements cv).

(** A grid of [nrows] rows of [ncols] characters each. *)
Definition grid_dims (nrows ncols : Z) (G : list (list string)) : Prop :=
  length G = Z.to_nat nrows /\ Forall (fun row => length row = Z.to_nat ncols) G.

(** Every character of [G] is a blank or the character of an in-bounds cell,
    at that very position, of one of the elements [es]. *)
Definition from_cells (nrows ncols : Z) (es : list element_view)
    (G : list (list string)) : Prop :=
  forall (r c : nat) ch,
    char_at G r c = Some ch ->
    ch = " " \/
    exists e cell,
      e ∈ es /\ cell ∈ ev_cells e
      /\ Cell.x cell = Z.of_nat r /\ Cell.y cell = Z.of_nat c /\ Cell.c cell = ch
      /\ 0 <= Cell.x cell < nrows /\ 0 <= Cell.y cell < ncols.

(** The store [h0] followed by the rows of a grid and the list of them. *)
Definition grid_heap (h0 : list obj) (G : list (list string)) : list obj :=
  h0 ++ (ORow <$> G) ++ [OList (seq (length h0) (length G))].

(** *** The decoration pass *)

(** A cell retagged as an ornament: same position, character ['O']. *)
Definition retag (cell : Cell.t) : Cell.t := Cell.mk (Cell.x cell) (Cell.y cell) "O".

(** The number of cells whose character is the leaf glyph ['*']. *)
Definition star_count (cells : list Cell.t) : nat :=
  length (filter (fun cell => Cell.c cell = "*") cells).

(** In the store [h], the list at [cl] holds the distinct objects [items],
    which are cells of values [cells]. *)
Definition cell_list_at (h : list obj) (cl : loc) (items : list loc)
    (cells : list Cell.t) : Prop :=
  h !! cl = Some (OList items)
  /\ NoDup items
  /\ Forall2 (fun l cell => h !! l = Some (OCell cell)) items cells.

(** The world after one draw from the random source. *)
Definition advance (w : world) : world :=
  World (heap w) (stdout w) (uuid_src w) (uuid_pos w) (rand_src w) (S (rand_pos w)).

(** The index [random.randint(1, num_cell - 1)] draws in world [w]. *)
Definition drawn (w : world) (num_cell : Z) : Z :=
  1 + rand_src w (rand_pos w) `mod` (num_cell - 1 - 1 + 1).

(** A random source that, from any point on, eventually draws any given
    index of [1 .. num_cell - 1]. *)
Definition fair_source (src : nat -> Z) (num_cell : Z) : Prop :=
  forall (k : nat) (i : Z),
    1 <= i <= num_cell - 1 ->
    exists j, (k <= j)%nat /\ 1 + src j `mod` (num_cell - 1 - 1 + 1) = i.

(** The worlds [w] and [w'] differ in the store and in the number of draws
    only. *)
Definition same_channels (w w' : world) : Prop :=
  stdout w' = stdout w /\ uuid_src w' = uuid_src w /\ uuid_pos w' = uuid_pos w
  /\ rand_src w' = rand_src w.

(** What a finished retry loop did: it retagged one ['*'] cell, of index at
    least 1. *)
Definition retagged_one (items : list loc) (cells : list Cell.t) (w w' : world)
    (i : nat) : Prop :=
  exists l v,
    (1 <= i)%nat /\ items !! i = Some l /\ cells !! i = Some v /\ Cell.c v = "*"
    /\ heap w' = <[l := OCell (retag v)]> (heap w)
    /\ same_channels w w'.

(** What a finished decoration did to the cells [cells] of a list: [S] are
    the indices of the cells it retagged, each of them a ['*'] before;
    nothing else changed, in the list or elsewhere in the store. *)
Definition decorated (items : list loc) (cells cells' : list Cell.t) (w w' : world)
    (S : list nat) : Prop :=
  NoDup S
  /\ (forall i, i ∈ S ->
        (1 <= i)%nat /\
        exists v, cells !! i = Some v /\ Cell.c v = "*" /\ cells' !! i = Some (retag v))
  /\ (forall i, i ∉ S -> cells' !! i = cells !! i)
  /\ length cells' = length cells
  /\ (star_count cells' + length S = star_count cells)%nat
  /\ length (heap w') = length (heap w)
  /\ (forall l, l ∉ items -> heap w' !! l = heap w !! l)
  /\ same_channels w w'.

(** ** Sample worlds

    A world with an empty store, whose uuid source counts and whose random
    source enumerates the integers. *)
Definition uuid_counter (n : nat) : string := "uuid-" ++ pretty n.

Definition initial_world : world :=
  World [] [] uuid_counter 0 (fun n => Z.of_nat n) 0.

(** The world a computation leaves, and its result. *)
Definition exec {A} (m : M A) (w : world) : world := snd (m w).
Definition eval {A} (m : M A) (w : world) : outcome A := fst (m w).

(** A 3 x 3 canvas (at reference 0) and one element (at reference 3, id
    ["uuid-0"]) that was never put on it. *)
Definition world_unregistered : world :=
  exec (Canvas.__init__ 3 3 ;;;
        cells <- new_cell_list [Cell.mk 1 1 "X"] ;;
        CanvasElement.__init__ 0 cells) initial_world.

(** Two elements, at references 3 and 8. *)
Definition world_two_elements : world :=
  exec (a_cells <- new_cell_list [Cell.mk 0 0 "a"; Cell.mk 0 1 "b"] ;;
        CanvasElement.__init__ 1 a_cells ;;;
        b_cells <- new_cell_list [Cell.mk 0 1 "c"; Cell.mk 5 5 "d"; Cell.mk 2 2 "e"] ;;
        CanvasElement.__init__ 2 b_cells) initial_world.

(** A 3 x 4 canvas (at reference 0) holding two elements of equal [z] that
    overlap at row 1, column 1; the first also has cells outside the
    canvas. *)
Definition world_scene : world :=
  exec (canvas <- Canvas.__init__ 3 4 ;;
        a_cells <- new_cell_list
                     [Cell.mk 1 1 "a"; Cell.mk 0 0 "x"; Cell.mk 7 1 "y"; Cell.mk 1 (-1) "z"] ;;
        a <- CanvasElement.__init__ 1 a_cells ;;
        Canvas.upsert canvas a ;;;
        b_cells <- new_cell_list [Cell.mk 1 1 "b"; Cell.mk 2 3 "w"] ;;
        b <- CanvasElement.__init__ 1 b_cells ;;
        Canvas.upsert canvas b) initial_world.

Definition scene_view : canvas_view :=
  CanvasView 3 4
    [("uuid-0", ElementView "uuid-0" 1
                  [Cell.mk 1 1 "a"; Cell.mk 0 0 "x"; Cell.mk 7 1 "y"; Cell.mk 1 (-1) "z"]);
     ("uuid-1", ElementView "uuid-1" 1 [Cell.mk 1 1 "b"; Cell.mk 2 3 "w"])].

(** A tree of height 2 right after [self.cell_list = self._build()]: the star
    and the three leaves at references 0 to 3, the cell list at reference 4. *)
Definition world_tree : world :=
  exec (new_cell_list (XmasTree._build 0 0 2 (2 * 2 - 1))) initial_world.

Definition small_tree : XmasTree.t := XmasTree.mk 0 0 2 (2 * 2 - 1) 4%nat.

(** ** More sample worlds *)

(** A 2 x 2 canvas (at reference 0) holding one element (at reference 3, id
    ["uuid-0"]), and a second element (at reference 6, id ["uuid-1"]) not yet
    put on it. *)
Definition world_one_registered : world :=
  exec (canvas <- Canvas.__init__ 2 2 ;;
        a_cells <- new_cell_list [Cell.mk 0 0 "a"] ;;
        a <- CanvasElement.__init__ 3 a_cells ;;
        Canvas.upsert canvas a ;;;
        b_cells <- new_cell_list [Cell.mk 1 1 "b"] ;;
        CanvasElement.__init__ 2 b_cells) initial_world.

(** Of the pairs (element, id) upserted in that order, the element upserted
    last under the id [name]. *)
Definition last_with_id (entries : list (loc * string)) (name : string) : option loc :=
  fst <$> last (filter (fun p => snd p = name) entries).

(** A fresh 2 x 3 canvas (at reference 0) and three elements (at references
    3, 6 and 9), none of them put on it. *)
Definition world_three_elements : world :=
  exec (Canvas.__init__ 2 3 ;;;
        a_cells <- new_cell_list [Cell.mk 0 0 "a"] ;;
        CanvasElement.__init__ 3 a_cells ;;;
        b_cells <- new_cell_list [Cell.mk 0 0 "b"] ;;
        CanvasElement.__init__ 1 b_cells ;;;
        c_cells <- new_cell_list [Cell.mk 0 1 "c"] ;;
        CanvasElement.__init__ 2 c_cells) initial_world.

(** The three elements of [world_three_elements] put on the canvas in one
    order, and in the opposite order. *)
Definition world_abc : world :=
  exec (for_each [3; 6; 9]%nat (Canvas.upsert 0%nat)) world_three_elements.

Definition world_cba : world :=
  exec (for_each [9; 6; 3]%nat (Canvas.upsert 0%nat)) world_three_elements.

Definition view_abc : canvas_view :=
  default (CanvasView 0 0 []) (canvas_at (heap world_abc) 0%nat).

Definition view_cba : canvas_view :=
  default (CanvasView 0 0 []) (canvas_at (heap world_cba) 0%nat).

(** The world [w] after one [uuid4()] call. *)
Definition next_uuid (w : world) : world :=
  World (heap w) (stdout w) (uuid_src w) (S (uuid_pos w)) (rand_src w) (rand_pos w).

(** ** [Message]

    A Python [str] is taken as the sequence of its characters, each of them a
    one character [str]. *)

(** [s[i]] on a [str] *)
Definition str_getitem (s : list string) (i : Z) : M string :=
  match py_index (length s) i with
  | Some k =>
      match s !! k with
      | Some ch => ret ch
      | None => raise IndexError
      end
  | None => raise IndexError
  end.

(** [enumerate(l)] *)
Definition enumerate {A} (l : list A) : list (Z * A) :=
  zip (seqZ 0 (Z.of_nat (length l))) l.

Module Message.
Record t := mk {
  start_row : Z; start_col : Z; message : list string; message_length : Z;
  cell_list : loc
}.

(** [_build] reads [start_row], [start_col], [message] and [message_length]
    of [self]; indexing [message] is what could fail in it. *)
Definition _build (start_row start_col : Z) (message : list string)
    (message_length : Z) : M (list Cell.t) :=
  comprehension (enumerate (range start_col (start_col + message_length)))
    (fun iy => c <- str_getitem message (fst iy) ;;
               ret (Cell.mk start_row (snd iy) c)).

Definition __init__ (start_row start_col : Z) (message : list string) : M t :=
  let message_length := Z.of_nat (length message) in
  cells <- _build start_row start_col message message_length ;;
  cell_list <- new_cell_list cells ;;
  ret (mk start_row start_col message message_length cell_list).
End Message.

(** [CanvasElementFactory.create_message] *)
Definition create_message (start_row start_col : Z) (message : list string) (z : Z)
    : M loc :=
  message <- Message.__init__ start_row start_col message ;;
  CanvasElement.__init__ z (Message.cell_list message).

(** The cells of a text: character [i] at column [start_col + i]. *)
Definition text_cells (start_row start_col : Z) (message : list string) : list Cell.t :=
  imap (fun i ch => Cell.mk start_row (start_col + Z.of_nat i) ch) message.

(** The store [h0] followed by new cells and the list of them. *)
Definition cells_heap (h0 : list obj) (cells : list Cell.t) : list obj :=
  h0 ++ (OCell <$> cells) ++ [OList (seq (length h0) (length cells))].

(** The cells of a list that lie at row [r], column [c], in list order. *)
Definition at_pos (cells : list Cell.t) (r c : Z) : list Cell.t :=
  filter (fun cell => Cell.x cell = r /\ Cell.y cell = c) cells.

(** The number of cells whose character is the ornament glyph ['O']. *)
Definition ornament_count (cells : list Cell.t) : nat :=
  length (filter (fun cell => Cell.c cell = "O") cells).

(** ** Dates and times

    What [time_until_christmas] uses of Python's [datetime] module, on the
    calendar of that module (the Gregorian calendar extended to the years
    1 to 9999).  Durations are counted in microseconds: a [timedelta] is
    its total number of microseconds; a [datetime] with a [tzinfo] is its
    wall-clock reading, in microseconds since 0001-01-01T00:00:00, and the
    offset of its [tzinfo] from UTC.  The exceptions of the module are the
    left summand of a result. *)

Module DateTime.
Inductive error := OverflowError | ValueError.

Definition and_then {A B} (r : error + A) (k : A -> error + B) : error + B :=
  match r with
  | inl e => inl e
  | inr a => k a
  end.

Definition us_per_second : Z := 1000000.
Definition us_per_hour : Z := 3600 * us_per_second.
Definition us_per_day : Z := 24 * us_per_hour.

Definition MINYEAR : Z := 1.
Definition MAXYEAR : Z := 9999.
Definition _MAXORDINAL : Z := 3652059.     (* 9999-12-31 *)

(** Days in 400, 100 and 4 years. *)
Definition _DI400Y : Z := 146097.
Definition _DI100Y : Z := 36524.
Definition _DI4Y : Z := 1461.

Definition _is_leap (year : Z) : bool :=
  bool_decide (year `mod` 4 = 0)
  && (negb (bool_decide (year `mod` 100 = 0)) || bool_decide (year `mod` 400 = 0)).

(** Number of days before January 1st of [year]. *)
Definition _days_before_year (year : Z) : Z :=
  let y := year - 1 in
  y * 365 + y / 4 - y / 100 + y / 400.

Definition _DAYS_IN_MONTH : list Z :=
  [-1; 31; 28; 31; 30; 31; 30; 31; 31; 30; 31; 30; 31].

Definition _DAYS_BEFORE_MONTH : list Z :=
  [-1; 0; 31; 59; 90; 120; 151; 181; 212; 243; 273; 304; 334].

Definition _days_in_month (year month : Z) : Z :=
  if bool_decide (month = 2) && _is_leap year then 29
  else default 0 (_DAYS_IN_MONTH !! Z.to_nat month).

(** Number of days in [year] before the first day of [month]. *)
Definition _days_before_month (year month : Z) : Z :=
  default 0 (_DAYS_BEFORE_MONTH !! Z.to_nat month)
  + (if bool_decide (month > 2) && _is_leap year then 1 else 0).

(** The ordinal of a date, 0001-01-01 being day 1. *)
Definition _ymd2ord (year month day : Z) : Z :=
  _days_before_year year + _days_before_month year month + day.

(** The year of the day of ordinal [n]: the first component of
    [_ord2ymd]. *)
Definition _ord2year (n : Z) : Z :=
  let n := n - 1 in
  let n400 := n / _DI400Y in
  let n := n `mod` _DI400Y in
  let year := n400 * 400 + 1 in
  let n100 := n / _DI100Y in
  let n := n `mod` _DI100Y in
  let n4 := n / _DI4Y in
  let n := n `mod` _DI4Y in
  let n1 := n / 365 in
  let year := year + n100 * 100 + n4 * 4 + n1 in
  if bool_decide (n1 = 4) || bool_decide (n100 = 4) then year - 1 else year.

(** [timedelta(hours=hours)]: at most 999999999 days either way. *)
Definition timedelta (hours : Z) : error + Z :=
  let us := hours * us_per_hour in
  if bool_decide (Z.abs (us / us_per_day) > 999999999) then inl OverflowError
  else inr us.

(** [delta.days] and [delta.seconds] of a [timedelta]: the normalised
    fields, with [0 <= seconds < 24 * 3600]. *)
Definition days (delta : Z) : Z := delta / us_per_day.
Definition seconds (delta : Z) : Z := (delta `mod` us_per_day) / us_per_second.

Record datetime := mk { wall : Z; utcoffset : Z }.

(** What [datetime.now(timezone.utc)] returns when the clock reads
    [clock] microseconds since 0001-01-01T00:00:00 UTC. *)
Definition now_utc (clock : Z) : datetime := mk clock 0.

(** The readings of a clock that [datetime] can represent. *)
Definition representable (clock : Z) : Prop :=
  0 <= clock < _MAXORDINAL * us_per_day.

(** [timezone(offset)]: the offset has to lie strictly between -24 and 24
    hours.  The result is given by its offset. *)
Definition timezone (offset : Z) : error + Z :=
  if bool_decide (- (24 * us_per_hour) < offset < 24 * us_per_hour) then inr offset
  else inl ValueError.

(** [datetime(year, month, day, hour, minute, second, tzinfo=tzinfo)] *)
Definition datetime_new (year month day hour minute second : Z) (tzinfo : Z)
    : error + datetime :=
  if negb (bool_decide (MINYEAR <= year <= MAXYEAR)) then inl ValueError else
  if negb (bool_decide (1 <= month <= 12)) then inl ValueError else
  if negb (bool_decide (1 <= day <= _days_in_month year month)) then inl ValueError else
  if negb (bool_decide (0 <= hour <= 23)) then inl ValueError else
  if negb (bool_decide (0 <= minute <= 59)) then inl ValueError else
  if negb (bool_decide (0 <= second <= 59)) then inl ValueError else
  inr (mk ((_ymd2ord year month day - 1) * us_per_day
           + ((hour * 60 + minute) * 60 + second) * us_per_second)
          tzinfo).

(** [dt + delta]: the wall-clock reading moves, the [tzinfo] stays; the
    day of the result has to be one of the calendar. *)
Definition add (dt : datetime) (delta : Z) : error + datetime :=
  let reading := wall dt + delta in
  if bool_decide (0 < reading / us_per_day + 1 <= _MAXORDINAL)
  then inr (mk reading (utcoffset dt))
  else inl OverflowError.

Definition year (dt : datetime) : Z := _ord2year (wall dt / us_per_day + 1).

(** The instant of a [datetime], as a UTC reading. *)
Definition instant (dt : datetime) : Z := wall dt - utcoffset dt.

(** [a >= b] and [a - b] on two datetimes that have a [tzinfo] compare
    and subtract the instants. *)
Definition ge (a b : datetime) : bool := bool_decide (instant a >= instant b).
Definition sub (a b : datetime) : Z := instant a - instant b.
End DateTime.

Notation "x <-? m ;; k" := (DateTime.and_then m (fun x => k))
  (at level 100, m at next level, right associativity).

(** The dict [time_until_christmas] returns, whose keys are the four
    literals ["days"], ["hours"], ["minutes"] and ["seconds"]: a record of
    these four fields. *)
Record countdown := Countdown {
  cd_days : Z; cd_hours : Z; cd_minutes : Z; cd_seconds : Z
}.

(** [clock] is the reading of the system clock that [datetime.now] takes. *)
Definition time_until_christmas (clock : Z) (timezone_offset : Z)
    : DateTime.error + countdown :=
  let now_utc := DateTime.now_utc clock in
  (* apply the timezone offset *)
  offset <-? DateTime.timedelta timezone_offset ;;
  now_local <-? DateTime.add now_utc offset ;;
  (* the year of the next Christmas *)
  let current_year := DateTime.year now_local in
  tz <-? DateTime.timezone offset ;;
  christmas_this_year <-? DateTime.datetime_new current_year 12 25 0 0 0 tz ;;
  next_christmas <-?
    (if DateTime.ge now_local christmas_this_year then
       tz <-? DateTime.timezone offset ;;
       DateTime.datetime_new (current_year + 1) 12 25 0 0 0 tz
     else inr christmas_this_year) ;;
  let delta := DateTime.sub next_christmas now_local in
  let days := DateTime.days delta in
  let seconds_in_day := DateTime.seconds delta in
  let hours := seconds_in_day / 3600 in
  let minutes := (seconds_in_day `mod` 3600) / 60 in
  let seconds := (seconds_in_day `mod` 3600) `mod` 60 in
  inr (Countdown days hours minutes seconds).

(** The seconds a countdown stands for. *)
Definition total_seconds (r : countdown) : Z :=
  cd_days r * 86400 + cd_hours r * 3600 + cd_minutes r * 60 + cd_seconds r.

(** The wall-clock reading of 00:00:00 on 25 December of [year]. *)
Definition christmas_wall (year : Z) : Z :=
  (DateTime._ymd2ord year 12 25 - 1) * DateTime.us_per_day.

(** The countdown that stands for the duration [delta], as
    [time_until_christmas] splits it. *)
Definition countdown_of (delta : Z) : countdown :=
  let seconds_in_day := DateTime.seconds delta in
  Countdown (DateTime.days delta) (seconds_in_day / 3600)
    ((seconds_in_day `mod` 3600) / 60) ((seconds_in_day `mod` 3600) `mod` 60).

(** ** The scene *)

(** The characters of a [str] of ASCII characters. *)
Definition chars (s : string) : list string :=
  (fun a => String a EmptyString) <$> String.list_ascii_of_string s.

(** The f-string of the countdown; [pretty n] is [str(n)]. *)
Definition countdown_text (until_xmas : countdown) : string :=
  pretty (cd_days until_xmas) ++ " days, " ++ pretty (cd_hours until_xmas)
  ++ " hours, " ++ pretty (cd_minutes until_xmas) ++ " minutes, "
  ++ pretty (cd_seconds until_xmas) ++ " seconds".

(** [xmas(mouth_open)]; [clock] is the reading of the system clock that
    [time_until_christmas] takes, and an exception of [datetime] ends the
    call with [inl]. *)
Definition xmas (fuel : nat) (clock : Z) (mouth_open : bool)
    : M (DateTime.error + loc) :=
  let nrows := 20 in
  let ncols := 70 in
  canvas <- Canvas.__init__ nrows ncols ;;
  message <- create_message 0 5 ["🅧"; "🅜"; "🅐"; "🅢"] 10 ;;
  border <- CanvasElementFactory.create_box 0 (nrows - 1) 0 (ncols - 1) false 5 ;;
  tree <- CanvasElementFactory.create_xmas_tree fuel 2 2 15 1 ;;
  (* build face out of box and message *)
  face <- CanvasElementFactory.create_box 7 11 9 23 true 4 ;;
  eyes <- (if negb mouth_open
           then create_message 9 15 ["｡"; "◕"; "◡"; "◕"; "｡"] 4
           else create_message 9 15 ["｡"; "◕"; "▿"; "◕"; "｡"] 4) ;;
  face <- CanvasElement.merge face eyes ;;
  instructions <- create_message (nrows - 2) 43 (chars "q - quit") 10 ;;
  (* EST is -5 *)
  match time_until_christmas clock (-5) with
  | inl e => ret (inl e)
  | inr until_xmas =>
      count_down <- create_message 10 30 (chars (countdown_text until_xmas)) 10 ;;
      Canvas.upsert canvas border ;;;
      Canvas.upsert canvas message ;;;
      Canvas.upsert canvas tree ;;;
      Canvas.upsert canvas face ;;;
      Canvas.upsert canvas instructions ;;;
      Canvas.upsert canvas count_down ;;;
      state <- Canvas.render canvas ;;
      ret (inr state)
  end.

(** What a call that makes an element does: the store grows, the new
    element [e] has the next id of the uuid source, which moves on by one,
    and the random source is the same. *)
Definition made (w w' : world) (e : loc) (z : Z) (cells : list Cell.t) : Prop :=
  heap w `prefix_of` heap w'
  /\ element_at (heap w') e = Some (ElementView (uuid_src w (uuid_pos w)) z cells)
  /\ uuid_src w' = uuid_src w
  /\ uuid_pos w' = S (uuid_pos w)
  /\ rand_src w' = rand_src w.

(** What a decorated tree has of the tree as built: the cells keep their
    positions, and a character is kept or, for a ['*'], is ['O']. *)
Definition decoration_of (cells cells' : list Cell.t) : Prop :=
  Forall2 (fun v v' =>
             Cell.x v' = Cell.x v /\ Cell.y v' = Cell.y v
             /\ (Cell.c v' = Cell.c v \/ (Cell.c v = "*" /\ Cell.c v' = "O")))
          cells cells'.

(** The text of the face. *)
Definition eyes_text (mouth_open : bool) : list string :=
  if mouth_open then ["｡"; "◕"; "▿"; "◕"; "｡"] else ["｡"; "◕"; "◡"; "◕"; "｡"].

(** The elements of the scene, in the order [xmas] puts them on its
    canvas; [id k] is the [k]-th id that the call draws. *)
Definition scene_border (id : nat -> string) : element_view :=
  ElementView (id 1%nat) 5 (Box._build (Box.mk 0 19 0 69 false)).
Definition scene_title (id : nat -> string) : element_view :=
  ElementView (id 0%nat) 10 (text_cells 0 5 ["🅧"; "🅜"; "🅐"; "🅢"]).
Definition scene_tree (id : nat -> string) (tree_cells : list Cell.t) : element_view :=
  ElementView (id 2%nat) 1 tree_cells.
Definition scene_face (id : nat -> string) (mouth_open : bool) : element_view :=
  ElementView (id 5%nat) 4
    (Box._build (Box.mk 7 11 9 23 true) ++ text_cells 9 15 (eyes_text mouth_open)).
Definition scene_instructions (id : nat -> string) : element_view :=
  ElementView (id 6%nat) 10 (text_cells 18 43 (chars "q - quit")).
Definition scene_count_down (id : nat -> string) (until_xmas : countdown)
    : element_view :=
  ElementView (id 7%nat) 10 (text_cells 10 30 (chars (countdown_text until_xmas))).

Definition xmas_scene (id : nat -> string) (mouth_open : bool)
    (until_xmas : countdown) (tree_cells : list Cell.t) : canvas_view :=
  CanvasView 20 70
    ((fun e => (ev_id e, e)) <$>
       [scene_border id; scene_title id; scene_tree id tree_cells;
        scene_face id mouth_open; scene_instructions id;
        scene_count_down id until_xmas]).

(** What shows at row [r], column [c] of layers of cells given from the
    top one down: the character of the first layer that has a cell there,
    a blank when none has. *)
Fixpoint first_of (layers : list (list Cell.t)) (r c : Z) : string :=
  match layers with
  | [] => " "
  | cells :: below =>
      match top_char cells r c with
      | Some ch => ch
      | None => first_of below r c
      end
  end.

(** The number of decimal digits of a number from 0 to 999. *)
Definition digits (n : Z) : nat :=
  if bool_decide (n < 10) then 1%nat else if bool_decide (n < 100) then 2%nat else 3%nat.

(** * Verification *)

(** ** Running computations *)

Lemma bind_run {A B} (m : M A) (k : A -> M B) w a w' :
  m w = (Return a, w') -> bind m k w = k a w'.
Proof. intros H. unfold bind. now rewrite H. Qed.

Lemma bind_raise {A B} (m : M A) (k : A -> M B) w e w' :
  m w = (Raise e, w') -> bind m k w = (Raise e, w').
Proof. intros H. unfold bind. now rewrite H. Qed.

Lemma bind_diverge {A B} (m : M A) (k : A -> M B) w w' :
  m w = (Diverge, w') -> bind m k w = (Diverge, w').
Proof. intros H. unfold bind. now rewrite H. Qed.

Lemma load_run w l o : heap w !! l = Some o -> load l w = (Return o, w).
Proof. intros H. unfold load. now rewrite H. Qed.

Create HintDb run discriminated.
#[local] Hint Resolve load_run : run.

(** ** Box *)

(** C5 (as amended). [Box(0,4,0,4,filled=false)] produces exactly 16 cells:
    the 4 corner cells, 3+3 horizontal-edge cells on the top and bottom rows
    strictly between the corners, 3+3 vertical-edge cells on the left and
    right columns strictly between the corners, and no interior cell; with
    [filled=true] it produces, in addition and before them, exactly the
    3*3 = 9 interior blank cells. *)
Theorem box_0_4_0_4_cells :
  let outline := Box._build (Box.mk 0 4 0 4 false) in
  let full := Box._build (Box.mk 0 4 0 4 true) in
  outline =
    [Cell.mk 0 0 "╭"; Cell.mk 0 4 "╮";
     Cell.mk 0 1 "─"; Cell.mk 0 2 "─"; Cell.mk 0 3 "─";
     Cell.mk 4 0 "╰"; Cell.mk 4 4 "╯";
     Cell.mk 4 1 "─"; Cell.mk 4 2 "─"; Cell.mk 4 3 "─";
     Cell.mk 1 0 "│"; Cell.mk 1 4 "│";
     Cell.mk 2 0 "│"; Cell.mk 2 4 "│";
     Cell.mk 3 0 "│"; Cell.mk 3 4 "│"]
  /\ length outline = 16%nat
  /\ length (filter (fun cell => Cell.c cell = Box.HORIZONTAL_EDGE) outline) = (3 + 3)%nat
  /\ length (filter (fun cell => Cell.c cell = Box.VERTICAL_EDGE) outline) = (3 + 3)%nat
  /\ length (filter (fun cell => 0 < Cell.x cell < 4 /\ 0 < Cell.y cell < 4) outline) = 0%nat
  /\ full =
       ([Cell.mk 1 1 " "; Cell.mk 1 2 " "; Cell.mk 1 3 " ";
         Cell.mk 2 1 " "; Cell.mk 2 2 " "; Cell.mk 2 3 " ";
         Cell.mk 3 1 " "; Cell.mk 3 2 " "; Cell.mk 3 3 " "] ++ outline)%list
  /\ length full = (9 + 16)%nat.
Proof. repeat split; vm_compute; reflexivity. Qed.

(** C5, as stated, fails: the outline of [Box(0,4,0,4)] has 16 cells, not
    12, each edge having 3 cells strictly between its corners. *)
Lemma box_0_4_0_4_not_12_cells :
  length (Box._build (Box.mk 0 4 0 4 false)) <> 12%nat.
Proof. vm_compute. discriminate. Qed.

(** ** Stores that grow

    Allocation appends to the store, so whatever a reference denoted before
    it denotes afterwards. *)

Lemma cell_at_app h h' l cell :
  cell_at h l = Some cell -> cell_at (h ++ h') l = Some cell.
Proof.
  unfold cell_at. destruct (h !! l) as [o|] eqn:E; [|discriminate].
  intros H. now rewrite (lookup_app_l_Some _ _ _ _ E).
Qed.

Lemma cells_at_app h h' l cells :
  cells_at h l = Some cells -> cells_at (h ++ h') l = Some cells.
Proof.
  unfold cells_at. destruct (h !! l) as [o|] eqn:E; [|discriminate].
  rewrite (lookup_app_l_Some _ _ _ _ E). destruct o; try discriminate.
  rewrite !mapM_Some. intros H. eapply Forall2_impl; [exact H|].
  intros ? ?. apply cell_at_app.
Qed.

Lemma element_at_app h h' l e :
  element_at h l = Some e -> element_at (h ++ h') l = Some e.
Proof.
  unfold element_at. destruct (h !! l) as [o|] eqn:E; [|discriminate].
  rewrite (lookup_app_l_Some _ _ _ _ E). destruct o; try discriminate.
  destruct (cells_at h cell_list) as [cells|] eqn:Ec; [|discriminate].
  now rewrite (cells_at_app _ h' _ _ Ec).
Qed.

Lemma canvas_at_app h h' l cv :
  canvas_at h l = Some cv -> canvas_at (h ++ h') l = Some cv.
Proof.
  unfold canvas_at. destruct (h !! l) as [o|] eqn:E; [|discriminate].
  rewrite (lookup_app_l_Some _ _ _ _ E). destruct o; try discriminate.
  destruct (mapM (entry_at h) elements) as [evs|] eqn:Em; [|discriminate].
  intros H. enough (mapM (entry_at (h ++ h')) elements = Some evs) as -> by done.
  revert Em. rewrite !mapM_Some. intros Em. eapply Forall2_impl; [exact Em|].
  intros [k e] kv. unfold entry_at.
  simpl. destruct (element_at h e) as [ev|] eqn:Ee; [|discriminate].
  now rewrite (element_at_app _ h' _ _ Ee).
Qed.

(** ** [Canvas.remove] *)

Lemma element_is_no_name :
  bool_decide ("element" ∈ (module_globals ++ builtins)%list) = false.
Proof. vm_compute. reflexivity. Qed.

Lemma load_element_raises (w : world) (self canvas_element : loc) :
  load_name [("self", self); ("canvas_element", canvas_element)] "element" w
  = (Raise (NameError "element"), w).
Proof.
  unfold load_name. change (dict_get "element" _) with (@None loc).
  cbv beta iota. now rewrite element_is_no_name.
Qed.

(** C2. Every call of [Canvas.remove], on every canvas and with every
    argument (registered or not), raises [NameError] for the name
    [element], which the body reads in place of its parameter
    [canvas_element]; the world after the call is the world before it, so no
    call deletes an entry, and none returns normally. *)
Theorem remove_raises_NameError (w : world) (self canvas_element : loc) :
  Canvas.remove self canvas_element w = (Raise (NameError "element"), w).
Proof.
  unfold Canvas.remove. apply bind_raise. apply load_element_raises.
Qed.

(** C1 (as amended). Removing an element whose id was never inserted leaves
    the canvas's element mapping, and the whole store, unchanged. *)
Theorem remove_unknown_keeps_elements (w : world) (self canvas_element : loc)
    nrows ncols elements id z cell_list :
  heap w !! self = Some (OCanvas nrows ncols elements) ->
  heap w !! canvas_element = Some (OElement id z cell_list) ->
  id ∉ elements.*1 ->
  heap (exec (Canvas.remove self canvas_element) w) = heap w
  /\ heap (exec (Canvas.remove self canvas_element) w) !! self
     = Some (OCanvas nrows ncols elements).
Proof.
  intros Hself _ _. unfold exec.
  assert (Canvas.remove self canvas_element w = (Raise (NameError "element"), w)) as ->.
  { unfold Canvas.remove. apply bind_raise. apply load_element_raises. }
  now split.
Qed.

Lemma remove_unknown_keeps_elements_witness :
  heap (exec (Canvas.remove 0%nat 3%nat) world_unregistered) = heap world_unregistered
  /\ heap (exec (Canvas.remove 0%nat 3%nat) world_unregistered) !! 0%nat
     = Some (OCanvas 3 3 []).
Proof.
  apply (remove_unknown_keeps_elements world_unregistered 0%nat 3%nat 3 3 []
           "uuid-0" 0 2%nat).
  - reflexivity.
  - vm_compute. reflexivity.
  - simpl. apply not_elem_of_nil.
Defined.

(** C1, as stated, fails: on a canvas where the element was never inserted
    the call hands no value back to its caller. *)
Lemma remove_unknown_returns_nothing :
  ~ exists indication,
      eval (Canvas.remove 0%nat 3%nat) world_unregistered = Return indication.
Proof. intros [v H]. vm_compute in H. discriminate. Qed.

(** ** Attribute reads *)

Lemma attr_x_run w l cell :
  heap w !! l = Some (OCell cell) -> attr_x l w = (Return (Cell.x cell), w).
Proof. intros H. unfold attr_x. now rewrite (bind_run _ _ _ _ _ (load_run _ _ _ H)). Qed.

Lemma attr_y_run w l cell :
  heap w !! l = Some (OCell cell) -> attr_y l w = (Return (Cell.y cell), w).
Proof. intros H. unfold attr_y. now rewrite (bind_run _ _ _ _ _ (load_run _ _ _ H)). Qed.

Lemma attr_c_run w l cell :
  heap w !! l = Some (OCell cell) -> attr_c l w = (Return (Cell.c cell), w).
Proof. intros H. unfold attr_c. now rewrite (bind_run _ _ _ _ _ (load_run _ _ _ H)). Qed.

Lemma attr_id_run w l id z cl :
  heap w !! l = Some (OElement id z cl) -> attr_id l w = (Return id, w).
Proof. intros H. unfold attr_id. now rewrite (bind_run _ _ _ _ _ (load_run _ _ _ H)). Qed.

Lemma attr_z_run w l id z cl :
  heap w !! l = Some (OElement id z cl) -> attr_z l w = (Return z, w).
Proof. intros H. unfold attr_z. now rewrite (bind_run _ _ _ _ _ (load_run _ _ _ H)). Qed.

Lemma attr_cell_list_run w l id z cl :
  heap w !! l = Some (OElement id z cl) -> attr_cell_list l w = (Return cl, w).
Proof. intros H. unfold attr_cell_list. now rewrite (bind_run _ _ _ _ _ (load_run _ _ _ H)). Qed.

Lemma attr_nrows_run w l nrows ncols elements :
  heap w !! l = Some (OCanvas nrows ncols elements) -> attr_nrows l w = (Return nrows, w).
Proof. intros H. unfold attr_nrows. now rewrite (bind_run _ _ _ _ _ (load_run _ _ _ H)). Qed.

Lemma attr_ncols_run w l nrows ncols elements :
  heap w !! l = Some (OCanvas nrows ncols elements) -> attr_ncols l w = (Return ncols, w).
Proof. intros H. unfold attr_ncols. now rewrite (bind_run _ _ _ _ _ (load_run _ _ _ H)). Qed.

Lemma attr_elements_run w l nrows ncols elements :
  heap w !! l = Some (OCanvas nrows ncols elements) ->
  attr_elements l w = (Return elements, w).
Proof. intros H. unfold attr_elements. now rewrite (bind_run _ _ _ _ _ (load_run _ _ _ H)). Qed.

Lemma list_items_run w l items :
  heap w !! l = Some (OList items) -> list_items l w = (Return items, w).
Proof. intros H. unfold list_items. now rewrite (bind_run _ _ _ _ _ (load_run _ _ _ H)). Qed.

#[local] Hint Resolve attr_x_run attr_y_run attr_c_run attr_id_run attr_z_run
  attr_cell_list_run attr_nrows_run attr_ncols_run attr_elements_run
  list_items_run : run.

Lemma bind_assoc {A B C} (m : M A) (k : A -> M B) (k' : B -> M C) w :
  bind (bind m k) k' w = bind m (fun a => bind (k a) k') w.
Proof. unfold bind. destruct (m w) as [[a|e|] w']; reflexivity. Qed.

(** One step of a run: the first computation of a [bind] returns. *)
Ltac run_step :=
  rewrite ?bind_assoc;
  match goal with
  | |- context [bind ?m ?k ?w] => erewrite (bind_run m k w) by (eauto with run)
  end;
  cbv beta iota.

(** ** What the views say about the store *)

Lemma cell_at_Some h l cell : cell_at h l = Some cell <-> h !! l = Some (OCell cell).
Proof.
  unfold cell_at. destruct (h !! l) as [[]|]; split; intros H; try discriminate;
    now inversion H.
Qed.

Lemma cells_at_Some h l cells :
  cells_at h l = Some cells <->
  exists items, h !! l = Some (OList items) /\ mapM (cell_at h) items = Some cells.
Proof.
  unfold cells_at. split.
  - destruct (h !! l) as [[]|]; try discriminate. eauto.
  - intros (items & -> & H). exact H.
Qed.

Lemma element_at_Some h l e :
  element_at h l = Some e <->
  exists cl, h !! l = Some (OElement (ev_id e) (ev_z e) cl)
             /\ cells_at h cl = Some (ev_cells e).
Proof.
  unfold element_at. split.
  - destruct (h !! l) as [[]|]; try discriminate.
    destruct (cells_at h cell_list) eqn:E; [|discriminate].
    intros [= <-]. eauto.
  - intros (cl & -> & ->). now destruct e.
Qed.

(** ** [CanvasElement.merge] *)

(** C7. [merge(A, B)] returns a new element whose [z] is [A.z] and whose
    cell sequence is [A]'s cells followed by [B]'s (its length is the sum of
    theirs); the store it leaves extends the store it found, so [A], [B] and
    their cells are as before. *)
Theorem merge_concatenates (w : world) (element1 element2 : loc) (A B : element_view) :
  element_at (heap w) element1 = Some A ->
  element_at (heap w) element2 = Some B ->
  exists merged w' C,
    CanvasElement.merge element1 element2 w = (Return merged, w')
    /\ heap w !! merged = None
    /\ element_at (heap w') merged = Some C
    /\ ev_z C = ev_z A
    /\ ev_cells C = (ev_cells A ++ ev_cells B)%list
    /\ length (ev_cells C) = (length (ev_cells A) + length (ev_cells B))%nat
    /\ heap w `prefix_of` heap w'
    /\ element_at (heap w') element1 = Some A
    /\ element_at (heap w') element2 = Some B.
Proof.
  intros HA HB.
  destruct (proj1 (element_at_Some _ _ _) HA) as (cla & Ha & Hca).
  destruct (proj1 (element_at_Some _ _ _) HB) as (clb & Hb & Hcb).
  destruct (proj1 (cells_at_Some _ _ _) Hca) as (ia & Hia & Hma).
  destruct (proj1 (cells_at_Some _ _ _) Hcb) as (ib & Hib & Hmb).
  unfold CanvasElement.merge. do 5 run_step.
  unfold CanvasElement.__init__, alloc, uuid4, bind. simpl.
  eexists _, _, (ElementView _ (ev_z A) (ev_cells A ++ ev_cells B)).
  split; [reflexivity|]. simpl.
  assert (Forall2 (fun l cell => cell_at (heap w ++ [OList (ia ++ ib)] ++
            [OElement (uuid_src w (uuid_pos w)) (ev_z A) (length (heap w))]) l
            = Some cell) (ia ++ ib) (ev_cells A ++ ev_cells B)) as Hcells.
  { apply Forall2_app; [apply mapM_Some in Hma | apply mapM_Some in Hmb];
      (eapply Forall2_impl; [eassumption|]); intros ? ?; apply cell_at_app. }
  rewrite <- !(assoc_L (++)).
  split; [apply lookup_ge_None; rewrite length_app; simpl; lia|].
  split.
  { apply element_at_Some. exists (length (heap w)). split.
    - rewrite (assoc_L (++)). now apply list_lookup_middle.
    - apply cells_at_Some. exists (ia ++ ib)%list. split.
      + now apply list_lookup_middle.
      + now apply mapM_Some. }
  repeat split; auto using length_app, element_at_app.
  now apply prefix_app_r.
Qed.

Lemma merge_concatenates_witness :
  exists merged w' C,
    CanvasElement.merge 3%nat 8%nat world_two_elements = (Return merged, w')
    /\ heap world_two_elements !! merged = None
    /\ element_at (heap w') merged = Some C
    /\ ev_z C = 1
    /\ ev_cells C = [Cell.mk 0 0 "a"; Cell.mk 0 1 "b";
                     Cell.mk 0 1 "c"; Cell.mk 5 5 "d"; Cell.mk 2 2 "e"]
    /\ length (ev_cells C) = (2 + 3)%nat
    /\ heap world_two_elements `prefix_of` heap w'
    /\ element_at (heap w') 3%nat
       = Some (ElementView "uuid-0" 1 [Cell.mk 0 0 "a"; Cell.mk 0 1 "b"])
    /\ element_at (heap w') 8%nat
       = Some (ElementView "uuid-1" 2
                 [Cell.mk 0 1 "c"; Cell.mk 5 5 "d"; Cell.mk 2 2 "e"]).
Proof.
  apply (merge_concatenates world_two_elements 3%nat 8%nat
           (ElementView "uuid-0" 1 [Cell.mk 0 0 "a"; Cell.mk 0 1 "b"])
           (ElementView "uuid-1" 2
              [Cell.mk 0 1 "c"; Cell.mk 5 5 "d"; Cell.mk 2 2 "e"]));
    vm_compute; reflexivity.
Defined.


(** ** List facts used for the builders *)

Lemma filter_bind {A B} (P : B -> Prop) `{!forall x, Decision (P x)}
    (f : A -> list B) (l : list A) :
  filter P (l ≫= f) = l ≫= (fun a => filter P (f a)).
Proof.
  induction l as [|a l IH]; [reflexivity|].
  now rewrite !bind_cons, filter_app, IH.
Qed.

Lemma filter_all {A} (P : A -> Prop) `{!forall x, Decision (P x)} (l : list A) :
  (forall x, x ∈ l -> P x) -> filter P l = l.
Proof.
  induction l as [|a l IH]; intros Hall; [reflexivity|].
  rewrite filter_cons_True by (apply Hall; left).
  f_equal. apply IH. intros x Hx. apply Hall. now right.
Qed.

Lemma filter_none {A} (P : A -> Prop) `{!forall x, Decision (P x)} (l : list A) :
  (forall x, x ∈ l -> ~ P x) -> filter P l = [].
Proof.
  induction l as [|a l IH]; intros Hall; [reflexivity|].
  rewrite filter_cons_False by (apply Hall; left).
  apply IH. intros x Hx. apply Hall. now right.
Qed.

Lemma bind_none {A B} (g : A -> list B) (l : list A) :
  (forall a, a ∈ l -> g a = []) -> l ≫= g = [].
Proof.
  induction l as [|a l IH]; intros H; [reflexivity|].
  rewrite bind_cons, (H a) by left. apply IH. intros b Hb. apply H. now right.
Qed.

Lemma bind_only {A B} (g : A -> list B) (l : list A) (a0 : A) :
  NoDup l -> a0 ∈ l -> (forall a, a ∈ l -> a <> a0 -> g a = []) -> l ≫= g = g a0.
Proof.
  induction 1 as [|a l Hnotin Hnd IH]; intros Hin Hg.
  - now apply elem_of_nil in Hin.
  - rewrite bind_cons. apply elem_of_cons in Hin as [<-|Hin].
    + rewrite bind_none; [apply (right_id_L [] (++))|].
      intros b Hb. apply Hg; [now right|]. intros ->. contradiction.
    + rewrite (Hg a); [|left|intros ->; contradiction].
      apply IH; [assumption|]. intros b Hb. apply Hg. now right.
Qed.

Lemma bind_singleton_fmap {A B} (f : A -> B) (l : list A) :
  l ≫= (fun a => [f a]) = f <$> l.
Proof. induction l as [|a l IH]; [reflexivity|]. now rewrite bind_cons, IH. Qed.

Lemma elem_of_range a b i : i ∈ range a b <-> a <= i < b.
Proof. unfold range. rewrite elem_of_seqZ. lia. Qed.

(** ** The tree *)

(** The cells [_build] emits for one row [i] of ['*']: columns
    [start_col + lo .. start_col + hi - 1]. *)
Lemma filter_star_row (r start_row start_col i lo hi : Z) :
  filter (fun cell => Cell.x cell = r)
         (j ← range lo hi; [Cell.mk (start_row + i) (start_col + j) "*"])
  = if bool_decide (start_row + i = r)
    then (fun j => Cell.mk (start_row + i) (start_col + j) "*") <$> range lo hi
    else [].
Proof.
  rewrite bind_singleton_fmap. case_bool_decide as E.
  - apply filter_all. intros cell (j & -> & _)%list_elem_of_fmap. exact E.
  - apply filter_none. intros cell (j & -> & _)%list_elem_of_fmap. exact E.
Qed.

Lemma filter_star_rows (r start_row start_col a b : Z) (lo hi : Z -> Z) :
  filter (fun cell => Cell.x cell = r)
         (i ← range a b; j ← range (lo i) (hi i);
          [Cell.mk (start_row + i) (start_col + j) "*"])
  = if bool_decide (a <= r - start_row < b)
    then (fun j => Cell.mk r (start_col + j) "*")
           <$> range (lo (r - start_row)) (hi (r - start_row))
    else [].
Proof.
  rewrite filter_bind. case_bool_decide as E.
  - rewrite (bind_only _ _ (r - start_row)).
    + rewrite filter_star_row, bool_decide_eq_true_2 by lia.
      now replace (start_row + (r - start_row)) with r by lia.
    + apply NoDup_seqZ.
    + now apply elem_of_range.
    + intros i _ Hi. rewrite filter_star_row.
      rewrite bool_decide_eq_false_2; [reflexivity|lia].
  - apply bind_none. intros i Hi%elem_of_range.
    rewrite filter_star_row, bool_decide_eq_false_2; [reflexivity|lia].
Qed.

Lemma trunk_width_odd height :
  Z.odd (trunk_width height) = true
  /\ height / 3 <= trunk_width height <= height / 3 + 1.
Proof.
  unfold trunk_width. case_bool_decide as E.
  - split; [|lia]. rewrite Zodd_mod. now apply Z.eqb_eq.
  - split; [|lia]. rewrite Zodd_mod. apply Z.eqb_eq.
    pose proof (Z.mod_pos_bound (height / 3) 2 ltac:(lia)).
    rewrite <- Zplus_mod_idemp_l.
    replace ((height / 3) `mod` 2) with 0 by lia. reflexivity.
Qed.

(** C6 (as amended). For every [start_row], [start_col] and [height] (so for
    every [height >= 1]), the tree builder produces, on row 0, a single star
    cell at the midpoint column [start_col + (height - 1)]; on each row [i]
    for [i] in [1 .. height - 1], exactly the ['*'] cells of the [2*i+1]
    columns centred on the midpoint (the widest, row [height - 1], spans the
    overall width [2*height - 1]); on each of the [height // 4] rows from row
    [height] on, a trunk of ['*'] cells centred on the midpoint, whose width
    is [height // 3] rounded up to the nearest odd number; and no other
    cell. *)
Theorem tree_shape (start_row start_col height : Z) :
  let cells := XmasTree._build start_row start_col height (2 * height - 1) in
  let mid := height - 1 in
  let row i := filter (fun cell => Cell.x cell = start_row + i) cells in
  let stars i lo hi :=
    (fun j => Cell.mk (start_row + i) (start_col + j) "*") <$> range lo hi in
  row 0 = [Cell.mk start_row (start_col + mid) "✪"]
  /\ (forall i, 1 <= i < height ->
        row i = stars i (mid - i) (mid + i + 1)
        /\ Z.of_nat (length (row i)) = 2 * i + 1)
  /\ (exists trunk_width,
        Z.odd trunk_width = true
        /\ height / 3 <= trunk_width <= height / 3 + 1
        /\ forall i, height <= i < height + height / 4 ->
             row i = stars i (mid - trunk_width / 2) (mid + trunk_width / 2 + 1)
             /\ Z.of_nat (length (row i)) = trunk_width)
  /\ (forall cell, cell ∈ cells ->
        exists i, Cell.x cell = start_row + i
                  /\ (i = 0 \/ 1 <= i < height \/ height <= i < height + height / 4)).
Proof.
  intros cells mid row stars.
  assert (Hmid : (2 * height - 1) / 2 = mid).
  { unfold mid. symmetry. apply (Z.div_unique _ _ _ 1); lia. }
  assert (Hrow : forall i, row i =
    ((if bool_decide (i = 0) then [Cell.mk start_row (start_col + mid) "✪"] else [])
     ++ (if bool_decide (1 <= i < height) then stars i (mid - i) (mid + i + 1) else [])
     ++ (if bool_decide (height <= i < height + height / 4)
         then stars i (mid - trunk_width height / 2)
                (mid - trunk_width height / 2 + trunk_width height) else []))%list).
  { intros i. unfold row, cells, XmasTree._build. rewrite Hmid.
    rewrite !filter_app. f_equal; [|f_equal].
    - rewrite filter_singleton; [|exact []]. simpl.
      destruct (decide (start_row = start_row + i)), (bool_decide_reflect (i = 0));
        try reflexivity; lia.
    - rewrite (filter_star_rows _ _ _ _ _ (fun i => mid - i) (fun i => mid + i + 1)).
      replace (start_row + i - start_row) with i by lia. reflexivity.
    - fold (trunk_width height).
      rewrite (filter_star_rows _ _ _ _ _
                 (fun _ => mid - trunk_width height / 2)
                 (fun _ => mid - trunk_width height / 2 + trunk_width height)).
      replace (start_row + i - start_row) with i by lia. reflexivity. }
  pose proof (Z.div_mod height 4 ltac:(lia)) as Hdiv4.
  pose proof (Z.mod_pos_bound height 4 ltac:(lia)) as Hmod4.
  pose proof (Z.div_mod height 3 ltac:(lia)) as Hdiv3.
  pose proof (Z.mod_pos_bound height 3 ltac:(lia)) as Hmod3.
  destruct (trunk_width_odd height) as [Hodd Hbounds].
  assert (Htw : trunk_width height = 2 * (trunk_width height / 2) + 1).
  { rewrite Zodd_mod in Hodd. apply Z.eqb_eq in Hodd.
    pose proof (Z.div_mod (trunk_width height) 2 ltac:(lia)). lia. }
  split; [|split; [|split]].
  - rewrite Hrow, bool_decide_eq_true_2, !bool_decide_eq_false_2 by lia.
    reflexivity.
  - intros i Hi.
    assert (row i = stars i (mid - i) (mid + i + 1)) as ->.
    { rewrite Hrow, bool_decide_eq_false_2, bool_decide_eq_true_2,
        bool_decide_eq_false_2 by lia.
      simpl. apply (right_id_L [] (++)). }
    split; [reflexivity|]. unfold stars, range. rewrite length_fmap, length_seqZ. lia.
  - exists (trunk_width height). split; [assumption|]. split; [assumption|].
    intros i Hi.
    assert (row i = stars i (mid - trunk_width height / 2)
                      (mid + trunk_width height / 2 + 1)) as ->.
    { rewrite Hrow, !bool_decide_eq_false_2, bool_decide_eq_true_2 by lia.
      simpl. f_equal. lia. }
    split; [reflexivity|]. unfold stars, range. rewrite length_fmap, length_seqZ. lia.
  - intros cell. unfold cells, XmasTree._build.
    rewrite !elem_of_app, list_elem_of_singleton, !list_elem_of_bind.
    intros [->|[(i & Hcell & Hi%elem_of_range)|(i & Hcell & Hi%elem_of_range)]].
    + exists 0. simpl. split; [lia|now left].
    + apply list_elem_of_bind in Hcell as (j & ->%list_elem_of_singleton & _).
      exists i. split; [reflexivity|]. right. now left.
    + apply list_elem_of_bind in Hcell as (j & ->%list_elem_of_singleton & _).
      exists i. split; [reflexivity|]. right. now right.
Qed.

Lemma tree_shape_witness :
  filter (fun cell => Cell.x cell = 0 + 2) (XmasTree._build 0 0 4 (2 * 4 - 1))
  = (fun j => Cell.mk (0 + 2) (0 + j) "*") <$> range (4 - 1 - 2) (4 - 1 + 2 + 1)
  /\ Z.of_nat (length (filter (fun cell => Cell.x cell = 0 + 2)
                         (XmasTree._build 0 0 4 (2 * 4 - 1)))) = 2 * 2 + 1.
Proof.
  destruct (tree_shape 0 0 4) as (_ & Hrows & _). apply (Hrows 2). lia.
Defined.

(** C6, as stated, fails for the row [i = height]: a tree of height 4 has
    leaf rows 1, 2 and 3 only; its row 4 is the trunk, one cell wide, not a
    leaf row of [2*4+1] columns. *)
Lemma tree_row_height_is_not_a_leaf_row :
  let row4 := filter (fun cell => Cell.x cell = 0 + 4) (XmasTree._build 0 0 4 (2 * 4 - 1)) in
  row4 = [Cell.mk 4 3 "*"] /\ Z.of_nat (length row4) <> 2 * 4 + 1.
Proof. split; [vm_compute; reflexivity | vm_compute; discriminate]. Qed.


(** ** The render pass *)

Lemma set_heap_same w : set_heap (heap w) w = w.
Proof. now destruct w. Qed.

(** A comprehension whose body only reads the store. *)
Lemma comprehension_reads {A B} (f : A -> M B) (l : list A) (bs : list B) w :
  Forall2 (fun a b => f a w = (Return b, w)) l bs ->
  comprehension l f w = (Return bs, w).
Proof.
  induction 1 as [|a b l bs Hab _ IH]; [reflexivity|].
  simpl. rewrite (bind_run _ _ _ _ _ Hab), (bind_run _ _ _ _ _ IH). reflexivity.
Qed.

(** The rows of the blank canvas: one new list per row. *)
Lemma blank_rows_run (self : loc) nrows ncols elements (row : Z -> list string)
    (l : list Z) w :
  heap w !! self = Some (OCanvas nrows ncols elements) ->
  comprehension l (fun _ => n <- attr_ncols self ;; alloc (ORow (row n))) w
  = (Return (seq (length (heap w)) (length l)),
     set_heap (heap w ++ replicate (length l) (ORow (row ncols))) w).
Proof.
  revert w. induction l as [|a l IH]; intros w Hself.
  - simpl. unfold ret. now rewrite (right_id_L [] (++)), set_heap_same.
  - simpl. run_step. unfold alloc at 1. unfold bind at 1.
    assert (heap (set_heap (heap w ++ [ORow (row ncols)]) w) !! self
            = Some (OCanvas nrows ncols elements)) as Hself'
      by (simpl; now apply lookup_app_l_Some).
    rewrite (bind_run _ _ _ _ _ (IH _ Hself')).
    unfold ret. simpl. rewrite length_app, <- (assoc_L (++)). simpl.
    now rewrite Nat.add_1_r.
Qed.

Lemma blank_row_replicate (ncols : Z) :
  (fun _ : Z => " ") <$> range 0 ncols = replicate (Z.to_nat ncols) " ".
Proof.
  unfold range, seqZ. rewrite Z.sub_0_r, <- list_fmap_compose.
  generalize 0%nat. induction (Z.to_nat ncols) as [|n IH]; intros k; [reflexivity|].
  simpl. f_equal. apply IH.
Qed.

(** *** Index arithmetic *)

Lemma py_index_in_range (len : nat) (i : Z) :
  0 <= i < Z.of_nat len -> py_index len i = Some (Z.to_nat i).
Proof. intros H. unfold py_index. now rewrite bool_decide_eq_true_2. Qed.

(** *** Painting one cell *)

Lemma paint_cell_dims nrows ncols G cell :
  grid_dims nrows ncols G -> grid_dims nrows ncols (paint_cell nrows ncols G cell).
Proof.
  intros [Hlen Hrows]. unfold paint_cell.
  destruct (cell_in_bounds cell nrows ncols); [|now split].
  destruct (G !! Z.to_nat (Cell.x cell)) as [row|] eqn:E; [|now split].
  split; [now rewrite length_insert|].
  apply Forall_insert; [assumption|]. rewrite length_insert.
  eapply Forall_lookup_1 in Hrows; eauto.
Qed.

Lemma paint_cells_dims nrows ncols G cells :
  grid_dims nrows ncols G -> grid_dims nrows ncols (paint_cells nrows ncols G cells).
Proof.
  revert G. induction cells as [|cell cells IH]; intros G HG; [assumption|].
  simpl. apply IH. now apply paint_cell_dims.
Qed.

Lemma blank_grid_dims nrows ncols : grid_dims nrows ncols (blank_grid nrows ncols).
Proof.
  unfold blank_grid. split; [apply length_replicate|].
  apply Forall_replicate, length_replicate.
Qed.

Lemma grid_heap_lookup_l h0 G l o :
  h0 !! l = Some o -> grid_heap h0 G !! l = Some o.
Proof. apply lookup_app_l_Some. Qed.

Lemma grid_heap_lookup_canvas h0 G :
  grid_heap h0 G !! (length h0 + length G)%nat
  = Some (OList (seq (length h0) (length G))).
Proof.
  unfold grid_heap. rewrite lookup_app_r by lia.
  replace (length h0 + length G - length h0)%nat with (length (ORow <$> G))
    by (rewrite length_fmap; lia).
  now apply list_lookup_middle.
Qed.

Lemma grid_heap_lookup_row h0 G k row :
  G !! k = Some row -> grid_heap h0 G !! (length h0 + k)%nat = Some (ORow row).
Proof.
  intros H. unfold grid_heap. rewrite lookup_app_r by lia.
  replace (length h0 + k - length h0)%nat with k by lia.
  apply lookup_app_l_Some. now rewrite list_lookup_fmap, H.
Qed.

Lemma grid_heap_insert_row h0 G k row :
  (k < length G)%nat ->
  <[(length h0 + k)%nat := ORow row]> (grid_heap h0 G) = grid_heap h0 (<[k := row]> G).
Proof.
  intros Hk. unfold grid_heap. rewrite insert_app_r, length_insert.
  rewrite insert_app_l by (now rewrite length_fmap).
  now rewrite list_fmap_insert.
Qed.

Lemma in_bounds_run w cell v nrows ncols :
  heap w !! cell = Some (OCell v) ->
  CellOps.in_bounds cell nrows ncols w = (Return (cell_in_bounds v nrows ncols), w).
Proof.
  intros H. unfold CellOps.in_bounds, cell_in_bounds.
  run_step. case_bool_decide; simpl;
    [|unfold ret; now rewrite bool_decide_eq_false_2 by lia].
  run_step. case_bool_decide; simpl;
    [|unfold ret; now rewrite bool_decide_eq_false_2 by lia].
  run_step. case_bool_decide; simpl;
    [|unfold ret; now rewrite bool_decide_eq_false_2 by lia].
  run_step. case_bool_decide; simpl;
    [|unfold ret; now rewrite bool_decide_eq_false_2 by lia].
  unfold ret. now rewrite bool_decide_eq_true_2 by lia.
Qed.

Lemma list_getitem_run w l items (i : Z) r :
  heap w !! l = Some (OList items) ->
  0 <= i < Z.of_nat (length items) ->
  items !! Z.to_nat i = Some r ->
  list_getitem l i w = (Return r, w).
Proof.
  intros Hl Hi Hr. unfold list_getitem. run_step.
  now rewrite py_index_in_range, Hr.
Qed.

Lemma row_setitem_run w l chars (i : Z) ch :
  heap w !! l = Some (ORow chars) ->
  0 <= i < Z.of_nat (length chars) ->
  row_setitem l i ch w
  = (Return tt, set_heap (<[l := ORow (<[Z.to_nat i := ch]> chars)]> (heap w)) w).
Proof.
  intros Hl Hi. unfold row_setitem. run_step.
  rewrite py_index_in_range by assumption. unfold store. now rewrite Hl.
Qed.

Lemma render_cell_run w h0 G self nrows ncols elements cell v :
  heap w = grid_heap h0 G ->
  grid_dims nrows ncols G ->
  h0 !! self = Some (OCanvas nrows ncols elements) ->
  h0 !! cell = Some (OCell v) ->
  Canvas.render_cell self (length h0 + length G)%nat cell w
  = (Return tt, set_heap (grid_heap h0 (paint_cell nrows ncols G v)) w).
Proof.
  intros Hw [Hlen Hrows] Hself Hcell.
  assert (heap w !! self = Some (OCanvas nrows ncols elements)) as Hself'
    by (rewrite Hw; now apply grid_heap_lookup_l).
  assert (heap w !! cell = Some (OCell v)) as Hcell'
    by (rewrite Hw; now apply grid_heap_lookup_l).
  unfold Canvas.render_cell. do 2 run_step.
  rewrite (bind_run _ _ _ _ _ (in_bounds_run _ _ _ _ _ Hcell')).
  unfold paint_cell. destruct (cell_in_bounds v nrows ncols) eqn:Hin; simpl.
  2:{ unfold ret. now rewrite <- Hw, set_heap_same. }
  apply bool_decide_eq_true_1 in Hin as [Hx Hy].
  destruct (lookup_lt_is_Some_2 G (Z.to_nat (Cell.x v)) ltac:(lia)) as [row Hrow].
  rewrite Hrow. do 2 run_step.
  erewrite (bind_run (list_getitem _ _)).
  2:{ eapply list_getitem_run.
      - rewrite Hw. apply grid_heap_lookup_canvas.
      - rewrite length_seq. lia.
      - apply lookup_seq_lt. lia. }
  run_step.
  erewrite row_setitem_run.
  2:{ rewrite Hw. apply grid_heap_lookup_row. exact Hrow. }
  2:{ eapply Forall_lookup_1 in Hrows; eauto. lia. }
  rewrite Hw, grid_heap_insert_row; [reflexivity|]. now apply lookup_lt_Some in Hrow.
Qed.

Lemma render_cells_run h0 self nrows ncols elements items cells :
  h0 !! self = Some (OCanvas nrows ncols elements) ->
  Forall2 (fun l v => h0 !! l = Some (OCell v)) items cells ->
  forall G w,
    heap w = grid_heap h0 G ->
    grid_dims nrows ncols G ->
    for_each items (Canvas.render_cell self (length h0 + Z.to_nat nrows)%nat) w
    = (Return tt, set_heap (grid_heap h0 (paint_cells nrows ncols G cells)) w).
Proof.
  intros Hself. induction 1 as [|l v items cells Hl _ IH]; intros G w Hw HG.
  - simpl. unfold ret. now rewrite <- Hw, set_heap_same.
  - simpl. destruct HG as [Hlen Hrows] eqn:EG. rewrite <- Hlen.
    erewrite bind_run by (eapply render_cell_run; eauto).
    rewrite Hlen. erewrite IH; [reflexivity|reflexivity|now apply paint_cell_dims].
Qed.

Lemma render_element_run h0 self nrows ncols elements element ev G w :
  h0 !! self = Some (OCanvas nrows ncols elements) ->
  element_at h0 element = Some ev ->
  heap w = grid_heap h0 G ->
  grid_dims nrows ncols G ->
  Canvas.render_element self (length h0 + Z.to_nat nrows)%nat element w
  = (Return tt, set_heap (grid_heap h0 (paint_cells nrows ncols G (ev_cells ev))) w).
Proof.
  intros Hself (cl & Hel & (items & Hcl & Hitems)%cells_at_Some)%element_at_Some Hw HG.
  assert (heap w !! element = Some (OElement (ev_id ev) (ev_z ev) cl))
    by (rewrite Hw; now apply grid_heap_lookup_l).
  assert (heap w !! cl = Some (OList items))
    by (rewrite Hw; now apply grid_heap_lookup_l).
  unfold Canvas.render_element. do 2 run_step.
  eapply render_cells_run; eauto.
  apply mapM_Some in Hitems. eapply Forall2_impl; [exact Hitems|].
  intros l v. apply cell_at_Some.
Qed.

Lemma render_elements_run h0 self nrows ncols elements locs evs :
  h0 !! self = Some (OCanvas nrows ncols elements) ->
  Forall2 (fun l ev => element_at h0 l = Some ev) locs evs ->
  forall G w,
    heap w = grid_heap h0 G ->
    grid_dims nrows ncols G ->
    for_each locs (Canvas.render_element self (length h0 + Z.to_nat nrows)%nat) w
    = (Return tt,
       set_heap (grid_heap h0
                   (foldl (fun G e => paint_cells nrows ncols G (ev_cells e)) G evs)) w).
Proof.
  intros Hself. induction 1 as [|l ev locs evs Hl _ IH]; intros G w Hw HG.
  - simpl. unfold ret. now rewrite <- Hw, set_heap_same.
  - simpl. erewrite bind_run by (eapply render_element_run; eauto).
    erewrite IH; [reflexivity|reflexivity|now apply paint_cells_dims].
Qed.

(** *** Sorting by key *)

Section sort_related.
Context {A B : Type} (R : A -> B -> Prop).

Let related (p : Z * A) (q : Z * B) : Prop := fst p = fst q /\ R (snd p) (snd q).

Lemma insert_by_key_related p q l k :
  related p q -> Forall2 related l k ->
  Forall2 related (insert_by_key p l) (insert_by_key q k).
Proof.
  intros Hpq. induction 1 as [|p' q' l k Hpq' Hlk IH]; simpl.
  - constructor; [exact Hpq|constructor].
  - assert (fst p = fst q) as Hkey by apply Hpq.
    assert (fst p' = fst q') as Hkey' by apply Hpq'.
    rewrite Hkey, Hkey'.
    case_bool_decide; repeat (constructor; try assumption).
Qed.

Lemma sort_by_key_related l k :
  Forall2 related l k -> Forall2 related (sort_by_key l) (sort_by_key k).
Proof.
  induction 1; simpl; [constructor|]. now apply insert_by_key_related.
Qed.

Lemma sorted_values_related (zs : list Z) (l : list A) (k : list B) :
  Forall2 R l k -> length zs = length l ->
  Forall2 R (sort_by_key (zip zs l)).*2 (sort_by_key (zip zs k)).*2.
Proof.
  intros Hlk Hlen. apply Forall2_fmap.
  eapply Forall2_impl; [apply sort_by_key_related|intros ? ? [_ ?]; eassumption].
  revert zs Hlen. induction Hlk; intros [|z zs] Hlen; simpl; try constructor;
    try discriminate.
  - now split.
  - apply IHHlk. simpl in Hlen. lia.
Qed.
End sort_related.

Lemma zip_keys (evs : list element_view) :
  zip (ev_z <$> evs) evs = (fun e => (ev_z e, e)) <$> evs.
Proof. induction evs as [|e evs IH]; [reflexivity|]. csimpl. now rewrite IH. Qed.

Lemma sorted_run h0 w (locs : list loc) (evs : list element_view) :
  (forall l o, h0 !! l = Some o -> heap w !! l = Some o) ->
  Forall2 (fun l ev => element_at h0 l = Some ev) locs evs ->
  exists sorted_locs,
    sorted locs attr_z w = (Return sorted_locs, w)
    /\ Forall2 (fun l ev => element_at h0 l = Some ev) sorted_locs
         (sort_by_key ((fun e => (ev_z e, e)) <$> evs)).*2.
Proof.
  intros Hw H. exists (sort_by_key (zip (ev_z <$> evs) locs)).*2. split.
  - unfold sorted. erewrite bind_run; [reflexivity|].
    apply comprehension_reads. apply Forall2_fmap_r.
    eapply Forall2_impl; [exact H|].
    intros l ev (cl & Hl%Hw & _)%element_at_Some. eauto with run.
  - rewrite <- zip_keys. apply sorted_values_related; [assumption|].
    rewrite length_fmap. symmetry. eapply Forall2_length, H.
Qed.

Lemma canvas_at_Some h l cv :
  canvas_at h l = Some cv <->
  exists elements,
    h !! l = Some (OCanvas (cv_nrows cv) (cv_ncols cv) elements)
    /\ mapM (entry_at h) elements = Some (cv_elements cv).
Proof.
  unfold canvas_at. split.
  - destruct (h !! l) as [[]|]; try discriminate.
    destruct (mapM (entry_at h) elements) eqn:E; [|discriminate].
    intros [= <-]. eauto.
  - intros (elements & -> & ->). now destruct cv.
Qed.

Lemma canvas_entries h elements kvs :
  mapM (entry_at h) elements = Some kvs ->
  Forall2 (fun l ev => element_at h l = Some ev) elements.*2 kvs.*2.
Proof.
  intros H%mapM_Some. apply Forall2_fmap.
  eapply Forall2_impl; [exact H|]. intros [k l] [k' ev]. unfold entry_at. simpl.
  destruct (element_at h l); [|discriminate]. now intros [= _ ->].
Qed.

Lemma by_z_values (kvs : list (string * element_view)) :
  by_z kvs = (sort_by_key ((fun e => (ev_z e, e)) <$> kvs.*2)).*2.
Proof. unfold by_z. now rewrite <- list_fmap_compose. Qed.

(** The render pass as a whole: the grid is made of new objects placed after
    the store it found, and holds what painting the elements in [z] order
    leaves. *)
Lemma render_run w self cv :
  canvas_at (heap w) self = Some cv ->
  Canvas.render self w
  = (Return (length (heap w) + Z.to_nat (cv_nrows cv))%nat,
     set_heap (grid_heap (heap w) (painted cv)) w).
Proof.
  intros (elements & Hself & Hentries)%canvas_at_Some.
  unfold Canvas.render. run_step.
  erewrite bind_run by (eapply blank_rows_run; eauto).
  rewrite (bind_run (alloc _) _ _ _ _ eq_refl).
  set (w2 := set_heap (_ ++ [_]) _).
  assert (heap w2 = grid_heap (heap w) (blank_grid (cv_nrows cv) (cv_ncols cv))) as Hw2.
  { unfold w2, grid_heap, blank_grid. simpl. rewrite blank_row_replicate.
    unfold range. rewrite length_seqZ, Z.sub_0_r, <- (assoc_L (++)).
    now rewrite fmap_replicate, !length_replicate. }
  assert (length (heap (set_heap (heap w ++ replicate (length (range 0 (cv_nrows cv)))
            (ORow ((fun _ : Z => " ") <$> range 0 (cv_ncols cv)))) w))
          = (length (heap w) + Z.to_nat (cv_nrows cv))%nat) as ->.
  { unfold range. simpl. rewrite length_app, length_replicate, length_seqZ. lia. }
  assert (forall l o, heap w !! l = Some o -> heap w2 !! l = Some o) as Hext.
  { intros l o Hl. rewrite Hw2. now apply grid_heap_lookup_l. }
  apply Hext in Hself as Hself2. run_step.
  destruct (sorted_run (heap w) w2 _ _ Hext (canvas_entries _ _ _ Hentries))
    as (sorted_locs & Hsorted & Hviews).
  rewrite (bind_run _ _ _ _ _ Hsorted).
  erewrite bind_run.
  2:{ eapply render_elements_run; eauto. apply blank_grid_dims. }
  unfold ret, painted. rewrite by_z_values. unfold w2. reflexivity.
Qed.

(** ** What painting leaves in the grid *)

Lemma char_at_paint_cell nrows ncols G cell (r c : nat) :
  grid_dims nrows ncols G ->
  char_at (paint_cell nrows ncols G cell) r c
  = if bool_decide (cell_in_bounds cell nrows ncols = true
                    /\ Cell.x cell = Z.of_nat r /\ Cell.y cell = Z.of_nat c)
    then Some (Cell.c cell)
    else char_at G r c.
Proof.
  intros [Hlen Hrows]. unfold paint_cell.
  destruct (cell_in_bounds cell nrows ncols) eqn:Hin.
  2:{ rewrite bool_decide_eq_false_2; [reflexivity|]. now intros [? _]. }
  apply bool_decide_eq_true_1 in Hin as [Hx Hy].
  destruct (lookup_lt_is_Some_2 G (Z.to_nat (Cell.x cell)) ltac:(lia)) as [row Hrow].
  rewrite Hrow. unfold char_at.
  assert (length row = Z.to_nat ncols) as Hrowlen
    by (eapply Forall_lookup_1 in Hrows; eauto).
  destruct (decide (Z.to_nat (Cell.x cell) = r)) as [<-|Hr].
  - rewrite list_lookup_insert_eq by (now apply lookup_lt_Some in Hrow). simpl.
    destruct (decide (Z.to_nat (Cell.y cell) = c)) as [<-|Hc].
    + rewrite list_lookup_insert_eq by lia.
      rewrite bool_decide_eq_true_2; [reflexivity|]. repeat split; lia.
    + rewrite list_lookup_insert_ne by assumption.
      rewrite bool_decide_eq_false_2 by lia. now rewrite Hrow.
  - rewrite list_lookup_insert_ne by assumption.
    rewrite bool_decide_eq_false_2 by lia. reflexivity.
Qed.

Lemma top_char_cons cell cells (r c : Z) :
  top_char (cell :: cells) r c
  = match top_char cells r c with
    | Some ch => Some ch
    | None => if bool_decide (Cell.x cell = r /\ Cell.y cell = c)
              then Some (Cell.c cell) else None
    end.
Proof.
  unfold top_char. rewrite filter_cons. case_bool_decide as E.
  - rewrite decide_True by assumption. rewrite last_cons.
    now destruct (last _).
  - rewrite decide_False by assumption. now destruct (last _).
Qed.

(** After painting a list of cells, an in-bounds position shows the list's
    own character there if it has one, and what was there before if not. *)
Lemma char_at_paint_cells nrows ncols cells (r c : Z) :
  0 <= r < nrows -> 0 <= c < ncols ->
  forall G,
    grid_dims nrows ncols G ->
    char_at (paint_cells nrows ncols G cells) (Z.to_nat r) (Z.to_nat c)
    = match top_char cells r c with
      | Some ch => Some ch
      | None => char_at G (Z.to_nat r) (Z.to_nat c)
      end.
Proof.
  intros Hr Hc. induction cells as [|cell cells IH]; intros G HG; [reflexivity|].
  simpl. rewrite IH by (now apply paint_cell_dims). rewrite top_char_cons.
  destruct (top_char cells r c); [reflexivity|].
  rewrite (char_at_paint_cell _ _ _ _ _ _ HG).
  unfold cell_in_bounds. rewrite !Z2Nat.id by lia.
  destruct (decide (Cell.x cell = r /\ Cell.y cell = c)) as [E|E].
  - rewrite (bool_decide_eq_true_2 _ E), bool_decide_eq_true_2; [reflexivity|].
    split; [|assumption]. apply bool_decide_eq_true_2. lia.
  - rewrite (bool_decide_eq_false_2 _ E), bool_decide_eq_false_2; [reflexivity|].
    now intros [_ ?].
Qed.

Lemma painted_dims cv : grid_dims (cv_nrows cv) (cv_ncols cv) (painted cv).
Proof.
  unfold painted. generalize (by_z (cv_elements cv)).
  generalize (blank_grid_dims (cv_nrows cv) (cv_ncols cv)).
  generalize (blank_grid (cv_nrows cv) (cv_ncols cv)).
  intros G HG l. revert G HG. induction l as [|e l IH]; intros G HG; [assumption|].
  simpl. apply IH. now apply paint_cells_dims.
Qed.

(** *** Where the characters of the grid come from *)

Lemma from_cells_blank nrows ncols es : from_cells nrows ncols es (blank_grid nrows ncols).
Proof.
  intros r c ch. unfold char_at, blank_grid.
  destruct (replicate _ _ !! r) as [row|] eqn:E; [|discriminate].
  apply lookup_replicate in E as [-> _]. simpl.
  intros [-> _]%lookup_replicate. now left.
Qed.

Lemma from_cells_paint_cells nrows ncols es e cells :
  e ∈ es -> (forall cell, cell ∈ cells -> cell ∈ ev_cells e) ->
  forall G,
    grid_dims nrows ncols G -> from_cells nrows ncols es G ->
    from_cells nrows ncols es (paint_cells nrows ncols G cells).
Proof.
  intros He. induction cells as [|cell cells IH]; intros Hsub G HG HP; [assumption|].
  simpl. apply IH.
  - intros ? ?. apply Hsub. now right.
  - now apply paint_cell_dims.
  - intros r c ch. rewrite (char_at_paint_cell _ _ _ _ _ _ HG).
    case_bool_decide as E; [|apply HP].
    intros [= <-]. right. exists e, cell.
    destruct E as (Hin%bool_decide_eq_true_1 & Hx & Hy).
    repeat split; try tauto. apply Hsub. left.
Qed.

Lemma from_cells_paint_elements nrows ncols es l :
  (forall e, e ∈ l -> e ∈ es) ->
  forall G,
    grid_dims nrows ncols G -> from_cells nrows ncols es G ->
    from_cells nrows ncols es
      (foldl (fun G e => paint_cells nrows ncols G (ev_cells e)) G l).
Proof.
  induction l as [|e l IH]; intros Hsub G HG HP; [assumption|].
  simpl. apply IH.
  - intros ? ?. apply Hsub. now right.
  - now apply paint_cells_dims.
  - eapply from_cells_paint_cells; eauto. apply Hsub. left.
Qed.

Lemma elem_of_insert_by_key {A} (p q : Z * A) l :
  q ∈ insert_by_key p l -> q = p \/ q ∈ l.
Proof.
  induction l as [|p' l IH]; simpl.
  - intros ->%list_elem_of_singleton. now left.
  - case_bool_decide as Hle.
    + intros [->|Hq]%elem_of_cons; [now left|now right].
    + intros [->|Hq]%elem_of_cons; [right; left|].
      destruct (IH Hq) as [->|?]; [now left|right; now right].
Qed.

Lemma elem_of_sort_by_key {A} (q : Z * A) l : q ∈ sort_by_key l -> q ∈ l.
Proof.
  induction l as [|p l IH]; simpl; [trivial|].
  intros [->|H]%elem_of_insert_by_key; [left|right; auto].
Qed.

Lemma elem_of_by_z e elements : e ∈ by_z elements -> e ∈ elements.*2.
Proof.
  unfold by_z. intros ([z e'] & -> & H%elem_of_sort_by_key)%list_elem_of_fmap.
  apply list_elem_of_fmap in H as ([k e''] & [= -> ->] & H).
  apply list_elem_of_fmap. now exists (k, e'').
Qed.

Lemma painted_from_cells cv :
  from_cells (cv_nrows cv) (cv_ncols cv) (cv_elements cv).*2 (painted cv).
Proof.
  unfold painted. apply from_cells_paint_elements.
  - intros e. apply elem_of_by_z.
  - apply blank_grid_dims.
  - apply from_cells_blank.
Qed.

(** *** Cells outside the canvas *)

Lemma paint_cells_clip nrows ncols cells G :
  paint_cells nrows ncols G
    (filter (fun cell => cell_in_bounds cell nrows ncols = true) cells)
  = paint_cells nrows ncols G cells.
Proof.
  revert G. induction cells as [|cell cells IH]; intros G; [reflexivity|].
  rewrite filter_cons. destruct (decide _) as [E|E]; simpl.
  - apply IH.
  - assert (paint_cell nrows ncols G cell = G) as ->; [|apply IH].
    unfold paint_cell. apply not_true_is_false in E. now rewrite E.
Qed.

Lemma insert_by_key_fmap {A B} (f : A -> B) (p : Z * A) l :
  insert_by_key (prod_map id f p) (prod_map id f <$> l)
  = prod_map id f <$> insert_by_key p l.
Proof.
  induction l as [|q l IH]; [reflexivity|]. csimpl.
  case_bool_decide; csimpl; [reflexivity|]. now rewrite IH.
Qed.

Lemma sort_by_key_fmap {A B} (f : A -> B) (l : list (Z * A)) :
  sort_by_key (prod_map id f <$> l) = prod_map id f <$> sort_by_key l.
Proof.
  induction l as [|p l IH]; [reflexivity|]. csimpl.
  now rewrite IH, insert_by_key_fmap.
Qed.

Lemma by_z_clip nrows ncols elements :
  by_z ((fun kv => (fst kv, clip_element nrows ncols (snd kv))) <$> elements)
  = clip_element nrows ncols <$> by_z elements.
Proof.
  unfold by_z. rewrite <- list_fmap_compose.
  rewrite (list_fmap_ext _ (prod_map id (clip_element nrows ncols)
                              ∘ (fun kv => (ev_z (snd kv), snd kv))) elements)
    by (now intros _ [k e] _).
  rewrite list_fmap_compose, sort_by_key_fmap, <- !list_fmap_compose.
  apply list_fmap_ext. now intros _ [z e] _.
Qed.

Lemma painted_clip cv : painted (clip cv) = painted cv.
Proof.
  unfold painted, clip. simpl. rewrite by_z_clip, foldl_fmap.
  generalize (blank_grid (cv_nrows cv) (cv_ncols cv)).
  induction (by_z (cv_elements cv)) as [|e l IH]; intros G; [reflexivity|].
  simpl. now rewrite paint_cells_clip, IH.
Qed.

(** *** Reading a grid back from the store *)

Lemma grid_at_grid_heap h0 G :
  grid_at (grid_heap h0 G) (length h0 + length G)%nat = Some G.
Proof.
  unfold grid_at. rewrite grid_heap_lookup_canvas. apply mapM_Some.
  apply Forall2_same_length_lookup_2; [now rewrite length_seq|].
  intros i l row [-> Hi]%lookup_seq Hrow. unfold row_at.
  now rewrite (grid_heap_lookup_row _ _ _ _ Hrow).
Qed.

Lemma grid_at_app h h' g G : grid_at h g = Some G -> grid_at (h ++ h') g = Some G.
Proof.
  unfold grid_at. destruct (h !! g) as [o|] eqn:E; [|discriminate].
  rewrite (lookup_app_l_Some _ _ _ _ E). destruct o; try discriminate.
  rewrite !mapM_Some. intros H. eapply Forall2_impl; [exact H|].
  intros l row. unfold row_at. destruct (h !! l) as [o|] eqn:El; [|discriminate].
  now rewrite (lookup_app_l_Some _ _ _ _ El).
Qed.

Lemma grid_heap_app h0 G : exists new, grid_heap h0 G = (h0 ++ new)%list.
Proof. unfold grid_heap. eauto. Qed.

(** The frame of one render call. *)
Lemma render_frame (w : world) (self : loc) (cv : canvas_view) :
  canvas_at (heap w) self = Some cv ->
  exists g w' rows,
    Canvas.render self w = (Return g, w')
    /\ heap w `prefix_of` heap w'
    /\ w' = set_heap (heap w') w
    /\ canvas_at (heap w') self = Some cv
    /\ grid_at (heap w') g = Some (painted cv)
    /\ heap w !! g = None
    /\ heap w' !! g = Some (OList rows)
    /\ NoDup rows
    /\ (forall r, r ∈ rows -> heap w !! r = None).
Proof.
  intros Hcv. pose proof (painted_dims cv) as [Hlen _].
  exists (length (heap w) + Z.to_nat (cv_nrows cv))%nat,
         (set_heap (grid_heap (heap w) (painted cv)) w),
         (seq (length (heap w)) (length (painted cv))).
  split; [now apply render_run|]. simpl.
  destruct (grid_heap_app (heap w) (painted cv)) as [new Hnew].
  split; [rewrite Hnew; now apply prefix_app_r|].
  split; [reflexivity|].
  split; [rewrite Hnew; now apply canvas_at_app|].
  rewrite <- Hlen.
  split; [apply grid_at_grid_heap|].
  split; [apply lookup_ge_None; lia|].
  split; [apply grid_heap_lookup_canvas|].
  split; [apply NoDup_seq|].
  intros r [? _]%elem_of_seq. apply lookup_ge_None. lia.
Qed.

(** *** The element on top *)

Lemma char_at_paint_elements nrows ncols es (r c : Z) :
  0 <= r < nrows -> 0 <= c < ncols ->
  forall G,
    grid_dims nrows ncols G ->
    char_at (foldl (fun G e => paint_cells nrows ncols G (ev_cells e)) G es)
            (Z.to_nat r) (Z.to_nat c)
    = shown es r c (char_at G (Z.to_nat r) (Z.to_nat c)).
Proof.
  intros Hr Hc. induction es as [|e es IH]; intros G HG; [reflexivity|].
  simpl. rewrite IH by (now apply paint_cells_dims).
  now rewrite char_at_paint_cells.
Qed.

Lemma char_at_blank_grid nrows ncols (r c : Z) :
  0 <= r < nrows -> 0 <= c < ncols ->
  char_at (blank_grid nrows ncols) (Z.to_nat r) (Z.to_nat c) = Some " ".
Proof.
  intros Hr Hc. unfold char_at, blank_grid.
  rewrite lookup_replicate_2 by lia. simpl. apply lookup_replicate_2. lia.
Qed.

Lemma painted_shows cv (r c : Z) :
  0 <= r < cv_nrows cv -> 0 <= c < cv_ncols cv ->
  char_at (painted cv) (Z.to_nat r) (Z.to_nat c)
  = shown (by_z (cv_elements cv)) r c (Some " ").
Proof.
  intros Hr Hc. unfold painted.
  rewrite char_at_paint_elements by (try apply blank_grid_dims; assumption).
  now rewrite char_at_blank_grid.
Qed.

(** On every canvas, each position of the rendered grid shows the character
    of the last element, in [z] order and insertion order among equal [z],
    that has a cell there, and a blank if there is none. *)
Lemma render_shows_topmost (w : world) (self : loc) (cv : canvas_view) :
  canvas_at (heap w) self = Some cv ->
  exists g w' G,
    Canvas.render self w = (Return g, w')
    /\ grid_at (heap w') g = Some G
    /\ forall r c : Z,
         0 <= r < cv_nrows cv -> 0 <= c < cv_ncols cv ->
         char_at G (Z.to_nat r) (Z.to_nat c)
         = shown (by_z (cv_elements cv)) r c (Some " ").
Proof.
  intros Hcv.
  destruct (render_frame w self cv Hcv) as (g & w' & rows & Hrun & _ & _ & _ & Hgrid & _).
  exists g, w', (painted cv). split; [assumption|]. split; [assumption|].
  intros r c. apply painted_shows.
Qed.

Example scene_view_of_world_scene : canvas_at (heap world_scene) 0%nat = Some scene_view.
Proof. vm_compute. reflexivity. Qed.

(** A 3 x 3 canvas with the single element [(z=0, cells=[(1,1,'X')])]
    renders as blanks except for the ['X'] in the middle. *)
Example render_single_cell :
  exists g w',
    (canvas <- Canvas.__init__ 3 3 ;;
     cells <- new_cell_list [Cell.mk 1 1 "X"] ;;
     element <- CanvasElement.__init__ 0 cells ;;
     Canvas.upsert canvas element ;;;
     Canvas.render canvas) initial_world = (Return g, w')
    /\ grid_at (heap w') g
       = Some [[" "; " "; " "]; [" "; "X"; " "]; [" "; " "; " "]].
Proof. eexists _, _. split; vm_compute; reflexivity. Qed.

(** ** The claims about [Canvas.render] *)

(** C10. [render()] does not mutate canvas state: the store after the call
    extends the store before it, so the canvas's rows, cols and element
    mapping, and every element's [z] and cell list, are as before (and nothing
    else of the world changes); the grid it returns, and each of its rows, is
    an object that did not exist before the call; a second call returns
    another grid, sharing no row with the first, and leaves the first grid as
    it was. *)
Theorem render_does_not_mutate (w : world) (self : loc) (cv : canvas_view) :
  canvas_at (heap w) self = Some cv ->
  exists g w' rows,
    Canvas.render self w = (Return g, w')
    /\ heap w `prefix_of` heap w'
    /\ w' = set_heap (heap w') w
    /\ canvas_at (heap w') self = Some cv
    /\ heap w !! g = None
    /\ heap w' !! g = Some (OList rows)
    /\ NoDup rows
    /\ (forall r, r ∈ rows -> heap w !! r = None)
    /\ exists g2 w'' rows2,
         Canvas.render self w' = (Return g2, w'')
         /\ g2 <> g
         /\ heap w'' !! g2 = Some (OList rows2)
         /\ (forall r, r ∈ rows2 -> r ∉ rows)
         /\ grid_at (heap w'') g = grid_at (heap w') g
         /\ canvas_at (heap w'') self = Some cv.
Proof.
  intros Hcv.
  destruct (render_frame w self cv Hcv)
    as (g & w' & rows & Hrun & Hpre & Hw' & Hcv' & Hgrid & Hg & Hg' & Hnd & Hrows).
  destruct (render_frame w' self cv Hcv')
    as (g2 & w'' & rows2 & Hrun2 & [new Hpre2] & _ & Hcv'' & _ & Hg2 & Hg2' & _ & Hrows2).
  exists g, w', rows. repeat (split; [assumption|]).
  exists g2, w'', rows2. repeat (split; [assumption|]).
  split; [congruence|]. split; [assumption|]. split; [|split; [|assumption]].
  - intros r Hr2 Hr. apply Hrows2 in Hr2.
    unfold grid_at in Hgrid. rewrite Hg' in Hgrid. apply mapM_Some in Hgrid.
    apply list_elem_of_lookup in Hr as [i Hi].
    destruct (Forall2_lookup_l _ _ _ _ _ Hgrid Hi) as (row & _ & Hrow).
    unfold row_at in Hrow. now rewrite Hr2 in Hrow.
  - rewrite Hpre2, Hgrid. now apply grid_at_app.
Qed.

Lemma render_does_not_mutate_witness :
  exists g w' rows,
    Canvas.render 0%nat world_scene = (Return g, w')
    /\ heap world_scene `prefix_of` heap w'
    /\ w' = set_heap (heap w') world_scene
    /\ canvas_at (heap w') 0%nat = Some scene_view
    /\ heap world_scene !! g = None
    /\ heap w' !! g = Some (OList rows)
    /\ NoDup rows
    /\ (forall r, r ∈ rows -> heap world_scene !! r = None)
    /\ exists g2 w'' rows2,
         Canvas.render 0%nat w' = (Return g2, w'')
         /\ g2 <> g
         /\ heap w'' !! g2 = Some (OList rows2)
         /\ (forall r, r ∈ rows2 -> r ∉ rows)
         /\ grid_at (heap w'') g = grid_at (heap w') g
         /\ canvas_at (heap w'') 0%nat = Some scene_view.
Proof.
  apply (render_does_not_mutate world_scene 0%nat scene_view).
  vm_compute. reflexivity.
Defined.

(** C4. For every canvas of [R] rows by [C] columns and whatever cells its
    elements contain, [render()] returns (no write fails) a grid of exactly
    [R] rows of exactly [C] columns each; every character of the grid is a
    blank or the character of a cell, at that very position, with
    [0 <= row < R] and [0 <= col < C]; and the grid is the one rendered from
    the same canvas without the cells outside of it: those are skipped. *)
Theorem render_dimensions_and_clipping (w : world) (self : loc) (cv : canvas_view) :
  canvas_at (heap w) self = Some cv ->
  exists g w' G,
    Canvas.render self w = (Return g, w')
    /\ grid_at (heap w') g = Some G
    /\ length G = Z.to_nat (cv_nrows cv)
    /\ Forall (fun row => length row = Z.to_nat (cv_ncols cv)) G
    /\ (forall (r c : nat) ch,
          char_at G r c = Some ch ->
          ch = " " \/
          exists e cell,
            e ∈ (cv_elements cv).*2 /\ cell ∈ ev_cells e
            /\ Cell.x cell = Z.of_nat r /\ Cell.y cell = Z.of_nat c
            /\ Cell.c cell = ch
            /\ 0 <= Cell.x cell < cv_nrows cv /\ 0 <= Cell.y cell < cv_ncols cv)
    /\ (forall w2 self2,
          canvas_at (heap w2) self2 = Some (clip cv) ->
          exists g2 w2',
            Canvas.render self2 w2 = (Return g2, w2')
            /\ grid_at (heap w2') g2 = Some G).
Proof.
  intros Hcv.
  destruct (render_frame w self cv Hcv) as (g & w' & rows & Hrun & _ & _ & _ & Hgrid & _).
  exists g, w', (painted cv). split; [assumption|]. split; [assumption|].
  destruct (painted_dims cv) as [Hlen Hrows].
  split; [assumption|]. split; [assumption|]. split; [apply painted_from_cells|].
  intros w2 self2 Hclip.
  destruct (render_frame w2 self2 _ Hclip) as (g2 & w2' & _ & Hrun2 & _ & _ & _ & Hgrid2 & _).
  exists g2, w2'. split; [assumption|]. now rewrite <- painted_clip.
Qed.

Lemma render_dimensions_and_clipping_witness :
  exists g w' G,
    Canvas.render 0%nat world_scene = (Return g, w')
    /\ grid_at (heap w') g = Some G
    /\ length G = 3%nat
    /\ Forall (fun row => length row = 4%nat) G
    /\ (forall (r c : nat) ch,
          char_at G r c = Some ch ->
          ch = " " \/
          exists e cell,
            e ∈ (cv_elements scene_view).*2 /\ cell ∈ ev_cells e
            /\ Cell.x cell = Z.of_nat r /\ Cell.y cell = Z.of_nat c
            /\ Cell.c cell = ch
            /\ 0 <= Cell.x cell < 3 /\ 0 <= Cell.y cell < 4)
    /\ (forall w2 self2,
          canvas_at (heap w2) self2 = Some (clip scene_view) ->
          exists g2 w2',
            Canvas.render self2 w2 = (Return g2, w2')
            /\ grid_at (heap w2') g2 = Some G).
Proof.
  apply (render_dimensions_and_clipping world_scene 0%nat scene_view).
  vm_compute. reflexivity.
Defined.

(** C3. On a canvas holding two elements that both have an in-bounds cell at
    position [(r, c)], the rendered grid shows at [(r, c)] the character of
    the element with the higher [z], whichever was inserted first; when the
    two [z] are equal it shows the character of the element inserted later
    (the sort is stable, so the later one is painted last). *)
Theorem render_overlap (w : world) (self : loc) (cv : canvas_view)
    (k1 k2 : string) (earlier later : element_view) (r c : Z) (ch1 ch2 : string) :
  canvas_at (heap w) self = Some cv ->
  cv_elements cv = [(k1, earlier); (k2, later)] ->
  0 <= r < cv_nrows cv ->
  0 <= c < cv_ncols cv ->
  top_char (ev_cells earlier) r c = Some ch1 ->
  top_char (ev_cells later) r c = Some ch2 ->
  exists g w' G,
    Canvas.render self w = (Return g, w')
    /\ grid_at (heap w') g = Some G
    /\ (ev_z earlier < ev_z later -> char_at G (Z.to_nat r) (Z.to_nat c) = Some ch2)
    /\ (ev_z later < ev_z earlier -> char_at G (Z.to_nat r) (Z.to_nat c) = Some ch1)
    /\ (ev_z earlier = ev_z later -> char_at G (Z.to_nat r) (Z.to_nat c) = Some ch2).
Proof.
  intros Hcv Helems Hr Hc H1 H2.
  destruct (render_frame w self cv Hcv) as (g & w' & rows & Hrun & _ & _ & _ & Hgrid & _).
  exists g, w', (painted cv). split; [assumption|]. split; [assumption|].
  rewrite (painted_shows cv r c Hr Hc). unfold by_z. rewrite Helems. simpl.
  assert (ev_z earlier <= ev_z later ->
          shown (if bool_decide (ev_z earlier <= ev_z later)
                 then [(ev_z earlier, earlier); (ev_z later, later)]
                 else [(ev_z later, later); (ev_z earlier, earlier)]).*2
            r c (Some " ") = Some ch2) as Hle.
  { intros Hz. rewrite bool_decide_eq_true_2 by assumption. simpl. now rewrite H2. }
  assert (ev_z later < ev_z earlier ->
          shown (if bool_decide (ev_z earlier <= ev_z later)
                 then [(ev_z earlier, earlier); (ev_z later, later)]
                 else [(ev_z later, later); (ev_z earlier, earlier)]).*2
            r c (Some " ") = Some ch1) as Hgt.
  { intros Hz. rewrite bool_decide_eq_false_2 by lia. simpl. now rewrite H1. }
  repeat split; intros; auto with lia.
Qed.

Lemma render_overlap_witness :
  exists g w' G,
    Canvas.render 0%nat world_scene = (Return g, w')
    /\ grid_at (heap w') g = Some G
    /\ (1 < 1 -> char_at G 1 1 = Some "b")
    /\ (1 < 1 -> char_at G 1 1 = Some "a")
    /\ (1 = 1 -> char_at G 1 1 = Some "b").
Proof.
  apply (render_overlap world_scene 0%nat scene_view "uuid-0" "uuid-1"
           (ElementView "uuid-0" 1
              [Cell.mk 1 1 "a"; Cell.mk 0 0 "x"; Cell.mk 7 1 "y"; Cell.mk 1 (-1) "z"])
           (ElementView "uuid-1" 1 [Cell.mk 1 1 "b"; Cell.mk 2 3 "w"])
           1 1 "a" "b");
    [vm_compute; reflexivity | reflexivity | simpl; lia | simpl; lia
    | vm_compute; reflexivity | vm_compute; reflexivity].
Defined.

(** ** The ornament decoration *)

Lemma set_attr_c_run w l v ch :
  heap w !! l = Some (OCell v) ->
  set_attr_c l ch w
  = (Return tt, set_heap (<[l := OCell (Cell.mk (Cell.x v) (Cell.y v) ch)]> (heap w)) w).
Proof. intros H. unfold set_attr_c. run_step. unfold store. now rewrite H. Qed.

Lemma drawn_in_range w (num_cell : Z) :
  2 <= num_cell -> 1 <= drawn w num_cell <= num_cell - 1.
Proof.
  intros H. unfold drawn.
  pose proof (Z.mod_pos_bound (rand_src w (rand_pos w)) (num_cell - 1 - 1 + 1) ltac:(lia)).
  lia.
Qed.

Lemma randint_run w (num_cell : Z) :
  2 <= num_cell ->
  randint 1 (num_cell - 1) w = (Return (drawn w num_cell), advance w).
Proof. intros H. unfold randint. now rewrite bool_decide_eq_false_2 by lia. Qed.

(** One turn of the retry loop: the cell drawn is retagged if it is a
    ['*'], else the loop goes on with the next draw. *)
Lemma retry_step self items cells w :
  cell_list_at (heap w) (XmasTree.cell_list self) items cells ->
  (2 <= length items)%nat ->
  exists (i : nat) l v,
    drawn w (Z.of_nat (length items)) = Z.of_nat i
    /\ (1 <= i < length items)%nat
    /\ items !! i = Some l
    /\ cells !! i = Some v
    /\ forall fuel,
         XmasTree.retry (S fuel) self (Z.of_nat (length items)) w
         = if bool_decide (Cell.c v = "*")
           then (Return tt, set_heap (<[l := OCell (retag v)]> (heap w)) (advance w))
           else XmasTree.retry fuel self (Z.of_nat (length items)) (advance w).
Proof.
  intros (Hcl & _ & Hcells) Hlen.
  pose proof (drawn_in_range w (Z.of_nat (length items)) ltac:(lia)) as Hdraw.
  assert (exists i : nat, drawn w (Z.of_nat (length items)) = Z.of_nat i) as [i Hi]
    by (exists (Z.to_nat (drawn w (Z.of_nat (length items)))); lia).
  destruct (lookup_lt_is_Some_2 items i ltac:(lia)) as [l Hl].
  destruct (Forall2_lookup_l _ _ _ _ _ Hcells Hl) as (v & Hv & Hlv).
  exists i, l, v. repeat (split; [first [assumption | lia]|]). intros fuel.
  change (XmasTree.retry (S fuel) self (Z.of_nat (length items)))
    with (i <- randint 1 (Z.of_nat (length items) - 1) ;;
          cell <- list_getitem (XmasTree.cell_list self) i ;;
          ch <- attr_c cell ;;
          if bool_decide (ch = "*") then
            cell <- list_getitem (XmasTree.cell_list self) i ;;
            set_attr_c cell "O"
          else XmasTree.retry fuel self (Z.of_nat (length items))).
  rewrite (bind_run _ _ _ _ _ (randint_run w (Z.of_nat (length items)) ltac:(lia))).
  assert (list_getitem (XmasTree.cell_list self) (drawn w (Z.of_nat (length items)))
            (advance w) = (Return l, advance w)) as Hget.
  { eapply list_getitem_run; [exact Hcl|lia|]. now rewrite Hi, Nat2Z.id. }
  rewrite (bind_run _ _ _ _ _ Hget).
  rewrite (bind_run _ _ _ _ _ (attr_c_run (advance w) l v Hlv)).
  case_bool_decide; [|reflexivity].
  rewrite (bind_run _ _ _ _ _ Hget).
  now rewrite (set_attr_c_run (advance w) l v "O" Hlv).
Qed.

(** With fewer than two cells there is no index to draw. *)
Lemma retry_empty_range fuel self (num_cell : Z) w :
  num_cell < 2 ->
  XmasTree.retry (S fuel) self num_cell w = (Raise ValueError, w).
Proof.
  intros H. simpl. apply bind_raise. unfold randint.
  now rewrite bool_decide_eq_true_2 by lia.
Qed.

(** *** Retagging one cell *)

Lemma cell_list_at_retag h cl items cells (i : nat) l v :
  cell_list_at h cl items cells ->
  items !! i = Some l -> cells !! i = Some v ->
  cell_list_at (<[l := OCell (retag v)]> h) cl items (<[i := retag v]> cells).
Proof.
  intros (Hcl & Hnd & Hcells) Hl Hv.
  assert (h !! l = Some (OCell v)) as Hlv.
  { destruct (Forall2_lookup_l _ _ _ _ _ Hcells Hl) as (v' & Hv' & ?). congruence. }
  split; [|split; [assumption|]].
  - rewrite list_lookup_insert_ne; [assumption|]. intros ->. congruence.
  - apply Forall2_same_length_lookup_2.
    + rewrite length_insert. eapply Forall2_length, Hcells.
    + intros j lj vj Hlj Hvj. destruct (decide (j = i)) as [->|Hji].
      * assert (lj = l) as -> by congruence.
        rewrite list_lookup_insert_eq in Hvj by (now apply lookup_lt_Some in Hv).
        rewrite list_lookup_insert_eq by (now apply lookup_lt_Some in Hlv).
        congruence.
      * rewrite list_lookup_insert_ne in Hvj by auto.
        rewrite list_lookup_insert_ne.
        -- exact (Forall2_lookup_lr _ _ _ _ _ _ Hcells Hlj Hvj).
        -- intros <-. apply Hji. eapply NoDup_lookup; eauto.
Qed.

Lemma star_count_retag cells (i : nat) v :
  cells !! i = Some v -> Cell.c v = "*" ->
  (star_count (<[i := retag v]> cells) + 1 = star_count cells)%nat.
Proof.
  intros Hv Hc. unfold star_count.
  rewrite insert_take_drop by (now apply lookup_lt_Some in Hv).
  rewrite <- (take_drop_middle cells i v Hv) at 3.
  rewrite !filter_app, !length_app, filter_cons_False by (simpl; discriminate).
  rewrite filter_cons_True by assumption. simpl. lia.
Qed.

(** *** One run of the retry loop *)

Lemma retry_outcome self items cells fuel w :
  cell_list_at (heap w) (XmasTree.cell_list self) items cells ->
  (2 <= length items)%nat ->
  (exists w', XmasTree.retry fuel self (Z.of_nat (length items)) w = (Diverge, w'))
  \/ (exists w' i,
        XmasTree.retry fuel self (Z.of_nat (length items)) w = (Return tt, w')
        /\ retagged_one items cells w w' i).
Proof.
  intros Hat Hlen. revert w Hat. induction fuel as [|fuel IH]; intros w Hat.
  - left. now exists w.
  - destruct (retry_step self items cells w Hat Hlen)
      as (i & l & v & _ & Hi & Hl & Hv & Hstep).
    rewrite Hstep. case_bool_decide as Hc.
    + right. eexists _, i. split; [reflexivity|].
      exists l, v. repeat split; auto with lia.
    + destruct (IH (advance w) Hat) as [[w' ->]|(w' & i' & -> & l' & v' & H)].
      * left. now exists w'.
      * right. exists w', i'. split; [reflexivity|]. exists l', v'. exact H.
Qed.

Lemma retry_more_fuel self items cells fuel fuel' w w' :
  cell_list_at (heap w) (XmasTree.cell_list self) items cells ->
  (2 <= length items)%nat ->
  (fuel <= fuel')%nat ->
  XmasTree.retry fuel self (Z.of_nat (length items)) w = (Return tt, w') ->
  XmasTree.retry fuel' self (Z.of_nat (length items)) w = (Return tt, w').
Proof.
  intros Hat Hlen. revert fuel' w Hat.
  induction fuel as [|fuel IH]; intros fuel' w Hat Hle; [discriminate|].
  destruct fuel' as [|fuel']; [lia|].
  destruct (retry_step self items cells w Hat Hlen) as (i & l & v & _ & _ & _ & _ & Hstep).
  rewrite !Hstep. case_bool_decide; [trivial|]. apply IH; [exact Hat|lia].
Qed.

(** If some coming draw hits a ['*'] cell, the loop finishes. *)
Lemma retry_hits self items cells (d : nat) :
  (2 <= length items)%nat ->
  forall w,
    cell_list_at (heap w) (XmasTree.cell_list self) items cells ->
    (exists (i : nat) v,
       1 + rand_src w (rand_pos w + d)%nat `mod` (Z.of_nat (length items) - 1 - 1 + 1)
       = Z.of_nat i
       /\ cells !! i = Some v /\ Cell.c v = "*") ->
    exists fuel w',
      XmasTree.retry fuel self (Z.of_nat (length items)) w = (Return tt, w').
Proof.
  intros Hlen. induction d as [|d IH]; intros w Hat (i & v & Hdraw & Hv & Hc);
    destruct (retry_step self items cells w Hat Hlen)
      as (i' & l' & v' & Hdraw' & _ & _ & Hv' & Hstep).
  - exists 1%nat. rewrite Hstep. unfold drawn in Hdraw'.
    rewrite Nat.add_0_r in Hdraw. assert (i' = i) as -> by lia.
    assert (v' = v) as -> by congruence.
    rewrite bool_decide_eq_true_2 by assumption. eauto.
  - destruct (decide (Cell.c v' = "*")) as [Hc'|Hc'].
    + exists 1%nat. rewrite Hstep, bool_decide_eq_true_2 by assumption. eauto.
    + destruct (IH (advance w) Hat) as (fuel & w' & Hrun).
      { exists i, v. simpl. rewrite Nat.add_succ_r in Hdraw. auto. }
      exists (S fuel), w'. now rewrite Hstep, bool_decide_eq_false_2 by assumption.
Qed.

(** *** The loop over the requested ornaments *)

Lemma same_channels_trans w1 w2 w3 :
  same_channels w1 w2 -> same_channels w2 w3 -> same_channels w1 w3.
Proof. unfold same_channels. intuition congruence. Qed.

Lemma ornaments_outcome self items fuel (l : list Z) :
  (2 <= length items)%nat ->
  forall cells w,
    cell_list_at (heap w) (XmasTree.cell_list self) items cells ->
    (exists w',
       for_each l (fun _ => XmasTree.retry fuel self (Z.of_nat (length items))) w
       = (Diverge, w'))
    \/ (exists w' S cells',
          for_each l (fun _ => XmasTree.retry fuel self (Z.of_nat (length items))) w
          = (Return tt, w')
          /\ cell_list_at (heap w') (XmasTree.cell_list self) items cells'
          /\ length S = length l
          /\ decorated items cells cells' w w' S).
Proof.
  intros Hlen. induction l as [|a l IH]; intros cells w Hat.
  - right. exists w, [], cells. split; [reflexivity|]. split; [assumption|].
    split; [reflexivity|]. unfold decorated. rewrite Nat.add_0_r.
    repeat split; auto using NoDup_nil_2;
      match goal with H : _ ∈ [] |- _ => now apply elem_of_nil in H end.
  - simpl.
    destruct (retry_outcome self items cells fuel w Hat Hlen)
      as [[w1 Hrun]|(w1 & i & Hrun & l0 & v & Hi & Hl0 & Hv & Hc & Hheap & Hch)].
    { left. exists w1. now apply bind_diverge. }
    rewrite (bind_run _ _ _ _ _ Hrun).
    pose proof (cell_list_at_retag _ _ _ _ _ _ _ Hat Hl0 Hv) as Hat1.
    rewrite <- Hheap in Hat1.
    destruct (IH _ _ Hat1)
      as [[w' Hrest]|(w' & S & cells' & Hrest & Hat' & HlenS &
                       HndS & HS & HnS & Hlen' & Hcount & Hheaplen & Hframe & Hch')].
    { left. now exists w'. }
    right. exists w', (i :: S), cells'. split; [assumption|]. split; [assumption|].
    split; [simpl; now rewrite HlenS|].
    assert (Hi_lt : (i < length cells)%nat) by (now apply lookup_lt_Some in Hv).
    assert (HiS : i ∉ S).
    { intros (_ & v1 & Hv1 & Hc1 & _)%HS.
      rewrite list_lookup_insert_eq in Hv1 by assumption.
      injection Hv1 as <-. discriminate. }
    refine (conj _ (conj _ (conj _ (conj _ (conj _ (conj _ (conj _ _))))))).
    + now constructor.
    + intros j [->|Hj]%elem_of_cons.
      * split; [assumption|]. exists v. repeat split; try assumption.
        rewrite (HnS _ HiS). now apply list_lookup_insert_eq.
      * destruct (HS _ Hj) as (Hj1 & vj & Hvj & Hcj & Hvj').
        split; [assumption|]. exists vj. repeat split; try assumption.
        rewrite list_lookup_insert_ne in Hvj; [assumption|]. now intros ->.
    + intros j Hj. apply not_elem_of_cons in Hj as [Hji HjS].
      rewrite (HnS _ HjS). now apply list_lookup_insert_ne.
    + now rewrite Hlen', length_insert.
    + pose proof (star_count_retag _ _ _ Hv Hc). simpl. lia.
    + now rewrite Hheaplen, Hheap, length_insert.
    + intros l1 Hl1. rewrite (Hframe _ Hl1), Hheap. apply list_lookup_insert_ne.
      intros <-. apply Hl1. eapply list_elem_of_lookup_2, Hl0.
    + eapply same_channels_trans; eassumption.
Qed.

Lemma ornaments_more_fuel self items fuel fuel' (l : list Z) :
  (2 <= length items)%nat -> (fuel <= fuel')%nat ->
  forall cells w w',
    cell_list_at (heap w) (XmasTree.cell_list self) items cells ->
    for_each l (fun _ => XmasTree.retry fuel self (Z.of_nat (length items))) w
    = (Return tt, w') ->
    for_each l (fun _ => XmasTree.retry fuel' self (Z.of_nat (length items))) w
    = (Return tt, w').
Proof.
  intros Hlen Hle. induction l as [|a l IH]; intros cells w w' Hat; [trivial|].
  simpl.
  destruct (retry_outcome self items cells fuel w Hat Hlen)
    as [[w1 Hrun]|(w1 & i & Hrun & l0 & v & Hi & Hl0 & Hv & Hc & Hheap & Hch)].
  { rewrite (bind_diverge _ _ _ _ Hrun). discriminate. }
  rewrite (bind_run _ _ _ _ _ Hrun).
  rewrite (bind_run _ _ _ _ _ (retry_more_fuel _ _ _ _ _ _ _ Hat Hlen Hle Hrun)).
  pose proof (cell_list_at_retag _ _ _ _ _ _ _ Hat Hl0 Hv) as Hat1.
  rewrite <- Hheap in Hat1. now apply (IH _ _ _ Hat1).
Qed.

Lemma star_count_pos cells :
  (1 <= star_count cells)%nat ->
  exists (i : nat) v, cells !! i = Some v /\ Cell.c v = "*".
Proof.
  unfold star_count. destruct (filter _ cells) as [|v tl] eqn:E; simpl; [lia|].
  intros _. assert (v ∈ filter (fun cell => Cell.c cell = "*") cells) as Hv
    by (rewrite E; left).
  apply list_elem_of_filter in Hv as [Hc [i Hi]%list_elem_of_lookup]. eauto.
Qed.

(** With a fair source, and as many ['*'] cells (none at index 0) as
    ornaments requested, the decoration loop finishes. *)
Lemma ornaments_terminate self items (l : list Z) :
  (2 <= length items)%nat ->
  forall cells w,
    cell_list_at (heap w) (XmasTree.cell_list self) items cells ->
    (forall v, cells !! 0%nat = Some v -> Cell.c v <> "*") ->
    (length l <= star_count cells)%nat ->
    fair_source (rand_src w) (Z.of_nat (length items)) ->
    exists fuel w',
      for_each l (fun _ => XmasTree.retry fuel self (Z.of_nat (length items))) w
      = (Return tt, w').
Proof.
  intros Hlen. induction l as [|a l IH]; intros cells w Hat Hhead Hcount Hfair.
  - exists 0%nat, w. reflexivity.
  - simpl in Hcount.
    destruct (star_count_pos cells ltac:(lia)) as (i & v & Hv & Hc).
    assert (i <> 0%nat) as Hi0 by (intros ->; now apply (Hhead v)).
    assert (length items = length cells) as Hsame
      by (destruct Hat as (_ & _ & H); eapply Forall2_length, H).
    apply lookup_lt_Some in Hv as Hi.
    destruct (Hfair (rand_pos w) (Z.of_nat i) ltac:(lia)) as (j & Hj & Hdraw).
    destruct (retry_hits self items cells (j - rand_pos w) Hlen w Hat) as (fuel1 & w1 & Hrun).
    { exists i, v. replace (rand_pos w + (j - rand_pos w))%nat with j by lia. auto. }
    destruct (retry_outcome self items cells fuel1 w Hat Hlen)
      as [[w1' Hrun']|(w1' & i' & Hrun' & l0 & v' & Hi' & Hl0 & Hv' & Hc' & Hheap & Hch)];
      rewrite Hrun in Hrun'; [discriminate|]. injection Hrun' as <-.
    pose proof (cell_list_at_retag _ _ _ _ _ _ _ Hat Hl0 Hv') as Hat1.
    rewrite <- Hheap in Hat1.
    destruct (IH _ _ Hat1) as (fuel2 & w' & Hrest).
    { intros v0. rewrite list_lookup_insert_ne by lia. apply Hhead. }
    { pose proof (star_count_retag _ _ _ Hv' Hc'). lia. }
    { destruct Hch as (_ & _ & _ & ->). exact Hfair. }
    assert (fuel1 <= fuel1 `max` fuel2)%nat as Hle1 by lia.
    assert (fuel2 <= fuel1 `max` fuel2)%nat as Hle2 by lia.
    exists (fuel1 `max` fuel2)%nat, w'. simpl.
    rewrite (bind_run _ _ _ _ _ (retry_more_fuel _ _ _ _ _ _ _ Hat Hlen Hle1 Hrun)).
    exact (ornaments_more_fuel _ _ _ _ _ Hlen Hle2 _ _ _ Hat1 Hrest).
Qed.

(** *** The cells of a tree *)

Lemma build_head start_row start_col height width :
  exists rest,
    XmasTree._build start_row start_col height width
    = Cell.mk start_row (start_col + width / 2) "✪" :: rest
    /\ Forall (fun cell => Cell.c cell = "*") rest.
Proof.
  unfold XmasTree._build. eexists. split; [reflexivity|].
  apply Forall_app. split; apply Forall_forall; intros cell Hcell;
    apply list_elem_of_bind in Hcell as (i & Hcell & _);
    apply list_elem_of_bind in Hcell as (j & ->%list_elem_of_singleton & _);
    reflexivity.
Qed.

Lemma build_star_count start_row start_col height width :
  let cells := XmasTree._build start_row start_col height width in
  (star_count cells + 1 = length cells)%nat
  /\ (forall v, cells !! 0%nat = Some v -> Cell.c v <> "*").
Proof.
  destruct (build_head start_row start_col height width) as (rest & -> & Hrest).
  simpl. split.
  - unfold star_count. rewrite filter_cons_False by (simpl; discriminate).
    rewrite filter_all by (now apply Forall_forall). simpl. lia.
  - intros v [= <-]. simpl. discriminate.
Qed.

Lemma build_length_ge start_row start_col height :
  2 <= height ->
  (2 <= length (XmasTree._build start_row start_col height (2 * height - 1)))%nat.
Proof.
  intros H. unfold XmasTree._build.
  assert (range 1 height = 1 :: range 2 height) as ->.
  { unfold range. rewrite seqZ_cons by lia. do 2 f_equal; lia. }
  rewrite bind_cons, !length_app, bind_singleton_fmap, length_fmap.
  unfold range at 1. rewrite length_seqZ. simpl. lia.
Qed.

Lemma build_length_small start_row start_col height :
  height <= 1 ->
  XmasTree._build start_row start_col height (2 * height - 1)
  = [Cell.mk start_row (start_col + (2 * height - 1) / 2) "✪"].
Proof.
  intros H. unfold XmasTree._build, range.
  pose proof (Z.div_mod height 4 ltac:(lia)).
  pose proof (Z.mod_pos_bound height 4 ltac:(lia)).
  rewrite (seqZ_nil 1) by lia. rewrite (seqZ_nil height) by lia. reflexivity.
Qed.

(** *** [_add_ornaments] *)

Lemma add_ornaments_run self items cells fuel (n : Z) w :
  cell_list_at (heap w) (XmasTree.cell_list self) items cells ->
  XmasTree._add_ornaments fuel self n w
  = for_each (range 0 n)
      (fun _ => XmasTree.retry fuel self (Z.of_nat (length items))) w.
Proof.
  intros (Hcl & _). unfold XmasTree._add_ornaments. now run_step.
Qed.

Lemma length_range_0 (n : Z) : length (range 0 n) = Z.to_nat n.
Proof. unfold range. rewrite length_seqZ. f_equal. lia. Qed.

(** Asked for more ornaments than there are ['*'] cells, the decoration of
    a list of two cells or more never finishes. *)
Lemma over_request_diverges self items cells (n : Z) fuel w :
  cell_list_at (heap w) (XmasTree.cell_list self) items cells ->
  (2 <= length items)%nat ->
  Z.of_nat (star_count cells) < n ->
  eval (XmasTree._add_ornaments fuel self n) w = Diverge.
Proof.
  intros Hat Hlen Hn. unfold eval. rewrite (add_ornaments_run _ _ _ _ _ _ Hat).
  destruct (ornaments_outcome self items fuel (range 0 n) Hlen cells w Hat)
    as [[w' ->]|(w' & S & cells' & _ & _ & HlenS & _ & _ & _ & _ & Hcount & _)];
    [reflexivity|].
  rewrite length_range_0 in HlenS. lia.
Qed.

(** With fewer than two cells, a request for one ornament or more fails on
    its first draw. *)
Lemma over_request_empty_range self items (n : Z) fuel w :
  heap w !! XmasTree.cell_list self = Some (OList items) ->
  (length items < 2)%nat ->
  1 <= n ->
  eval (XmasTree._add_ornaments (S fuel) self n) w = Raise ValueError.
Proof.
  intros Hcl Hlen Hn. unfold eval, XmasTree._add_ornaments. run_step.
  unfold range. rewrite seqZ_cons by lia.
  change (for_each (?a :: ?l) ?body) with (body a ;;; for_each l body).
  erewrite bind_raise; [reflexivity|]. apply retry_empty_range. lia.
Qed.

Lemma ornaments_sound self items cells fuel (l : list Z) w w' :
  cell_list_at (heap w) (XmasTree.cell_list self) items cells ->
  for_each l (fun _ => XmasTree.retry fuel self (Z.of_nat (length items))) w
  = (Return tt, w') ->
  exists S cells',
    cell_list_at (heap w') (XmasTree.cell_list self) items cells'
    /\ length S = length l
    /\ decorated items cells cells' w w' S.
Proof.
  intros Hat Hrun. destruct (decide (2 <= length items)%nat) as [Hlen|Hlen].
  - destruct (ornaments_outcome self items fuel l Hlen cells w Hat)
      as [[w1 Hdiv]|(w1 & S & cells' & Hret & H)]; rewrite Hrun in *; [discriminate|].
    injection Hret as <-. eauto.
  - destruct l as [|a l].
    + injection Hrun as <-. exists [], cells. split; [assumption|].
      split; [reflexivity|]. unfold decorated. rewrite Nat.add_0_r.
      repeat split; auto using NoDup_nil_2;
        match goal with H : _ ∈ [] |- _ => now apply elem_of_nil in H end.
    + simpl in Hrun. destruct fuel as [|fuel].
      * rewrite (bind_diverge _ _ _ w) in Hrun by reflexivity. discriminate.
      * erewrite bind_raise in Hrun by (apply retry_empty_range; lia). discriminate.
Qed.

Lemma add_ornaments_sound self items cells fuel (n : Z) w w' :
  cell_list_at (heap w) (XmasTree.cell_list self) items cells ->
  XmasTree._add_ornaments fuel self n w = (Return tt, w') ->
  exists S cells',
    cell_list_at (heap w') (XmasTree.cell_list self) items cells'
    /\ length S = Z.to_nat n
    /\ decorated items cells cells' w w' S.
Proof.
  intros Hat. rewrite (add_ornaments_run _ _ _ _ _ _ Hat). intros Hrun.
  destruct (ornaments_sound _ _ _ _ _ _ _ Hat Hrun) as (S & cells' & ? & HS & ?).
  rewrite length_range_0 in HS. eauto.
Qed.

Lemma add_ornaments_terminates self items cells (n : Z) w :
  cell_list_at (heap w) (XmasTree.cell_list self) items cells ->
  (forall v, cells !! 0%nat = Some v -> Cell.c v <> "*") ->
  (Z.to_nat n <= star_count cells)%nat ->
  fair_source (rand_src w) (Z.of_nat (length items)) ->
  exists fuel w', XmasTree._add_ornaments fuel self n w = (Return tt, w').
Proof.
  intros Hat Hhead Hn Hfair.
  destruct (decide (2 <= length items)%nat) as [Hlen|Hlen].
  - destruct (ornaments_terminate self items (range 0 n) Hlen cells w Hat Hhead)
      as (fuel & w' & Hrun); [now rewrite length_range_0|assumption|].
    exists fuel, w'. now rewrite (add_ornaments_run _ _ _ _ _ _ Hat).
  - assert (star_count cells = 0%nat) as Hzero.
    { assert (length items = length cells) as Hsame
        by (destruct Hat as (_ & _ & H); eapply Forall2_length, H).
      unfold star_count. destruct cells as [|v [|v' cells]]; [reflexivity| |simpl in *; lia].
      rewrite filter_cons_False; [reflexivity|]. now apply Hhead. }
    exists 0%nat, w. rewrite (add_ornaments_run _ _ _ _ _ _ Hat).
    unfold range. rewrite seqZ_nil by lia. reflexivity.
Qed.

Example fair_source_counter : fair_source (rand_src initial_world) 4.
Proof.
  intros k i Hi. exists (3 * k + Z.to_nat (i - 1))%nat. split; [lia|].
  unfold initial_world. cbn [rand_src].
  replace (4 - 1 - 1 + 1) with 3 by lia.
  replace (Z.of_nat (3 * k + Z.to_nat (i - 1))) with (i - 1 + Z.of_nat k * 3) by lia.
  rewrite Z_mod_plus_full, Z.mod_small by lia. lia.
Qed.

Example world_tree_cells :
  cell_list_at (heap world_tree) 4%nat [0; 1; 2; 3]%nat
    (XmasTree._build 0 0 2 (2 * 2 - 1)).
Proof.
  split; [reflexivity|]. split; [refine (bool_decide_unpack _ _); vm_compute; exact I|].
  vm_compute. repeat constructor.
Qed.

(** ** The claims about the decoration *)

(** C8 (as amended). When the requested ornament count [n] exceeds the
    number of leaf (['*']) cells of a tree of height 2 or more, the decoration
    step does not return to its caller, with a result or with an error:
    however many draws are followed, the retry loop is still running.  (On a
    tree of height 1 or less, which has the star only, the first draw raises
    [ValueError]: its range is empty.) *)
Theorem ornaments_over_request_never_returns (w : world)
    (start_row start_col height n : Z) (cl : loc) (items : list loc) :
  let cells := XmasTree._build start_row start_col height (2 * height - 1) in
  let self := XmasTree.mk start_row start_col height (2 * height - 1) cl in
  cell_list_at (heap w) cl items cells ->
  Z.of_nat (star_count cells) < n ->
  (2 <= height ->
   forall fuel, eval (XmasTree._add_ornaments fuel self n) w = Diverge)
  /\ (height <= 1 ->
      forall fuel, eval (XmasTree._add_ornaments (S fuel) self n) w = Raise ValueError).
Proof.
  intros cells self Hat Hn.
  assert (length items = length cells) as Hsame
    by (destruct Hat as (_ & _ & H); eapply Forall2_length, H).
  split; intros Hh fuel.
  - apply (over_request_diverges self items cells); [assumption| |assumption].
    rewrite Hsame. now apply build_length_ge.
  - apply (over_request_empty_range self items).
    + apply Hat.
    + rewrite Hsame. unfold cells. rewrite build_length_small by assumption. simpl. lia.
    + lia.
Qed.

Lemma ornaments_over_request_never_returns_witness :
  (2 <= 2 ->
   forall fuel, eval (XmasTree._add_ornaments fuel small_tree 9) world_tree = Diverge)
  /\ (2 <= 1 ->
      forall fuel,
        eval (XmasTree._add_ornaments (S fuel) small_tree 9) world_tree = Raise ValueError).
Proof.
  apply (ornaments_over_request_never_returns world_tree 0 0 2 9 4%nat [0; 1; 2; 3]%nat).
  - split; [reflexivity|]. split; [refine (bool_decide_unpack _ _); vm_compute; exact I|].
    vm_compute. repeat constructor.
  - vm_compute. reflexivity.
Defined.

(** C8, as stated, fails: asked for 9 ornaments, the decoration of a tree of
    height 2 (three leaf cells) hands its caller no error and no result,
    whatever number of draws is followed. *)
Lemma ornaments_over_request_loops :
  ~ exists fuel,
      eval (XmasTree._add_ornaments fuel small_tree 9) world_tree <> Diverge.
Proof.
  intros [fuel H]. apply H.
  apply (over_request_diverges small_tree [0; 1; 2; 3]%nat
           (XmasTree._build 0 0 2 (2 * 2 - 1))).
  - apply world_tree_cells.
  - simpl. lia.
  - vm_compute. reflexivity.
Qed.

(** C9. On a tree with at least [n] leaf cells, a decoration pass that
    finishes leaves the cell list with the same cell objects, so the same
    cell count, every cell at its [(row, col)] position, exactly [n] cells
    retagged from ['*'] to ['O'] and every other cell, and every other object
    of the store, as it was; and with a random source that draws every index
    again and again the pass does finish. *)
Theorem ornaments_retag_only_leaves (w : world)
    (start_row start_col height n : Z) (cl : loc) (items : list loc) :
  let cells := XmasTree._build start_row start_col height (2 * height - 1) in
  let self := XmasTree.mk start_row start_col height (2 * height - 1) cl in
  cell_list_at (heap w) cl items cells ->
  0 <= n <= Z.of_nat (star_count cells) ->
  (forall fuel w',
     XmasTree._add_ornaments fuel self n w = (Return tt, w') ->
     exists cells' S,
       cell_list_at (heap w') cl items cells'
       /\ length cells' = length cells
       /\ Forall2 (fun v v' => Cell.x v' = Cell.x v /\ Cell.y v' = Cell.y v) cells cells'
       /\ NoDup S
       /\ Z.of_nat (length S) = n
       /\ (forall i, i ∈ S ->
             exists v, cells !! i = Some v /\ Cell.c v = "*"
                       /\ cells' !! i = Some (retag v))
       /\ (forall i, i ∉ S -> cells' !! i = cells !! i)
       /\ (forall l, l ∉ items -> heap w' !! l = heap w !! l))
  /\ (fair_source (rand_src w) (Z.of_nat (length cells)) ->
      exists fuel w', XmasTree._add_ornaments fuel self n w = (Return tt, w')).
Proof.
  intros cells self Hat Hn.
  assert (length items = length cells) as Hsame
    by (destruct Hat as (_ & _ & H); eapply Forall2_length, H).
  split.
  - intros fuel w' Hrun.
    destruct (add_ornaments_sound self items cells fuel n w w' Hat Hrun)
      as (S & cells' & Hat' & HlenS & Hnd & HS & HnS & Hlen' & _ & _ & Hframe & _).
    exists cells', S. repeat (split; [first [assumption | lia]|]).
    split; [|split; [assumption|]; split; [lia|]; split; [|split ; assumption]].
    + apply Forall2_same_length_lookup_2; [now symmetry|].
      intros i v v' Hv Hv'. destruct (decide (i ∈ S)) as [Hi|Hi].
      * destruct (HS _ Hi) as (_ & v0 & Hv0 & _ & Hv0').
        assert (v0 = v) as -> by congruence.
        assert (v' = retag v) as -> by congruence. now split.
      * rewrite (HnS _ Hi) in Hv'. assert (v' = v) as -> by congruence. now split.
    + intros i Hi. destruct (HS _ Hi) as (_ & v & H). now exists v.
  - intros Hfair.
    destruct (build_star_count start_row start_col height (2 * height - 1)) as [_ Hhead].
    apply (add_ornaments_terminates self items cells); try assumption; [lia|].
    now rewrite Hsame.
Qed.

Lemma ornaments_retag_only_leaves_witness :
  let cells := XmasTree._build 0 0 2 (2 * 2 - 1) in
  (forall fuel w',
     XmasTree._add_ornaments fuel small_tree 2 world_tree = (Return tt, w') ->
     exists cells' S,
       cell_list_at (heap w') 4%nat [0; 1; 2; 3]%nat cells'
       /\ length cells' = length cells
       /\ Forall2 (fun v v' => Cell.x v' = Cell.x v /\ Cell.y v' = Cell.y v) cells cells'
       /\ NoDup S
       /\ Z.of_nat (length S) = 2
       /\ (forall i, i ∈ S ->
             exists v, cells !! i = Some v /\ Cell.c v = "*"
                       /\ cells' !! i = Some (retag v))
       /\ (forall i, i ∉ S -> cells' !! i = cells !! i)
       /\ (forall l, l ∉ [0; 1; 2; 3]%nat -> heap w' !! l = heap world_tree !! l))
  /\ (fair_source (rand_src world_tree) (Z.of_nat (length cells)) ->
      exists fuel w',
        XmasTree._add_ornaments fuel small_tree 2 world_tree = (Return tt, w')).
Proof.
  apply (ornaments_retag_only_leaves world_tree 0 0 2 2 4%nat [0; 1; 2; 3]%nat).
  - split; [reflexivity|]. split; [refine (bool_decide_unpack _ _); vm_compute; exact I|].
    vm_compute. repeat constructor.
  - vm_compute. split; discriminate.
Defined.

(** The decoration of the sample tree, run: two draws retag the leaves at
    indices 1 and 2. *)
Example ornaments_on_world_tree :
  exists w',
    XmasTree._add_ornaments 1 small_tree 2 world_tree = (Return tt, w')
    /\ cells_at (heap w') 4%nat
       = Some [Cell.mk 0 1 "✪"; Cell.mk 1 0 "O"; Cell.mk 1 1 "O"; Cell.mk 1 2 "*"].
Proof. eexists. split; vm_compute; reflexivity. Qed.

(** * Further properties of the code *)

(** ** Dicts *)

Lemma dict_get_cons {V} (k k' : string) (v : V) d :
  dict_get k ((k', v) :: d) = if bool_decide (k' = k) then Some v else dict_get k d.
Proof. reflexivity. Qed.

Lemma dict_setitem_cons {V} (k k' : string) (v v' : V) d :
  dict_setitem k v ((k', v') :: d)
  = if bool_decide (k' = k) then (k, v) :: d else (k', v') :: dict_setitem k v d.
Proof. reflexivity. Qed.

Lemma dict_get_setitem_eq {V} (k : string) (v : V) d :
  dict_get k (dict_setitem k v d) = Some v.
Proof.
  induction d as [|[k' v'] d IH].
  - cbn [dict_setitem]. now rewrite dict_get_cons, bool_decide_eq_true_2.
  - rewrite dict_setitem_cons. case_bool_decide as E; rewrite dict_get_cons.
    + now rewrite bool_decide_eq_true_2.
    + now rewrite bool_decide_eq_false_2.
Qed.

Lemma dict_get_setitem_ne {V} (k k0 : string) (v : V) d :
  k0 <> k -> dict_get k0 (dict_setitem k v d) = dict_get k0 d.
Proof.
  intros Hne. induction d as [|[k' v'] d IH].
  - cbn [dict_setitem]. now rewrite dict_get_cons, bool_decide_eq_false_2 by auto.
  - rewrite dict_setitem_cons. case_bool_decide as E; rewrite !dict_get_cons.
    + subst k'. now rewrite !bool_decide_eq_false_2 by auto.
    + now rewrite IH.
Qed.

Lemma dict_get_None {V} (k : string) (d : list (string * V)) :
  dict_get k d = None <-> k ∉ d.*1.
Proof.
  induction d as [|[k' v'] d IH].
  - split; [intros _; apply not_elem_of_nil|trivial].
  - rewrite dict_get_cons, fmap_cons, not_elem_of_cons. cbn [fst].
    case_bool_decide as E.
    + split; [discriminate|]. intros [? _]. congruence.
    + rewrite IH. split; [intros ?; split; auto|now intros [_ ?]].
Qed.

Lemma dict_setitem_keys {V} (k : string) (v : V) d :
  (dict_setitem k v d).*1 = if bool_decide (k ∈ d.*1) then d.*1 else (d.*1 ++ [k])%list.
Proof.
  induction d as [|[k' v'] d IH].
  - cbn [dict_setitem]. now rewrite bool_decide_eq_false_2 by apply not_elem_of_nil.
  - rewrite dict_setitem_cons, (fmap_cons fst (k', v') d). cbn [fst].
    destruct (decide (k' = k)) as [E|E].
    + subst k'. rewrite (bool_decide_eq_true_2 (k = k)) by reflexivity.
      rewrite bool_decide_eq_true_2 by left. reflexivity.
    + rewrite (bool_decide_eq_false_2 (k' = k)) by assumption.
      rewrite fmap_cons, IH. cbn [fst]. destruct (decide (k ∈ d.*1)) as [Hin|Hin].
      * rewrite !bool_decide_eq_true_2; [reflexivity|now right|assumption].
      * rewrite !bool_decide_eq_false_2; [reflexivity| |assumption].
        rewrite not_elem_of_cons. auto.
Qed.

(** ** [Canvas.upsert] and [Canvas.get_element] *)

Lemma store_run w l o o' :
  heap w !! l = Some o' ->
  store l o w = (Return tt, set_heap (<[l := o]> (heap w)) w).
Proof. intros H. unfold store. now rewrite H. Qed.

Lemma upsert_run w self canvas_element nrows ncols elements id z cl :
  heap w !! self = Some (OCanvas nrows ncols elements) ->
  heap w !! canvas_element = Some (OElement id z cl) ->
  Canvas.upsert self canvas_element w
  = (Return tt,
     set_heap (<[self := OCanvas nrows ncols (dict_setitem id canvas_element elements)]>
                 (heap w)) w).
Proof.
  intros Hself Hel. unfold Canvas.upsert. do 2 run_step.
  unfold Canvas.set_elements. run_step. now apply store_run with (o' := OCanvas nrows ncols elements).
Qed.

Lemma get_element_run w self nrows ncols elements name :
  heap w !! self = Some (OCanvas nrows ncols elements) ->
  Canvas.get_element self name w = (Return (dict_get name elements), w).
Proof. intros Hself. unfold Canvas.get_element. now run_step. Qed.

(** X1. After [upsert(e)], [get_element(e.id)] returns [e]; every other name
    gives what it gave before; the canvas keeps its size, and no object other
    than the canvas changes. *)
Theorem upsert_then_get_element (w : world) (self canvas_element : loc)
    nrows ncols elements id z cl :
  heap w !! self = Some (OCanvas nrows ncols elements) ->
  heap w !! canvas_element = Some (OElement id z cl) ->
  exists w' elements',
    Canvas.upsert self canvas_element w = (Return tt, w')
    /\ heap w' !! self = Some (OCanvas nrows ncols elements')
    /\ eval (Canvas.get_element self id) w' = Return (Some canvas_element)
    /\ (forall name, name <> id ->
          eval (Canvas.get_element self name) w' = eval (Canvas.get_element self name) w)
    /\ (forall l, l <> self -> heap w' !! l = heap w !! l)
    /\ w' = set_heap (heap w') w.
Proof.
  intros Hself Hel. eexists _, _. split; [eapply upsert_run; eassumption|].
  assert (self < length (heap w))%nat as Hlt by (now apply lookup_lt_Some in Hself).
  simpl. split; [now apply list_lookup_insert_eq|].
  assert (forall name,
            eval (Canvas.get_element self name)
              (set_heap (<[self := OCanvas nrows ncols
                                     (dict_setitem id canvas_element elements)]>
                           (heap w)) w)
            = Return (dict_get name (dict_setitem id canvas_element elements))) as Hget.
  { intros name. unfold eval. erewrite get_element_run; [reflexivity|].
    simpl. now apply list_lookup_insert_eq. }
  split; [now rewrite Hget, dict_get_setitem_eq|].
  split.
  { intros name Hne. rewrite Hget, dict_get_setitem_ne by assumption.
    unfold eval. now erewrite get_element_run by eassumption. }
  split; [|reflexivity].
  intros l Hl. now apply list_lookup_insert_ne.
Qed.

Lemma upsert_then_get_element_witness :
  exists w' elements',
    Canvas.upsert 0%nat 6%nat world_one_registered = (Return tt, w')
    /\ heap w' !! 0%nat = Some (OCanvas 2 2 elements')
    /\ eval (Canvas.get_element 0%nat "uuid-1") w' = Return (Some 6%nat)
    /\ (forall name, name <> "uuid-1" ->
          eval (Canvas.get_element 0%nat name) w'
          = eval (Canvas.get_element 0%nat name) world_one_registered)
    /\ (forall l, l <> 0%nat -> heap w' !! l = heap world_one_registered !! l)
    /\ w' = set_heap (heap w') world_one_registered.
Proof.
  apply (upsert_then_get_element world_one_registered 0%nat 6%nat 2 2
           [("uuid-0", 3%nat)] "uuid-1" 2 5%nat); vm_compute; reflexivity.
Defined.

(** X2. [upsert] never duplicates an id: if every id of the mapping occurs
    once before the call, so it does afterwards; an id already present keeps
    its place in the insertion order (the entry is replaced), a new id goes
    last. *)
Theorem upsert_keeps_ids_unique (w : world) (self canvas_element : loc)
    nrows ncols elements id z cl :
  heap w !! self = Some (OCanvas nrows ncols elements) ->
  heap w !! canvas_element = Some (OElement id z cl) ->
  NoDup elements.*1 ->
  exists elements',
    heap (exec (Canvas.upsert self canvas_element) w) !! self
    = Some (OCanvas nrows ncols elements')
    /\ NoDup elements'.*1
    /\ (id ∈ elements.*1 -> elements'.*1 = elements.*1)
    /\ (id ∉ elements.*1 -> elements'.*1 = (elements.*1 ++ [id])%list).
Proof.
  intros Hself Hel Hnd. exists (dict_setitem id canvas_element elements).
  unfold exec. rewrite (upsert_run _ _ _ _ _ _ _ _ _ Hself Hel). simpl.
  split; [apply list_lookup_insert_eq; now apply lookup_lt_Some in Hself|].
  rewrite dict_setitem_keys. case_bool_decide as Hin.
  - repeat split; auto. now intros.
  - repeat split; auto; [|now intros].
    apply NoDup_app. repeat split; [assumption| |apply NoDup_singleton].
    intros k Hk ->%list_elem_of_singleton. contradiction.
Qed.

Lemma upsert_keeps_ids_unique_witness :
  exists elements',
    heap (exec (Canvas.upsert 0%nat 6%nat) world_one_registered) !! 0%nat
    = Some (OCanvas 2 2 elements')
    /\ NoDup elements'.*1
    /\ ("uuid-1" ∈ [("uuid-0", 3%nat)].*1 -> elements'.*1 = [("uuid-0", 3%nat)].*1)
    /\ ("uuid-1" ∉ [("uuid-0", 3%nat)].*1 ->
        elements'.*1 = ([("uuid-0", 3%nat)].*1 ++ ["uuid-1"])%list).
Proof.
  apply (upsert_keeps_ids_unique world_one_registered 0%nat 6%nat 2 2
           [("uuid-0", 3%nat)] "uuid-1" 2 5%nat).
  - vm_compute. reflexivity.
  - vm_compute. reflexivity.
  - refine (bool_decide_unpack _ _). vm_compute. exact I.
Defined.

Lemma last_with_id_cons e id entries name :
  last_with_id ((e, id) :: entries) name
  = match last_with_id entries name with
    | Some e' => Some e'
    | None => if bool_decide (id = name) then Some e else None
    end.
Proof.
  unfold last_with_id. rewrite filter_cons. cbn [snd].
  destruct (decide (id = name)) as [E|E].
  - rewrite (bool_decide_eq_true_2 _ E), last_cons. now destruct (last _).
  - rewrite (bool_decide_eq_false_2 _ E). now destruct (last _).
Qed.

Lemma upserts_run self nrows ncols (es : list loc) :
  forall (ids : list string) w elements,
    heap w !! self = Some (OCanvas nrows ncols elements) ->
    Forall2 (fun e id => exists z cl, heap w !! e = Some (OElement id z cl)) es ids ->
    exists w' elements',
      for_each es (Canvas.upsert self) w = (Return tt, w')
      /\ heap w' !! self = Some (OCanvas nrows ncols elements')
      /\ (forall l, l <> self -> heap w' !! l = heap w !! l)
      /\ w' = set_heap (heap w') w
      /\ forall name,
           dict_get name elements'
           = match last_with_id (zip es ids) name with
             | Some e => Some e
             | None => dict_get name elements
             end.
Proof.
  induction es as [|e es IH]; intros ids w elements Hself Hes.
  - exists w, elements. apply Forall2_nil_inv_l in Hes as ->.
    repeat split; auto. now rewrite set_heap_same.
  - apply Forall2_cons_inv_l in Hes as (id & ids' & (z & cl & He) & Hes & ->).
    cbn [for_each]. rewrite (bind_run _ _ _ _ _ (upsert_run _ _ _ _ _ _ _ _ _ Hself He)).
    set (w1 := set_heap _ w).
    assert (self < length (heap w))%nat as Hlt by (now apply lookup_lt_Some in Hself).
    assert (forall l, l <> self -> heap w1 !! l = heap w !! l) as Hframe1
      by (intros l Hl; now apply list_lookup_insert_ne).
    destruct (IH ids' w1 (dict_setitem id e elements))
      as (w' & elements' & Hrun & Hself' & Hframe & Hw' & Hget).
    { now apply list_lookup_insert_eq. }
    { eapply Forall2_impl; [exact Hes|]. intros e' id' (z' & cl' & He').
      exists z', cl'. rewrite Hframe1; [assumption|]. intros ->. congruence. }
    exists w', elements'. split; [assumption|]. split; [assumption|].
    split; [intros l Hl; now rewrite Hframe, Hframe1|].
    split; [now rewrite Hw'|].
    intros name. rewrite Hget. cbn [zip zip_with]. rewrite last_with_id_cons.
    destruct (last_with_id (zip es ids') name); [reflexivity|].
    case_bool_decide as E.
    + subst. apply dict_get_setitem_eq.
    + apply dict_get_setitem_ne. auto.
Qed.

(** X3. After a series of [upsert] calls, [get_element(name)] returns the
    element upserted last under the id [name], and for an id none of them has
    what the mapping held before the series: nothing ([None]) on a new
    canvas. *)
Theorem get_element_after_upserts (w : world) (self : loc) nrows ncols elements
    (es : list loc) (ids : list string) :
  heap w !! self = Some (OCanvas nrows ncols elements) ->
  Forall2 (fun e id => exists z cl, heap w !! e = Some (OElement id z cl)) es ids ->
  exists w',
    for_each es (Canvas.upsert self) w = (Return tt, w')
    /\ forall name,
         eval (Canvas.get_element self name) w'
         = Return (match last_with_id (zip es ids) name with
                   | Some e => Some e
                   | None => dict_get name elements
                   end).
Proof.
  intros Hself Hes.
  destruct (upserts_run self nrows ncols es ids w elements Hself Hes)
    as (w' & elements' & Hrun & Hself' & _ & _ & Hget).
  exists w'. split; [assumption|]. intros name.
  unfold eval. rewrite (get_element_run _ _ _ _ _ _ Hself'). simpl. now rewrite Hget.
Qed.

Lemma get_element_after_upserts_witness :
  exists w',
    for_each [3; 6; 9; 6]%nat (Canvas.upsert 0%nat) world_three_elements = (Return tt, w')
    /\ forall name,
         eval (Canvas.get_element 0%nat name) w'
         = Return (match last_with_id
                           (zip [3; 6; 9; 6]%nat ["uuid-0"; "uuid-1"; "uuid-2"; "uuid-1"])
                           name with
                   | Some e => Some e
                   | None => dict_get name []
                   end).
Proof.
  apply (get_element_after_upserts world_three_elements 0%nat 2 3 []
           [3; 6; 9; 6]%nat ["uuid-0"; "uuid-1"; "uuid-2"; "uuid-1"]).
  - vm_compute. reflexivity.
  - repeat constructor; eexists _, _; vm_compute; reflexivity.
Defined.

(** ** [Cell.in_bounds] *)

(** X4. [Cell.in_bounds(cell, nrows, ncols)] returns [True] exactly when
    [0 <= cell.x < nrows] and [0 <= cell.y < ncols], [False] otherwise; it
    raises nothing and changes nothing. *)
Theorem in_bounds_iff (w : world) (cell : loc) (v : Cell.t) (nrows ncols : Z) :
  heap w !! cell = Some (OCell v) ->
  exists b,
    CellOps.in_bounds cell nrows ncols w = (Return b, w)
    /\ (b = true <-> 0 <= Cell.x v < nrows /\ 0 <= Cell.y v < ncols).
Proof.
  intros H. exists (cell_in_bounds v nrows ncols).
  split; [now apply in_bounds_run|]. unfold cell_in_bounds.
  split; [apply bool_decide_eq_true_1|apply bool_decide_eq_true_2].
Qed.

Lemma in_bounds_iff_witness :
  exists b,
    CellOps.in_bounds 2%nat 3 4 world_scene = (Return b, world_scene)
    /\ (b = true <-> 0 <= 0 < 3 /\ 0 <= 0 < 4).
Proof.
  apply (in_bounds_iff world_scene 2%nat (Cell.mk 0 0 "x") 3 4).
  vm_compute. reflexivity.
Defined.

(** ** More on [Canvas.render] *)

(** X5. A canvas without elements renders as blanks only: [nrows] rows of
    [ncols] blanks (no row at all when [nrows <= 0]). *)
Theorem render_no_elements (w : world) (self : loc) (cv : canvas_view) :
  canvas_at (heap w) self = Some cv ->
  cv_elements cv = [] ->
  exists g w',
    Canvas.render self w = (Return g, w')
    /\ grid_at (heap w') g
       = Some (replicate (Z.to_nat (cv_nrows cv)) (replicate (Z.to_nat (cv_ncols cv)) " ")).
Proof.
  intros Hcv Hnil.
  destruct (render_frame w self cv Hcv) as (g & w' & _ & Hrun & _ & _ & _ & Hgrid & _).
  exists g, w'. split; [assumption|]. rewrite Hgrid. unfold painted.
  now rewrite Hnil.
Qed.

Lemma render_no_elements_witness :
  exists g w',
    Canvas.render 0%nat world_unregistered = (Return g, w')
    /\ grid_at (heap w') g = Some (replicate 3 (replicate 3 " ")).
Proof.
  apply (render_no_elements world_unregistered 0%nat (CanvasView 3 3 []));
    vm_compute; reflexivity.
Defined.

(** *** The order of insertion *)

Lemma insert_by_key_Permutation {A} (p : Z * A) l : insert_by_key p l ≡ₚ p :: l.
Proof.
  induction l as [|q l IH]; [reflexivity|]. cbn [insert_by_key].
  case_bool_decide; [reflexivity|]. rewrite IH. apply Permutation_swap.
Qed.

Lemma sort_by_key_Permutation {A} (l : list (Z * A)) : sort_by_key l ≡ₚ l.
Proof.
  induction l as [|p l IH]; [reflexivity|]. cbn [sort_by_key].
  now rewrite insert_by_key_Permutation, IH.
Qed.

Lemma insert_by_key_sorted {A} (p : Z * A) l :
  StronglySorted (fun p q => fst p <= fst q) l ->
  StronglySorted (fun p q => fst p <= fst q) (insert_by_key p l).
Proof.
  induction 1 as [|q l Hl IH Hq]; cbn [insert_by_key].
  - repeat constructor.
  - case_bool_decide as E.
    + constructor; [now constructor|]. constructor; [assumption|].
      eapply Forall_impl; [exact Hq|]. intros r Hr. simpl in *. lia.
    + constructor; [assumption|].
      rewrite (insert_by_key_Permutation p l). constructor; [simpl; lia|assumption].
Qed.

Lemma sort_by_key_sorted {A} (l : list (Z * A)) :
  StronglySorted (fun p q => fst p <= fst q) (sort_by_key l).
Proof.
  induction l as [|p l IH]; cbn [sort_by_key]; [constructor|].
  now apply insert_by_key_sorted.
Qed.

Lemma sorted_distinct_keys {A} (l : list (Z * A)) :
  StronglySorted (fun p q => fst p <= fst q) l -> NoDup l.*1 ->
  StronglySorted (fun p q => fst p < fst q) l.
Proof.
  induction 1 as [|q l Hl IH Hq]; intros Hnd; [constructor|].
  rewrite fmap_cons in Hnd. apply NoDup_cons in Hnd as [Hnotin Hnd].
  constructor; [now apply IH|].
  apply Forall_forall. intros r Hr.
  assert (fst q <= fst r) by (eapply Forall_forall in Hq; eauto).
  assert (fst q <> fst r).
  { intros E. apply Hnotin. rewrite E. now apply list_elem_of_fmap_2. }
  lia.
Qed.

(** With keys that all differ, sorting forgets the order of its input. *)
Lemma sort_by_key_order_irrelevant {A} (l k : list (Z * A)) :
  l ≡ₚ k -> NoDup l.*1 -> sort_by_key l = sort_by_key k.
Proof.
  intros Hperm Hnd.
  apply (StronglySorted_unique_strong (fun p q => fst p < fst q)).
  - intros p q _ _ ? ?. lia.
  - apply sorted_distinct_keys; [apply sort_by_key_sorted|].
    now rewrite sort_by_key_Permutation.
  - apply sorted_distinct_keys; [apply sort_by_key_sorted|].
    now rewrite sort_by_key_Permutation, <- Hperm.
  - now rewrite !sort_by_key_Permutation.
Qed.

(** X6. When the [z] of the elements all differ, the rendered grid does not
    depend on the order in which the elements were put on the canvas: two
    canvases of the same size holding the same elements render alike. *)
Theorem render_insertion_order_irrelevant (w1 w2 : world) (self1 self2 : loc)
    (cv1 cv2 : canvas_view) :
  canvas_at (heap w1) self1 = Some cv1 ->
  canvas_at (heap w2) self2 = Some cv2 ->
  cv_nrows cv1 = cv_nrows cv2 ->
  cv_ncols cv1 = cv_ncols cv2 ->
  (cv_elements cv1).*2 ≡ₚ (cv_elements cv2).*2 ->
  NoDup (ev_z <$> (cv_elements cv1).*2) ->
  exists g1 w1' g2 w2' G,
    Canvas.render self1 w1 = (Return g1, w1')
    /\ Canvas.render self2 w2 = (Return g2, w2')
    /\ grid_at (heap w1') g1 = Some G
    /\ grid_at (heap w2') g2 = Some G.
Proof.
  intros Hcv1 Hcv2 Hrows Hcols Hperm Hnd.
  destruct (render_frame w1 self1 cv1 Hcv1) as (g1 & w1' & _ & Hrun1 & _ & _ & _ & Hg1 & _).
  destruct (render_frame w2 self2 cv2 Hcv2) as (g2 & w2' & _ & Hrun2 & _ & _ & _ & Hg2 & _).
  exists g1, w1', g2, w2', (painted cv1). repeat (split; [assumption|]).
  rewrite Hg2. f_equal. unfold painted. rewrite Hrows, Hcols, !by_z_values.
  f_equal. f_equal. symmetry. apply sort_by_key_order_irrelevant.
  - now rewrite Hperm.
  - now rewrite <- list_fmap_compose.
Qed.

Lemma render_insertion_order_irrelevant_witness :
  exists g1 w1' g2 w2' G,
    Canvas.render 0%nat world_abc = (Return g1, w1')
    /\ Canvas.render 0%nat world_cba = (Return g2, w2')
    /\ grid_at (heap w1') g1 = Some G
    /\ grid_at (heap w2') g2 = Some G.
Proof.
  apply (render_insertion_order_irrelevant world_abc world_cba 0%nat 0%nat
           view_abc view_cba).
  - vm_compute. reflexivity.
  - vm_compute. reflexivity.
  - reflexivity.
  - reflexivity.
  - vm_compute. etransitivity; [apply perm_swap|].
    etransitivity; [apply perm_skip, perm_swap|]. apply perm_swap.
  - refine (bool_decide_unpack _ _). vm_compute. exact I.
Defined.

(** ** More on [CanvasElement.merge] *)

Lemma element_init_run w z cl :
  CanvasElement.__init__ z cl w
  = (Return (length (heap w)),
     set_heap (heap w ++ [OElement (uuid_src w (uuid_pos w)) z cl]) (next_uuid w)).
Proof. reflexivity. Qed.

Lemma merge_run w a b ida za cla idb zb clb ia ib :
  heap w !! a = Some (OElement ida za cla) ->
  heap w !! cla = Some (OList ia) ->
  heap w !! b = Some (OElement idb zb clb) ->
  heap w !! clb = Some (OList ib) ->
  CanvasElement.merge a b w
  = (Return (S (length (heap w))),
     set_heap (heap w ++ [OList (ia ++ ib);
                          OElement (uuid_src w (uuid_pos w)) za (length (heap w))])
              (next_uuid w)).
Proof.
  intros Ha Hia Hb Hib. unfold CanvasElement.merge. do 5 run_step.
  rewrite (bind_run (alloc _) _ _ _ _ eq_refl), element_init_run.
  unfold set_heap, next_uuid. simpl. rewrite length_app, Nat.add_1_r.
  now rewrite <- (assoc_L (++)).
Qed.

Lemma merge_view w a b A B :
  element_at (heap w) a = Some A ->
  element_at (heap w) b = Some B ->
  exists w' new,
    CanvasElement.merge a b w = (Return (S (length (heap w))), w')
    /\ heap w' = (heap w ++ new)%list
    /\ length (heap w') = S (S (length (heap w)))
    /\ element_at (heap w') (S (length (heap w)))
       = Some (ElementView (uuid_src w (uuid_pos w)) (ev_z A) (ev_cells A ++ ev_cells B))
    /\ uuid_src w' = uuid_src w.
Proof.
  intros (cla & Ha & (ia & Hia & Hma)%cells_at_Some)%element_at_Some
         (clb & Hb & (ib & Hib & Hmb)%cells_at_Some)%element_at_Some.
  eexists _, _. split; [eapply merge_run; eassumption|]. simpl.
  split; [reflexivity|]. split; [rewrite length_app; simpl; lia|]. split; [|reflexivity].
  apply element_at_Some. exists (length (heap w)). simpl. split.
  - rewrite lookup_app_r by lia. now replace (S (length (heap w)) - length (heap w))%nat with 1%nat by lia.
  - apply cells_at_Some. exists (ia ++ ib)%list. split.
    + now apply list_lookup_middle.
    + apply mapM_Some, Forall2_app; [apply mapM_Some in Hma | apply mapM_Some in Hmb];
        (eapply Forall2_impl; [eassumption|]); intros ? ?; apply cell_at_app.
Qed.

(** X7. [merge] is associative up to the generated ids:
    [merge(merge(A, B), C)] and [merge(A, merge(B, C))] have the same [z]
    (that of [A]) and the same cell sequence, [A]'s cells, then [B]'s, then
    [C]'s. *)
Theorem merge_associative (w : world) (a b c : loc) (A B C : element_view) :
  element_at (heap w) a = Some A ->
  element_at (heap w) b = Some B ->
  element_at (heap w) c = Some C ->
  exists l r wl wr L R,
    (ab <- CanvasElement.merge a b ;; CanvasElement.merge ab c) w = (Return l, wl)
    /\ (bc <- CanvasElement.merge b c ;; CanvasElement.merge a bc) w = (Return r, wr)
    /\ element_at (heap wl) l = Some L
    /\ element_at (heap wr) r = Some R
    /\ ev_z L = ev_z A /\ ev_z R = ev_z A
    /\ ev_cells L = (ev_cells A ++ ev_cells B ++ ev_cells C)%list
    /\ ev_cells R = (ev_cells A ++ ev_cells B ++ ev_cells C)%list.
Proof.
  intros HA HB HC.
  destruct (merge_view w a b A B HA HB) as (w1 & n1 & Hab & Hw1 & _ & Hvab & _).
  assert (element_at (heap w1) c = Some C) as HC1
    by (rewrite Hw1; now apply element_at_app).
  destruct (merge_view w1 _ c _ C Hvab HC1) as (wl & nl & Habc & _ & _ & Hvl & _).
  destruct (merge_view w b c B C HB HC) as (w2 & n2 & Hbc & Hw2 & _ & Hvbc & _).
  assert (element_at (heap w2) a = Some A) as HA2
    by (rewrite Hw2; now apply element_at_app).
  destruct (merge_view w2 a _ A _ HA2 Hvbc) as (wr & nr & Habc' & _ & _ & Hvr & _).
  eexists _, _, wl, wr, _, _.
  split; [rewrite (bind_run _ _ _ _ _ Hab); exact Habc|].
  split; [rewrite (bind_run _ _ _ _ _ Hbc); exact Habc'|].
  split; [exact Hvl|]. split; [exact Hvr|]. simpl.
  repeat split. now rewrite (assoc_L (++)).
Qed.

Lemma merge_associative_witness :
  exists l r wl wr L R,
    (ab <- CanvasElement.merge 3%nat 6%nat ;; CanvasElement.merge ab 9%nat)
      world_three_elements = (Return l, wl)
    /\ (bc <- CanvasElement.merge 6%nat 9%nat ;; CanvasElement.merge 3%nat bc)
         world_three_elements = (Return r, wr)
    /\ element_at (heap wl) l = Some L
    /\ element_at (heap wr) r = Some R
    /\ ev_z L = 3 /\ ev_z R = 3
    /\ ev_cells L = [Cell.mk 0 0 "a"; Cell.mk 0 0 "b"; Cell.mk 0 1 "c"]
    /\ ev_cells R = [Cell.mk 0 0 "a"; Cell.mk 0 0 "b"; Cell.mk 0 1 "c"].
Proof.
  apply (merge_associative world_three_elements 3%nat 6%nat 9%nat
           (ElementView "uuid-0" 3 [Cell.mk 0 0 "a"])
           (ElementView "uuid-1" 1 [Cell.mk 0 0 "b"])
           (ElementView "uuid-2" 2 [Cell.mk 0 1 "c"]));
    vm_compute; reflexivity.
Defined.

(** X8. [merge] does not copy cells: the merged element holds the very
    [Cell] objects of its arguments, so a character written in place to a
    cell of [A] after the merge shows in [merge(A, B)] at that cell's
    position in the sequence. *)
Theorem merge_shares_cells (w : world) (a b : loc) (A B : element_view)
    ida za cla (items : list loc) (i : nat) (l : loc) (ch : string) :
  element_at (heap w) a = Some A ->
  element_at (heap w) b = Some B ->
  heap w !! a = Some (OElement ida za cla) ->
  heap w !! cla = Some (OList items) ->
  items !! i = Some l ->
  exists merged w' v M,
    (merged <- CanvasElement.merge a b ;; set_attr_c l ch ;;; ret merged) w
    = (Return merged, w')
    /\ ev_cells A !! i = Some v
    /\ element_at (heap w') merged = Some M
    /\ ev_cells M !! i = Some (Cell.mk (Cell.x v) (Cell.y v) ch)
    /\ length (ev_cells M) = (length (ev_cells A) + length (ev_cells B))%nat.
Proof.
  intros HA HB Ha Hcla Hi.
  pose proof HA as (cla' & Ha' & (ia & Hia & Hma)%cells_at_Some)%element_at_Some.
  pose proof HB as (clb & Hb & (ib & Hib & Hmb)%cells_at_Some)%element_at_Some.
  assert (cla' = cla) as -> by congruence. assert (ia = items) as -> by congruence.
  apply mapM_Some in Hma, Hmb.
  destruct (Forall2_lookup_l _ _ _ _ _ Hma Hi) as (v & Hv & Hlv%cell_at_Some).
  rewrite (bind_run _ _ _ _ _ (merge_run _ _ _ _ _ _ _ _ _ _ _ Ha' Hia Hb Hib)).
  set (w1 := set_heap _ _).
  assert (heap w1 !! l = Some (OCell v)) as Hlv1 by (now apply lookup_app_l_Some).
  rewrite (bind_run _ _ _ _ _ (set_attr_c_run w1 l v ch Hlv1)).
  set (new := Cell.mk (Cell.x v) (Cell.y v) ch).
  set (h2 := <[l := OCell new]> (heap w1)).
  assert (l < length (heap w))%nat as Hl by (now apply lookup_lt_Some in Hlv).
  assert (forall l' cell, cell_at (heap w) l' = Some cell ->
            cell_at h2 l' = Some (if decide (l' = l) then new else cell)) as Hcell.
  { intros l' cell Hc%cell_at_Some. apply cell_at_Some. unfold h2.
    destruct (decide (l' = l)) as [->|Hne].
    - apply list_lookup_insert_eq. simpl. rewrite length_app. lia.
    - rewrite list_lookup_insert_ne by auto. now apply lookup_app_l_Some. }
  set (cells := (fun p => if decide (fst p = l) then new else snd p)
                  <$> zip (items ++ ib) (ev_cells A ++ ev_cells B)).
  assert (length (items ++ ib) = length (ev_cells A ++ ev_cells B)) as Hlen.
  { rewrite !length_app. f_equal; eapply Forall2_length; eassumption. }
  exists (S (length (heap w))), (set_heap h2 w1), v,
         (ElementView (uuid_src w (uuid_pos w)) (ev_z A) cells).
  split; [reflexivity|]. split; [assumption|]. split; [|split].
  - apply element_at_Some. exists (length (heap w)). simpl. unfold h2. split.
    + rewrite list_lookup_insert_ne by lia. simpl. rewrite lookup_app_r by lia.
      replace (S (length (heap w)) - length (heap w))%nat with 1%nat by lia.
      reflexivity.
    + apply cells_at_Some. exists (items ++ ib)%list. split.
      * rewrite list_lookup_insert_ne by lia. now apply list_lookup_middle.
      * apply mapM_Some. unfold cells.
        apply Forall2_same_length_lookup_2; [now rewrite length_fmap, length_zip, <- Hlen, Nat.min_id|].
        intros j l' cell' Hl' Hcell'.
        rewrite list_lookup_fmap in Hcell'.
        destruct (zip _ _ !! j) as [[l'' c'']|] eqn:Hz; [|discriminate].
        apply lookup_zip_with_Some in Hz as (x1 & y1 & Heq & Hj1 & Hj2).
        injection Heq as -> ->.
        injection Hcell' as <-. simpl. assert (l' = x1) as -> by congruence.
        apply Hcell.
        assert (Forall2 (fun l cell => cell_at (heap w) l = Some cell)
                  (items ++ ib) (ev_cells A ++ ev_cells B)) as Hall
          by (now apply Forall2_app).
        exact (Forall2_lookup_lr _ _ _ _ _ _ Hall Hj1 Hj2).
  - simpl. unfold cells. rewrite list_lookup_fmap.
    assert (zip (items ++ ib) (ev_cells A ++ ev_cells B) !! i = Some (l, v)) as ->.
    { apply lookup_zip_with_Some. exists l, v. split; [reflexivity|].
      split; now apply lookup_app_l_Some. }
    simpl. now rewrite decide_True.
  - simpl. unfold cells. rewrite length_fmap, length_zip, <- Hlen, Nat.min_id, Hlen.
    apply length_app.
Qed.

Lemma merge_shares_cells_witness :
  exists merged w' v M,
    (merged <- CanvasElement.merge 3%nat 6%nat ;; set_attr_c 1%nat "Z" ;;; ret merged)
      world_three_elements = (Return merged, w')
    /\ [Cell.mk 0 0 "a"] !! 0%nat = Some v
    /\ element_at (heap w') merged = Some M
    /\ ev_cells M !! 0%nat = Some (Cell.mk (Cell.x v) (Cell.y v) "Z")
    /\ length (ev_cells M) = (1 + 1)%nat.
Proof.
  apply (merge_shares_cells world_three_elements 3%nat 6%nat
           (ElementView "uuid-0" 3 [Cell.mk 0 0 "a"])
           (ElementView "uuid-1" 1 [Cell.mk 0 0 "b"])
           "uuid-0" 3 2%nat [1%nat] 0%nat 1%nat "Z");
    vm_compute; reflexivity.
Defined.

(** ** [Message] *)

Lemma str_getitem_run (s : list string) (k : nat) ch w :
  s !! k = Some ch -> str_getitem s (Z.of_nat k) w = (Return ch, w).
Proof.
  intros H. unfold str_getitem.
  rewrite py_index_in_range by (apply lookup_lt_Some in H; lia).
  now rewrite Nat2Z.id, H.
Qed.

Lemma message_build_from (start_row start_col : Z) (pre message : list string) w :
  comprehension
    (zip (seqZ (Z.of_nat (length pre)) (Z.of_nat (length message)))
         (seqZ (start_col + Z.of_nat (length pre)) (Z.of_nat (length message))))
    (fun iy => c <- str_getitem (pre ++ message)%list (fst iy) ;;
               ret (Cell.mk start_row (snd iy) c)) w
  = (Return (imap (fun i ch => Cell.mk start_row
                                 (start_col + Z.of_nat (length pre) + Z.of_nat i) ch)
               message), w).
Proof.
  revert pre. induction message as [|ch message IH]; intros pre; [reflexivity|].
  cbn [length]. rewrite !(seqZ_cons _ (Z.of_nat (S _))) by lia.
  cbn [zip zip_with comprehension fst snd].
  rewrite (bind_assoc (str_getitem _ _)).
  rewrite (bind_run _ _ _ _ _ (str_getitem_run (pre ++ ch :: message)%list (length pre) ch w
                                 (list_lookup_middle _ _ _ _ eq_refl))).
  unfold ret at 1. unfold bind at 1.
  specialize (IH (pre ++ [ch])%list). rewrite length_app in IH. cbn [length] in IH.
  rewrite <- (assoc_L (++)) in IH. cbn [app] in IH.
  replace (Z.succ (Z.of_nat (length pre))) with (Z.of_nat (length pre + 1)) by lia.
  replace (Z.pred (Z.of_nat (S (length message)))) with (Z.of_nat (length message)) by lia.
  replace (Z.succ (start_col + Z.of_nat (length pre)))
    with (start_col + Z.of_nat (length pre + 1)) by lia.
  rewrite (bind_run _ _ _ _ _ IH). unfold ret. cbn [imap]. do 3 f_equal.
  - f_equal. lia.
  - apply imap_ext. intros i ch' _. simpl. f_equal. lia.
Qed.

Lemma message_build_run (start_row start_col : Z) (message : list string) w :
  Message._build start_row start_col message (Z.of_nat (length message)) w
  = (Return (text_cells start_row start_col message), w).
Proof.
  unfold Message._build, enumerate, range, text_cells.
  rewrite length_seqZ.
  replace (start_col + Z.of_nat (length message) - start_col)
    with (Z.of_nat (length message)) by lia.
  rewrite Nat2Z.id.
  pose proof (message_build_from start_row start_col [] message w) as H.
  cbn [length app] in H. change (Z.of_nat 0) with 0 in H.
  rewrite Z.add_0_r in H. rewrite H. do 2 f_equal.
Qed.

(** *** New cell lists *)

Lemma alloc_cells_run (cells : list Cell.t) w :
  comprehension cells (fun cell => alloc (OCell cell)) w
  = (Return (seq (length (heap w)) (length cells)),
     set_heap (heap w ++ (OCell <$> cells)) w).
Proof.
  revert w. induction cells as [|cell cells IH]; intros w.
  - simpl. unfold ret. now rewrite (right_id_L [] (++)), set_heap_same.
  - cbn [comprehension]. rewrite (bind_run (alloc _) _ _ _ _ eq_refl).
    rewrite (bind_run _ _ _ _ _ (IH _)). unfold ret. simpl.
    rewrite length_app, <- (assoc_L (++)). simpl. now rewrite Nat.add_1_r.
Qed.

Lemma new_cell_list_run (cells : list Cell.t) w :
  new_cell_list cells w
  = (Return (length (heap w) + length cells)%nat,
     set_heap (cells_heap (heap w) cells) w).
Proof.
  unfold new_cell_list. rewrite (bind_run _ _ _ _ _ (alloc_cells_run cells w)).
  unfold alloc, cells_heap. simpl.
  now rewrite length_app, length_fmap, <- (assoc_L (++)).
Qed.

Lemma cells_heap_at h0 cells :
  cell_list_at (cells_heap h0 cells) (length h0 + length cells)%nat
    (seq (length h0) (length cells)) cells.
Proof.
  unfold cells_heap. split; [|split].
  - rewrite lookup_app_r by lia.
    replace (length h0 + length cells - length h0)%nat with (length (OCell <$> cells))
      by (rewrite length_fmap; lia).
    now apply list_lookup_middle.
  - apply NoDup_seq.
  - apply Forall2_same_length_lookup_2; [now rewrite length_seq|].
    intros i l cell [-> Hi]%lookup_seq Hcell.
    rewrite lookup_app_r by lia.
    replace (length h0 + i - length h0)%nat with i by lia.
    apply lookup_app_l_Some. now rewrite list_lookup_fmap, Hcell.
Qed.

Lemma cell_list_at_cells h cl items cells :
  cell_list_at h cl items cells -> cells_at h cl = Some cells.
Proof.
  intros (Hcl & _ & Hcells). apply cells_at_Some. exists items. split; [assumption|].
  apply mapM_Some. eapply Forall2_impl; [exact Hcells|]. intros l c. apply cell_at_Some.
Qed.

Lemma cells_heap_cells h0 cells :
  cells_at (cells_heap h0 cells) (length h0 + length cells)%nat = Some cells.
Proof. eapply cell_list_at_cells, cells_heap_at. Qed.

Lemma cells_heap_prefix h0 cells : h0 `prefix_of` cells_heap h0 cells.
Proof. unfold cells_heap. now apply prefix_app_r. Qed.

Lemma cells_heap_length h0 cells :
  length (cells_heap h0 cells) = S (length h0 + length cells).
Proof. unfold cells_heap. rewrite !length_app, length_fmap. simpl. lia. Qed.

(** X9. [Message(start_row, start_col, text)] never fails on indexing the
    text: it makes one cell for each character, character [i] at row
    [start_row], column [start_col + i], in the order of the text (so none
    for an empty text, and one column for each character whatever its
    display width); the cells are new objects. *)
Theorem message_cells (w : world) (start_row start_col : Z) (text : list string) :
  exists self w' cells,
    Message.__init__ start_row start_col text w = (Return self, w')
    /\ cells_at (heap w') (Message.cell_list self) = Some cells
    /\ length cells = length text
    /\ (forall (i : nat) ch,
          text !! i = Some ch ->
          cells !! i = Some (Cell.mk start_row (start_col + Z.of_nat i) ch))
    /\ heap w `prefix_of` heap w'
    /\ heap w !! Message.cell_list self = None.
Proof.
  eexists _, _, (text_cells start_row start_col text).
  unfold Message.__init__.
  rewrite (bind_run _ _ _ _ _ (message_build_run start_row start_col text w)).
  rewrite (bind_run _ _ _ _ _ (new_cell_list_run _ w)).
  split; [reflexivity|]. simpl.
  split; [apply cells_heap_cells|].
  split; [apply length_imap|].
  split; [|split; [apply cells_heap_prefix|apply lookup_ge_None; lia]].
  intros i ch Hi. unfold text_cells. now rewrite list_lookup_imap, Hi.
Qed.

(** ** The factory *)

(** X10. [create_message(start_row, start_col, text, z)] returns a new
    element with the given [z], a new id and the cells of the text, and
    leaves every object of the store as it was. *)
Theorem create_message_element (w : world) (start_row start_col : Z)
    (text : list string) (z : Z) :
  exists e w',
    create_message start_row start_col text z w = (Return e, w')
    /\ heap w !! e = None
    /\ element_at (heap w') e
       = Some (ElementView (uuid_src w (uuid_pos w)) z
                 (text_cells start_row start_col text))
    /\ heap w `prefix_of` heap w'.
Proof.
  eexists _, _. unfold create_message, Message.__init__.
  rewrite !bind_assoc.
  rewrite (bind_run _ _ _ _ _ (message_build_run start_row start_col text w)).
  rewrite !bind_assoc.
  rewrite (bind_run _ _ _ _ _ (new_cell_list_run _ w)).
  unfold ret at 1, bind at 1. cbn [Message.cell_list].
  rewrite element_init_run. split; [reflexivity|]. simpl.
  rewrite cells_heap_length.
  split; [apply lookup_ge_None; lia|]. split.
  - apply element_at_Some. eexists. simpl. split.
    + rewrite <- cells_heap_length. now apply list_lookup_middle.
    + apply cells_at_app, cells_heap_cells.
  - apply prefix_app_r, cells_heap_prefix.
Qed.

(** X11. [create_box(start_row, end_row, start_col, end_col, filled, z)]
    returns a new element with the given [z], a new id and the cells of the
    box, and leaves every object of the store as it was. *)
Theorem create_box_element (w : world) (start_row end_row start_col end_col : Z)
    (filled : bool) (z : Z) :
  exists e w',
    CanvasElementFactory.create_box start_row end_row start_col end_col filled z w
    = (Return e, w')
    /\ heap w !! e = None
    /\ element_at (heap w') e
       = Some (ElementView (uuid_src w (uuid_pos w)) z
                 (Box._build (Box.mk start_row end_row start_col end_col filled)))
    /\ heap w `prefix_of` heap w'.
Proof.
  eexists _, _. unfold CanvasElementFactory.create_box.
  rewrite (bind_run _ _ _ _ _ (new_cell_list_run _ w)).
  rewrite element_init_run. split; [reflexivity|]. simpl.
  rewrite cells_heap_length.
  split; [apply lookup_ge_None; lia|]. split.
  - apply element_at_Some. eexists. simpl. split.
    + rewrite <- cells_heap_length. now apply list_lookup_middle.
    + apply cells_at_app, cells_heap_cells.
  - apply prefix_app_r, cells_heap_prefix.
Qed.

(** ** Boxes *)

Local Open Scope list_scope.

Lemma filter_range_bind_one {B} (P : B -> Prop) `{!forall x, Decision (P x)}
    (g : Z -> list B) (lo hi k : Z) :
  (forall i, i ∈ range lo hi -> i <> k -> filter P (g i) = []) ->
  filter P (range lo hi ≫= g)
  = if bool_decide (lo <= k < hi) then filter P (g k) else [].
Proof.
  intros Hg. rewrite filter_bind. case_bool_decide as E.
  - apply (bind_only (fun a => filter P (g a))).
    + apply NoDup_seqZ.
    + now apply elem_of_range.
    + exact Hg.
  - apply bind_none. intros i Hi. apply Hg; [exact Hi|].
    intros ->. apply elem_of_range in Hi. contradiction.
Qed.

Lemma at_pos_app cells1 cells2 r c :
  at_pos (cells1 ++ cells2) r c = at_pos cells1 r c ++ at_pos cells2 r c.
Proof. apply filter_app. Qed.

Lemma at_pos_one x y ch r c :
  at_pos [Cell.mk x y ch] r c
  = if bool_decide (r = x /\ c = y) then [Cell.mk r c ch] else [].
Proof.
  unfold at_pos. rewrite filter_cons, filter_nil. simpl.
  destruct (decide (x = r /\ y = c)) as [[-> ->]|N].
  - now rewrite bool_decide_eq_true_2.
  - rewrite bool_decide_eq_false_2; [reflexivity|]. intros [-> ->]. now apply N.
Qed.

(** A run of cells along row [x]. *)
Lemma at_pos_row x lo hi ch r c :
  at_pos (j ← range lo hi; [Cell.mk x j ch]) r c
  = if bool_decide (r = x /\ lo <= c < hi) then [Cell.mk r c ch] else [].
Proof.
  unfold at_pos. rewrite (filter_range_bind_one _ _ _ _ c).
  - fold (at_pos [Cell.mk x c ch] r c). rewrite at_pos_one.
    repeat case_bool_decide; try reflexivity; exfalso; tauto.
  - intros j _ Hj. fold (at_pos [Cell.mk x j ch] r c). rewrite at_pos_one.
    rewrite bool_decide_eq_false_2; [reflexivity|]. intros [_ ->]. now apply Hj.
Qed.

(** A rectangle of cells. *)
Lemma at_pos_rect lo_x hi_x lo_y hi_y ch r c :
  at_pos (i ← range lo_x hi_x; j ← range lo_y hi_y; [Cell.mk i j ch]) r c
  = if bool_decide (lo_x <= r < hi_x /\ lo_y <= c < hi_y) then [Cell.mk r c ch] else [].
Proof.
  unfold at_pos. rewrite (filter_range_bind_one _ _ _ _ r).
  - fold (at_pos (j ← range lo_y hi_y; [Cell.mk r j ch]) r c). rewrite at_pos_row.
    repeat case_bool_decide; try reflexivity; exfalso; tauto.
  - intros i _ Hi. fold (at_pos (j ← range lo_y hi_y; [Cell.mk i j ch]) r c).
    rewrite at_pos_row.
    rewrite bool_decide_eq_false_2; [reflexivity|]. intros [-> _]. now apply Hi.
Qed.

(** The two cells of each row of the left and right edges. *)
Lemma at_pos_sides lo hi y1 y2 ch r c :
  at_pos (i ← range lo hi; [Cell.mk i y1 ch; Cell.mk i y2 ch]) r c
  = if bool_decide (lo <= r < hi)
    then (if bool_decide (c = y1) then [Cell.mk r c ch] else [])
         ++ (if bool_decide (c = y2) then [Cell.mk r c ch] else [])
    else [].
Proof.
  assert (Hpair : forall i,
    filter (fun cell => Cell.x cell = r /\ Cell.y cell = c)
           [Cell.mk i y1 ch; Cell.mk i y2 ch]
    = (if bool_decide (r = i /\ c = y1) then [Cell.mk r c ch] else [])
      ++ (if bool_decide (r = i /\ c = y2) then [Cell.mk r c ch] else [])).
  { intros i. change [Cell.mk i y1 ch; Cell.mk i y2 ch]
      with ([Cell.mk i y1 ch] ++ [Cell.mk i y2 ch]).
    rewrite filter_app. fold (at_pos [Cell.mk i y1 ch] r c).
    fold (at_pos [Cell.mk i y2 ch] r c). now rewrite !at_pos_one. }
  unfold at_pos. rewrite (filter_range_bind_one _ _ _ _ r).
  - rewrite Hpair. repeat case_bool_decide; try reflexivity; exfalso; tauto.
  - intros i _ Hi. rewrite Hpair.
    rewrite !bool_decide_eq_false_2; [reflexivity| |]; intros [-> _]; now apply Hi.
Qed.

(** The cells of a box at one position, in list order. *)
Lemma box_at (self : Box.t) (r c : Z) :
  at_pos (Box._build self) r c
  = (if Box.filled self then
       if bool_decide (Box.start_row self + 1 <= r < Box.end_row self
                       /\ Box.start_col self + 1 <= c < Box.end_col self)
       then [Cell.mk r c " "] else []
     else [])
    ++ (if bool_decide (r = Box.start_row self /\ c = Box.start_col self)
        then [Cell.mk r c "╭"] else [])
    ++ (if bool_decide (r = Box.start_row self /\ c = Box.end_col self)
        then [Cell.mk r c "╮"] else [])
    ++ (if bool_decide (r = Box.start_row self
                        /\ Box.start_col self + 1 <= c < Box.end_col self)
        then [Cell.mk r c "─"] else [])
    ++ (if bool_decide (r = Box.end_row self /\ c = Box.start_col self)
        then [Cell.mk r c "╰"] else [])
    ++ (if bool_decide (r = Box.end_row self /\ c = Box.end_col self)
        then [Cell.mk r c "╯"] else [])
    ++ (if bool_decide (r = Box.end_row self
                        /\ Box.start_col self + 1 <= c < Box.end_col self)
        then [Cell.mk r c "─"] else [])
    ++ (if bool_decide (Box.start_row self + 1 <= r < Box.end_row self)
        then (if bool_decide (c = Box.start_col self) then [Cell.mk r c "│"] else [])
             ++ (if bool_decide (c = Box.end_col self) then [Cell.mk r c "│"] else [])
        else []).
Proof.
  unfold Box._build. rewrite !at_pos_app, !at_pos_one, !at_pos_row, at_pos_sides.
  f_equal. destruct (Box.filled self); [apply at_pos_rect|reflexivity].
Qed.

Ltac box_cases :=
  rewrite box_at; cbn [Box.filled Box.start_row Box.end_row Box.start_col Box.end_col];
  repeat (case_bool_decide; try lia);
  try reflexivity.

(** X12. A box whose end row and column lie after its start row and column
    has exactly one cell at each position of its outline: the four corner
    glyphs at the corners, ['─'] between them on the top and bottom rows
    and ['│'] between them on the left and right columns.  Inside, it has
    one blank cell at each position if it is filled and none otherwise, and
    it has no cell outside its rectangle. *)
Theorem box_cells_by_position (start_row end_row start_col end_col : Z)
    (filled : bool) :
  start_row < end_row ->
  start_col < end_col ->
  let cells := Box._build (Box.mk start_row end_row start_col end_col filled) in
  at_pos cells start_row start_col = [Cell.mk start_row start_col "╭"]
  /\ at_pos cells start_row end_col = [Cell.mk start_row end_col "╮"]
  /\ at_pos cells end_row start_col = [Cell.mk end_row start_col "╰"]
  /\ at_pos cells end_row end_col = [Cell.mk end_row end_col "╯"]
  /\ (forall c, start_col < c < end_col ->
        at_pos cells start_row c = [Cell.mk start_row c "─"]
        /\ at_pos cells end_row c = [Cell.mk end_row c "─"])
  /\ (forall r, start_row < r < end_row ->
        at_pos cells r start_col = [Cell.mk r start_col "│"]
        /\ at_pos cells r end_col = [Cell.mk r end_col "│"])
  /\ (forall r c, start_row < r < end_row -> start_col < c < end_col ->
        at_pos cells r c = if filled then [Cell.mk r c " "] else [])
  /\ (forall r c, ~ (start_row <= r <= end_row /\ start_col <= c <= end_col) ->
        at_pos cells r c = []).
Proof.
  intros Hrows Hcols cells. unfold cells.
  repeat split; intros; destruct filled; box_cases.
Qed.

Lemma box_cells_by_position_witness :
  let cells := Box._build (Box.mk 7 11 9 23 true) in
  at_pos cells 7 9 = [Cell.mk 7 9 "╭"]
  /\ at_pos cells 11 23 = [Cell.mk 11 23 "╯"]
  /\ at_pos cells 9 15 = [Cell.mk 9 15 " "]
  /\ at_pos cells 12 15 = [].
Proof.
  destruct (box_cells_by_position 7 11 9 23 true ltac:(lia) ltac:(lia))
    as (Htl & _ & _ & Hbr & _ & _ & Hin & Hout).
  refine (conj Htl (conj Hbr (conj _ _))).
  - apply (Hin 9 15); lia.
  - apply (Hout 12 15); lia.
Defined.

Lemma length_range (a b : Z) : Z.of_nat (length (range a b)) = Z.max 0 (b - a).
Proof. unfold range. rewrite length_seqZ. lia. Qed.

Lemma length_bind_const {A B} (f : A -> list B) (l : list A) (n : nat) :
  (forall a, a ∈ l -> length (f a) = n) -> length (l ≫= f) = (length l * n)%nat.
Proof.
  induction l as [|a l IH]; intros Hf; [reflexivity|].
  rewrite bind_cons, length_app, (Hf a) by left. simpl. f_equal.
  apply IH. intros b Hb. apply Hf. now right.
Qed.

(** X13. The number of cells of a box, whatever its four bounds: the four
    corners, two cells for each column strictly between the two end columns
    and two for each row strictly between the two end rows, and, if the box
    is filled, one for each position strictly inside.  So a box has at
    least four cells, also when an end lies before its start. *)
Theorem box_cell_count (start_row end_row start_col end_col : Z) (filled : bool) :
  let inner_rows := Z.max 0 (end_row - start_row - 1) in
  let inner_cols := Z.max 0 (end_col - start_col - 1) in
  Z.of_nat (length (Box._build (Box.mk start_row end_row start_col end_col filled)))
  = 4 + 2 * inner_cols + 2 * inner_rows
    + (if filled then inner_rows * inner_cols else 0).
Proof.
  intros inner_rows inner_cols. unfold Box._build.
  cbn [Box.filled Box.start_row Box.end_row Box.start_col Box.end_col].
  assert (Hcols : Z.of_nat (length (range (start_col + 1) end_col)) = inner_cols)
    by (rewrite length_range; unfold inner_cols; lia).
  assert (Hrows : Z.of_nat (length (range (start_row + 1) end_row)) = inner_rows)
    by (rewrite length_range; unfold inner_rows; lia).
  rewrite !length_app.
  rewrite !(length_bind_const (fun i => [Cell.mk _ i _]) _ 1) by reflexivity.
  rewrite (length_bind_const (fun i => [Cell.mk i _ _; Cell.mk i _ _]) _ 2)
    by reflexivity.
  assert (Hfill : Z.of_nat (length
            (if filled
             then i ← range (start_row + 1) end_row;
                  j ← range (start_col + 1) end_col; [Cell.mk i j " "]
             else []))
          = if filled then inner_rows * inner_cols else 0).
  { destruct filled; [|reflexivity].
    rewrite (length_bind_const _ _ (length (range (start_col + 1) end_col))).
    - rewrite Nat2Z.inj_mul. lia.
    - intros i _. rewrite (length_bind_const _ _ 1) by reflexivity. lia. }
  simpl length. lia.
Qed.

(** X14. A box of a single row ([end_row = start_row]) puts two cells on
    each position of that row: the glyph of the top edge first and that of the
    bottom edge after it, which is the one a canvas shows. *)
Theorem box_single_row (row start_col end_col : Z) (filled : bool) :
  start_col < end_col ->
  let cells := Box._build (Box.mk row row start_col end_col filled) in
  at_pos cells row start_col
  = [Cell.mk row start_col "╭"; Cell.mk row start_col "╰"]
  /\ at_pos cells row end_col
     = [Cell.mk row end_col "╮"; Cell.mk row end_col "╯"]
  /\ (forall c, start_col < c < end_col ->
        at_pos cells row c = [Cell.mk row c "─"; Cell.mk row c "─"])
  /\ top_char cells row start_col = Some "╰"
  /\ top_char cells row end_col = Some "╯".
Proof.
  intros Hcols cells. unfold cells, top_char.
  fold (at_pos (Box._build (Box.mk row row start_col end_col filled)) row start_col).
  fold (at_pos (Box._build (Box.mk row row start_col end_col filled)) row end_col).
  assert (H1 : at_pos (Box._build (Box.mk row row start_col end_col filled)) row start_col
               = [Cell.mk row start_col "╭"; Cell.mk row start_col "╰"])
    by (destruct filled; box_cases).
  assert (H2 : at_pos (Box._build (Box.mk row row start_col end_col filled)) row end_col
               = [Cell.mk row end_col "╮"; Cell.mk row end_col "╯"])
    by (destruct filled; box_cases).
  rewrite H1, H2. repeat split. intros c Hc. destruct filled; box_cases.
Qed.

Lemma box_single_row_witness :
  top_char (Box._build (Box.mk 3 3 0 4 false)) 3 0 = Some "╰".
Proof. apply (box_single_row 3 0 4 false). lia. Defined.

(** ** The tree: size and extent *)

Lemma leaves_length (start_row start_col mid : Z) (n : nat) :
  length (i ← seqZ 1 (Z.of_nat n);
          j ← range (mid - i) (mid + i + 1);
          [Cell.mk (start_row + i) (start_col + j) "*"])
  = (n * (n + 2))%nat.
Proof.
  induction n as [|n IH]; [reflexivity|].
  rewrite seqZ_S, bind_app, length_app, IH, bind_cons. change (@nil Z ≫= _) with (@nil Cell.t).
  rewrite (right_id_L [] (++)), (length_bind_const _ _ 1) by reflexivity.
  apply Nat2Z.inj. rewrite Nat2Z.inj_add, !Nat2Z.inj_mul, length_range. lia.
Qed.

Lemma trunk_length (start_row start_col height trunk_start tw : Z) :
  0 <= tw ->
  Z.of_nat (length (i ← range height (height + height / 4);
                    j ← range trunk_start (trunk_start + tw);
                    [Cell.mk (start_row + i) (start_col + j) "*"]))
  = Z.max 0 (height / 4) * tw.
Proof.
  intros Htw. rewrite (length_bind_const _ _ (Z.to_nat tw)).
  - rewrite Nat2Z.inj_mul, length_range. lia.
  - intros i _. rewrite (length_bind_const _ _ 1) by reflexivity.
    apply Nat2Z.inj. rewrite Nat2Z.inj_mul, length_range. lia.
Qed.

Lemma build_length (start_row start_col height : Z) :
  1 <= height ->
  Z.of_nat (length (XmasTree._build start_row start_col height (2 * height - 1)))
  = height * height + trunk_width height * (height / 4).
Proof.
  intros Hh. unfold XmasTree._build. fold (trunk_width height).
  rewrite !length_app. cbn [length]. rewrite !Nat2Z.inj_add.
  destruct (trunk_width_odd height) as [_ Htw].
  pose proof (Z.div_pos height 3 ltac:(lia) ltac:(lia)).
  pose proof (Z.div_pos height 4 ltac:(lia) ltac:(lia)).
  rewrite trunk_length by lia. cbv zeta.
  change (range 1 height) with (seqZ 1 (height - 1)).
  replace (height - 1) with (Z.of_nat (Z.to_nat (height - 1))) by lia.
  rewrite leaves_length. nia.
Qed.

(** X15. A tree of height [height >= 1] has [height * height] cells for
    its star and leaves, plus, for its trunk, [height // 4] rows of the
    trunk's width ([height // 3] made odd); all of them but the star, the
    first, are ['*'] cells. *)
Theorem tree_cell_count (start_row start_col height : Z) :
  1 <= height ->
  let cells := XmasTree._build start_row start_col height (2 * height - 1) in
  Z.of_nat (length cells) = height * height + trunk_width height * (height / 4)
  /\ Z.of_nat (star_count cells)
     = height * height - 1 + trunk_width height * (height / 4).
Proof.
  intros Hh cells.
  pose proof (build_length start_row start_col height Hh) as Hlen. fold cells in Hlen.
  split; [exact Hlen|].
  destruct (build_star_count start_row start_col height (2 * height - 1)) as [Hstars _].
  fold cells in Hstars. lia.
Qed.

Lemma tree_cell_count_witness :
  let cells := XmasTree._build 2 2 15 (2 * 15 - 1) in
  Z.of_nat (length cells) = 15 * 15 + trunk_width 15 * (15 / 4)
  /\ Z.of_nat (star_count cells) = 15 * 15 - 1 + trunk_width 15 * (15 / 4).
Proof. apply (tree_cell_count 2 2 15). lia. Defined.

(** The cells of a block of ['*'] rows at one position. *)
Lemma at_pos_star_rows (start_row start_col a b : Z) (lo hi : Z -> Z) (r c : Z) :
  at_pos (i ← range a b; j ← range (lo i) (hi i);
          [Cell.mk (start_row + i) (start_col + j) "*"]) r c
  = if bool_decide (a <= r - start_row < b
                    /\ lo (r - start_row) <= c - start_col < hi (r - start_row))
    then [Cell.mk r c "*"] else [].
Proof.
  assert (Hrow : forall i,
    filter (fun cell => Cell.x cell = r /\ Cell.y cell = c)
           (j ← range (lo i) (hi i); [Cell.mk (start_row + i) (start_col + j) "*"])
    = if bool_decide (i = r - start_row /\ lo i <= c - start_col < hi i)
      then [Cell.mk r c "*"] else []).
  { intros i. rewrite (filter_range_bind_one _ _ _ _ (c - start_col)).
    - fold (at_pos [Cell.mk (start_row + i) (start_col + (c - start_col)) "*"] r c).
      rewrite at_pos_one.
      repeat case_bool_decide; try reflexivity; exfalso; lia.
    - intros j _ Hj.
      fold (at_pos [Cell.mk (start_row + i) (start_col + j) "*"] r c).
      rewrite at_pos_one. rewrite bool_decide_eq_false_2; [reflexivity|]. lia. }
  unfold at_pos. rewrite (filter_range_bind_one _ _ _ _ (r - start_row)).
  - rewrite Hrow. repeat case_bool_decide; try reflexivity; exfalso; tauto.
  - intros i _ Hi. rewrite Hrow. rewrite bool_decide_eq_false_2; [reflexivity|].
    intros [-> _]. now apply Hi.
Qed.

(** X16. A tree of height [height >= 1] lies within [height + height // 4]
    rows from [start_row] and [2 * height - 1] columns from [start_col],
    and no two of its cells share a position. *)
Theorem tree_extent (start_row start_col height : Z) :
  1 <= height ->
  let cells := XmasTree._build start_row start_col height (2 * height - 1) in
  (forall cell, cell ∈ cells ->
     start_row <= Cell.x cell < start_row + height + height / 4
     /\ start_col <= Cell.y cell < start_col + (2 * height - 1))
  /\ (forall r c, (length (at_pos cells r c) <= 1)%nat).
Proof.
  intros Hh cells.
  assert (Hmid : (2 * height - 1) / 2 = height - 1).
  { symmetry. apply (Z.div_unique _ _ _ 1); lia. }
  pose proof (Z.div_mod height 4 ltac:(lia)) as Hdiv4.
  pose proof (Z.mod_pos_bound height 4 ltac:(lia)) as Hmod4.
  pose proof (Z.div_mod height 3 ltac:(lia)) as Hdiv3.
  pose proof (Z.mod_pos_bound height 3 ltac:(lia)) as Hmod3.
  destruct (trunk_width_odd height) as [Hodd Hbounds].
  assert (Htw : trunk_width height = 2 * (trunk_width height / 2) + 1).
  { rewrite Zodd_mod in Hodd. apply Z.eqb_eq in Hodd.
    pose proof (Z.div_mod (trunk_width height) 2 ltac:(lia)). lia. }
  split.
  - intros cell. unfold cells, XmasTree._build. rewrite Hmid.
    fold (trunk_width height).
    rewrite !elem_of_app, list_elem_of_singleton, !list_elem_of_bind.
    intros [->|[(i & Hcell & Hi%elem_of_range)|(i & Hcell & Hi%elem_of_range)]].
    + simpl. lia.
    + apply list_elem_of_bind in Hcell
        as (j & ->%list_elem_of_singleton & Hj%elem_of_range).
      simpl. lia.
    + apply list_elem_of_bind in Hcell
        as (j & ->%list_elem_of_singleton & Hj%elem_of_range).
      simpl. lia.
  - intros r c. unfold cells, XmasTree._build. rewrite Hmid.
    fold (trunk_width height).
    rewrite !at_pos_app, at_pos_one.
    rewrite (at_pos_star_rows _ _ _ _ (fun i => height - 1 - i)
               (fun i => height - 1 + i + 1)).
    rewrite (at_pos_star_rows _ _ _ _
               (fun _ => height - 1 - trunk_width height / 2)
               (fun _ => height - 1 - trunk_width height / 2 + trunk_width height)).
    repeat case_bool_decide; simpl; lia.
Qed.

Lemma tree_extent_witness :
  Forall (fun cell => 2 <= Cell.x cell < 2 + 15 + 15 / 4
                      /\ 2 <= Cell.y cell < 2 + (2 * 15 - 1))
         (XmasTree._build 2 2 15 (2 * 15 - 1))
  /\ (length (at_pos (XmasTree._build 2 2 15 (2 * 15 - 1)) 3 16) <= 1)%nat.
Proof.
  destruct (tree_extent 2 2 15 ltac:(lia)) as [Hin Hone].
  split; [apply Forall_forall, Hin|apply Hone].
Defined.

(** ** Making a tree *)

Lemma eval_bind_raise {A B} (m : M A) (k : A -> M B) w e :
  eval m w = Raise e -> eval (bind m k) w = Raise e.
Proof. unfold eval, bind. destruct (m w) as [[a|e'|] w']; simpl; congruence. Qed.

Lemma eval_bind_diverge {A B} (m : M A) (k : A -> M B) w :
  eval m w = Diverge -> eval (bind m k) w = Diverge.
Proof. unfold eval, bind. destruct (m w) as [[a|e'|] w']; simpl; congruence. Qed.

Lemma tree_init_run fuel start_row start_col height w :
  let cells := XmasTree._build start_row start_col height (2 * height - 1) in
  let self := XmasTree.mk start_row start_col height (2 * height - 1)
                (length (heap w) + length cells)%nat in
  XmasTree.__init__ fuel start_row start_col height w
  = bind (XmasTree._add_ornaments fuel self 9) (fun _ => ret self)
      (set_heap (cells_heap (heap w) cells) w).
Proof.
  intros cells self. unfold XmasTree.__init__.
  now rewrite (bind_run _ _ _ _ _ (new_cell_list_run _ w)).
Qed.

(** X17. [XmasTree(start_row, start_col, height)] with [height <= 1] raises
    [ValueError]: its only cell is the star, and the first draw is from the
    empty range [1 .. 0].  With [height] 2 or 3 it never returns: there are
    3, respectively 8, leaf cells for the 9 ornaments, and the retry loop
    for the next ornament goes on however many draws are followed. *)
Theorem tree_init_small (w : world) (start_row start_col height : Z) :
  (height <= 1 ->
   forall fuel,
     eval (XmasTree.__init__ (S fuel) start_row start_col height) w = Raise ValueError)
  /\ (2 <= height <= 3 ->
      forall fuel,
        eval (XmasTree.__init__ fuel start_row start_col height) w = Diverge).
Proof.
  split; intros Hh fuel.
  - unfold eval. rewrite tree_init_run. apply eval_bind_raise.
    rewrite build_length_small by assumption.
    apply (over_request_empty_range _ (seq (length (heap w)) 1)); [|simpl; lia|lia].
    apply (cells_heap_at (heap w) [_]).
  - unfold eval. rewrite tree_init_run. apply eval_bind_diverge.
    pose proof (build_length start_row start_col height ltac:(lia)) as Hlen.
    destruct (build_star_count start_row start_col height (2 * height - 1))
      as [Hstars _].
    assert (height / 4 = 0) as H4 by (apply Z.div_small; lia).
    eapply over_request_diverges; [apply cells_heap_at| |].
    + rewrite length_seq. nia.
    + rewrite H4 in Hlen. nia.
Qed.

Lemma tree_init_small_witness :
  eval (XmasTree.__init__ 1 0 0 1) initial_world = Raise ValueError
  /\ eval (XmasTree.__init__ 5 0 0 3) initial_world = Diverge.
Proof.
  destruct (tree_init_small initial_world 0 0 1) as [Hraise _].
  destruct (tree_init_small initial_world 0 0 3) as [_ Hloop].
  split; [apply Hraise; lia|apply Hloop; lia].
Defined.

Lemma filter_partition_length {A} (P Q : A -> Prop)
    `{!forall x, Decision (P x)} `{!forall x, Decision (Q x)} (l : list A) :
  Forall (fun x => (P x /\ ~ Q x) \/ (Q x /\ ~ P x)) l ->
  length l = (length (filter P l) + length (filter Q l))%nat.
Proof.
  induction 1 as [|x l [[HP HQ]|[HQ HP]] _ IH]; [reflexivity| |].
  - rewrite filter_cons_True, filter_cons_False by assumption. simpl. lia.
  - rewrite filter_cons_False, filter_cons_True by assumption. simpl. lia.
Qed.

Lemma prefix_of_lookup {A} (h h' : list A) :
  (length h <= length h')%nat ->
  (forall l, (l < length h)%nat -> h' !! l = h !! l) ->
  h `prefix_of` h'.
Proof.
  intros Hlen Hsame. exists (drop (length h) h').
  rewrite <- (take_drop (length h) h') at 1. f_equal.
  apply list_eq. intros l. destruct (decide (l < length h)%nat) as [Hl|Hl].
  - now rewrite lookup_take_lt, Hsame.
  - rewrite lookup_take_ge by lia. symmetry. apply lookup_ge_None. lia.
Qed.

(** What a finished decoration of a newly built tree leaves. *)
Lemma decorated_tree h0 (start_row start_col height : Z) (cells' : list Cell.t)
    (w1 w' : world) (S : list nat) :
  let cells := XmasTree._build start_row start_col height (2 * height - 1) in
  heap w1 = cells_heap h0 cells ->
  decorated (seq (length h0) (length cells)) cells cells' w1 w' S ->
  Forall2 (fun v v' =>
             Cell.x v' = Cell.x v /\ Cell.y v' = Cell.y v
             /\ (Cell.c v' = Cell.c v \/ (Cell.c v = "*" /\ Cell.c v' = "O")))
          cells cells'
  /\ cells' !! 0%nat = cells !! 0%nat
  /\ (ornament_count cells' = length S)%nat
  /\ h0 `prefix_of` heap w'.
Proof.
  intros cells Hw1 (Hnd & Hin & Hout & Hlen & Hstars & Hheap & Hrest & _).
  assert (Hpoint : Forall2 (fun v v' =>
             Cell.x v' = Cell.x v /\ Cell.y v' = Cell.y v
             /\ (Cell.c v' = Cell.c v \/ (Cell.c v = "*" /\ Cell.c v' = "O")))
          cells cells').
  { apply Forall2_same_length_lookup_2; [now symmetry|].
    intros i v v' Hv Hv'. destruct (decide (i ∈ S)) as [Hi|Hi].
    - destruct (Hin i Hi) as (_ & v0 & Hv0 & Hc & Hr).
      assert (v0 = v) as -> by congruence.
      assert (v' = retag v) as -> by congruence.
      simpl. auto.
    - rewrite (Hout i Hi) in Hv'. assert (v' = v) as -> by congruence. auto. }
  assert (Hzero : cells' !! 0%nat = cells !! 0%nat).
  { apply Hout. intros H0. destruct (Hin _ H0) as [? _]. lia. }
  split; [exact Hpoint|]. split; [exact Hzero|]. split.
  - destruct (build_head start_row start_col height (2 * height - 1))
      as (rest & Hcells & Hall).
    fold cells in Hcells.
    destruct (build_star_count start_row start_col height (2 * height - 1))
      as [Hcount _].
    fold cells in Hcount. rewrite Hcells in *.
    destruct cells' as [|v' rest']; [discriminate|].
    simpl in Hzero. injection Hzero as ->.
    apply Forall2_cons_1 in Hpoint as [_ Hpoint].
    assert (Hclass : Forall (fun v => (Cell.c v = "*" /\ Cell.c v <> "O")
                                      \/ (Cell.c v = "O" /\ Cell.c v <> "*")) rest').
    { apply Forall_lookup_2. intros i v' Hv'.
      destruct (Forall2_lookup_r _ _ _ _ _ Hpoint Hv') as (v & Hv & _ & _ & Hc).
      pose proof (Forall_lookup_1 _ _ _ _ Hall Hv) as Hstar. simpl in Hstar.
      destruct Hc as [Hc|[_ Hc]]; [left|right]; rewrite Hc; [rewrite Hstar|];
        split; try reflexivity; discriminate. }
    pose proof (filter_partition_length _ _ _ Hclass) as Hpart.
    unfold ornament_count, star_count in *.
    rewrite filter_cons_False by (simpl; discriminate).
    rewrite !filter_cons_False in Hstars by (simpl; discriminate).
    rewrite filter_cons_False in Hcount by (simpl; discriminate).
    simpl in Hlen, Hcount. lia.
  - apply prefix_of_lookup.
    + rewrite Hheap, Hw1, cells_heap_length. lia.
    + intros l Hl. rewrite Hrest, Hw1.
      * unfold cells_heap. now rewrite lookup_app_l.
      * intros Hmem%elem_of_seq. lia.
Qed.

(** What a call of [XmasTree] that returns has done. *)
Lemma tree_init_returns (w : world) (start_row start_col height : Z) fuel self w' :
  let cells := XmasTree._build start_row start_col height (2 * height - 1) in
  let items := seq (length (heap w)) (length cells) in
  XmasTree.__init__ fuel start_row start_col height w = (Return self, w') ->
  XmasTree.cell_list self = (length (heap w) + length cells)%nat
  /\ exists cells' S,
       cell_list_at (heap w') (XmasTree.cell_list self) items cells'
       /\ length S = 9%nat
       /\ decorated items cells cells' (set_heap (cells_heap (heap w) cells) w) w' S.
Proof.
  intros cells items Hrun. rewrite tree_init_run in Hrun. fold cells in Hrun.
  unfold bind in Hrun.
  destruct (XmasTree._add_ornaments fuel _ 9 _) as [[[]|e|] w2] eqn:E;
    [|discriminate|discriminate].
  unfold ret in Hrun. injection Hrun as <- <-.
  split; [reflexivity|].
  eapply add_ornaments_sound in E as (S & cells' & Hat' & HS & Hdec);
    [|apply cells_heap_at].
  exists cells', S. split; [exact Hat'|]. split; [exact HS|exact Hdec].
Qed.

(** X18. [XmasTree(start_row, start_col, height)] with [height >= 4]: when
    it returns, the tree's cells are those of the build, at the same
    positions, with exactly 9 of the ['*'] cells turned into ['O']; the
    star, the first cell, is never replaced, and no object that existed
    before is changed.  It does return when the random source is fair. *)
Theorem tree_init_decorates (w : world) (start_row start_col height : Z) :
  4 <= height ->
  let cells := XmasTree._build start_row start_col height (2 * height - 1) in
  (forall fuel self w',
     XmasTree.__init__ fuel start_row start_col height w = (Return self, w') ->
     exists cells',
       cells_at (heap w') (XmasTree.cell_list self) = Some cells'
       /\ Forall2 (fun v v' =>
                     Cell.x v' = Cell.x v /\ Cell.y v' = Cell.y v
                     /\ (Cell.c v' = Cell.c v \/ (Cell.c v = "*" /\ Cell.c v' = "O")))
                  cells cells'
       /\ cells' !! 0%nat = Some (Cell.mk start_row (start_col + (height - 1)) "✪")
       /\ ornament_count cells' = 9%nat
       /\ heap w `prefix_of` heap w'
       /\ heap w !! XmasTree.cell_list self = None)
  /\ (fair_source (rand_src w) (Z.of_nat (length cells)) ->
      exists fuel self w',
        XmasTree.__init__ fuel start_row start_col height w = (Return self, w')).
Proof.
  intros Hh cells.
  pose proof (cells_heap_at (heap w) cells) as Hat.
  split.
  - intros fuel self w' Hrun.
    destruct (tree_init_returns _ _ _ _ _ _ _ Hrun)
      as (Hcl & cells' & S & Hat' & HS & Hdec).
    destruct (decorated_tree (heap w) start_row start_col height cells'
                (set_heap (cells_heap (heap w) cells) w) w' S
                eq_refl Hdec) as (Hpoint & Hzero & Hcount & Hprefix).
    exists cells'. split; [eapply cell_list_at_cells, Hat'|].
    split; [exact Hpoint|]. split; [|split; [|split; [exact Hprefix|]]].
    + rewrite Hzero. unfold cells, XmasTree._build. simpl. do 3 f_equal.
      symmetry. apply (Z.div_unique _ _ _ 1); lia.
    + rewrite Hcount, HS. reflexivity.
    + rewrite Hcl. apply lookup_ge_None. lia.
  - intros Hfair.
    destruct (build_star_count start_row start_col height (2 * height - 1))
      as [Hcount Hhead].
    pose proof (build_length start_row start_col height ltac:(lia)) as Hlen.
    destruct (trunk_width_odd height) as [_ Htw].
    pose proof (Z.div_pos height 3 ltac:(lia) ltac:(lia)).
    pose proof (Z.div_pos height 4 ltac:(lia) ltac:(lia)).
    destruct (add_ornaments_terminates
                (XmasTree.mk start_row start_col height (2 * height - 1)
                   (length (heap w) + length cells)%nat)
                _ cells 9 (set_heap (cells_heap (heap w) cells) w) Hat Hhead)
      as (fuel & w' & Hrun).
    + fold cells in Hcount, Hlen. nia.
    + rewrite length_seq. exact Hfair.
    + eexists fuel, _, w'. rewrite tree_init_run. fold cells.
      now rewrite (bind_run _ _ _ _ _ Hrun).
Qed.

Lemma fair_counter (num_cell : Z) :
  2 <= num_cell -> fair_source (fun n => Z.of_nat n) num_cell.
Proof.
  intros Hn k i Hi.
  exists (Z.to_nat (num_cell - 1) * k + Z.to_nat (i - 1))%nat. split; [nia|].
  replace (num_cell - 1 - 1 + 1) with (num_cell - 1) by lia.
  replace (Z.of_nat (Z.to_nat (num_cell - 1) * k + Z.to_nat (i - 1)))
    with (i - 1 + Z.of_nat k * (num_cell - 1)) by lia.
  rewrite Z_mod_plus_full, Z.mod_small by lia. lia.
Qed.

Lemma tree_init_decorates_witness :
  exists fuel self w',
    XmasTree.__init__ fuel 0 0 4 initial_world = (Return self, w').
Proof.
  destruct (tree_init_decorates initial_world 0 0 4 ltac:(lia)) as [_ Hruns].
  apply Hruns. apply fair_counter. vm_compute. discriminate.
Defined.

(** X19. [create_xmas_tree(start_row, start_col, height, z)] with
    [height >= 4]: when it returns, the result is a new element with the
    given [z] and a new id, whose cells are those of the tree at the same
    positions, 9 of the ['*'] turned into ['O']; no object that existed
    before is changed.  It does return when the random source is fair. *)
Theorem create_xmas_tree_element (w : world) (start_row start_col height z : Z) :
  4 <= height ->
  let cells := XmasTree._build start_row start_col height (2 * height - 1) in
  (forall fuel e w',
     CanvasElementFactory.create_xmas_tree fuel start_row start_col height z w
     = (Return e, w') ->
     exists cells',
       element_at (heap w') e
       = Some (ElementView (uuid_src w (uuid_pos w)) z cells')
       /\ Forall2 (fun v v' =>
                     Cell.x v' = Cell.x v /\ Cell.y v' = Cell.y v
                     /\ (Cell.c v' = Cell.c v \/ (Cell.c v = "*" /\ Cell.c v' = "O")))
                  cells cells'
       /\ ornament_count cells' = 9%nat
       /\ heap w `prefix_of` heap w'
       /\ heap w !! e = None
       /\ uuid_pos w' = S (uuid_pos w))
  /\ (fair_source (rand_src w) (Z.of_nat (length cells)) ->
      exists fuel e w',
        CanvasElementFactory.create_xmas_tree fuel start_row start_col height z w
        = (Return e, w')).
Proof.
  intros Hh cells. split.
  - intros fuel e w' Hrun. unfold CanvasElementFactory.create_xmas_tree in Hrun.
    unfold bind at 1 in Hrun.
    destruct (XmasTree.__init__ fuel start_row start_col height w)
      as [[self|ex|] w2] eqn:E; [|discriminate|discriminate].
    destruct (tree_init_returns _ _ _ _ _ _ _ E)
      as (Hcl & cells' & S & Hat' & HS & Hdec).
    destruct (decorated_tree (heap w) start_row start_col height cells'
                (set_heap (cells_heap (heap w) cells) w) w2 S
                eq_refl Hdec) as (Hpoint & _ & Hcount & Hprefix).
    destruct Hdec as (_ & _ & _ & _ & _ & Hheap & _ & _ & Hsrc & Hpos & _).
    rewrite element_init_run in Hrun. injection Hrun as <- <-.
    exists cells'. simpl. rewrite Hsrc, Hpos. simpl.
    split; [|split; [exact Hpoint|split; [|split; [|split]]]].
    + apply element_at_Some. eexists. simpl. split.
      * now apply list_lookup_middle.
      * apply cells_at_app. eapply cell_list_at_cells, Hat'.
    + now rewrite Hcount.
    + now apply prefix_app_r.
    + apply lookup_ge_None. rewrite Hheap. simpl. rewrite cells_heap_length. lia.
    + reflexivity.
  - intros Hfair.
    destruct (build_star_count start_row start_col height (2 * height - 1))
      as [Hcount Hhead].
    pose proof (build_length start_row start_col height ltac:(lia)) as Hlen.
    destruct (trunk_width_odd height) as [_ Htw].
    pose proof (Z.div_pos height 3 ltac:(lia) ltac:(lia)).
    pose proof (Z.div_pos height 4 ltac:(lia) ltac:(lia)).
    destruct (add_ornaments_terminates
                (XmasTree.mk start_row start_col height (2 * height - 1)
                   (length (heap w) + length cells)%nat)
                _ cells 9 (set_heap (cells_heap (heap w) cells) w)
                (cells_heap_at (heap w) cells) Hhead)
      as (fuel & w' & Hrun).
    + fold cells in Hcount, Hlen. nia.
    + rewrite length_seq. exact Hfair.
    + eexists fuel, _, _. unfold CanvasElementFactory.create_xmas_tree.
      rewrite bind_assoc || idtac.
      erewrite bind_run; [apply element_init_run|].
      rewrite tree_init_run. fold cells.
      now rewrite (bind_run _ _ _ _ _ Hrun).
Qed.

Lemma create_xmas_tree_element_witness :
  exists fuel e w',
    CanvasElementFactory.create_xmas_tree fuel 2 2 15 1 initial_world = (Return e, w').
Proof.
  destruct (create_xmas_tree_element initial_world 2 2 15 1 ltac:(lia)) as [_ Hruns].
  apply Hruns. apply fair_counter. vm_compute. discriminate.
Defined.

(** ** The countdown *)

Lemma days_before_year_succ year :
  DateTime._days_before_year (year + 1)
  = DateTime._days_before_year year + 365 + (if DateTime._is_leap year then 1 else 0).
Proof.
  unfold DateTime._days_before_year, DateTime._is_leap. cbv zeta.
  repeat case_bool_decide; cbn [andb orb negb];
    Z.to_euclidean_division_equations; lia.
Qed.

(** The year of a day is the one whose days contain it. *)
Lemma ord2year_spec n :
  1 <= n ->
  DateTime._days_before_year (DateTime._ord2year n) < n
  <= DateTime._days_before_year (DateTime._ord2year n + 1).
Proof.
  intros Hn.
  unfold DateTime._ord2year, DateTime._days_before_year,
    DateTime._DI400Y, DateTime._DI100Y, DateTime._DI4Y.
  cbv zeta. repeat case_bool_decide; cbn [orb];
    Z.to_euclidean_division_equations; lia.
Qed.

Lemma days_before_year_mono y1 y2 :
  y1 <= y2 -> DateTime._days_before_year y1 <= DateTime._days_before_year y2.
Proof.
  intros H. unfold DateTime._days_before_year. cbv zeta.
  Z.to_euclidean_division_equations; lia.
Qed.

Ltac time_units :=
  cbv [DateTime.us_per_day DateTime.us_per_hour DateTime.us_per_second
       DateTime._MAXORDINAL DateTime.MINYEAR DateTime.MAXYEAR] in *.

Lemma christmas_wall_eq year :
  christmas_wall year = (DateTime._days_before_year (year + 1) - 7) * DateTime.us_per_day.
Proof.
  unfold christmas_wall, DateTime._ymd2ord, DateTime._days_before_month.
  rewrite days_before_year_succ. simpl.
  destruct (DateTime._is_leap year); lia.
Qed.

Lemma timedelta_run hours :
  -24 < hours < 24 ->
  DateTime.timedelta hours = inr (hours * DateTime.us_per_hour).
Proof.
  intros H. unfold DateTime.timedelta. cbv zeta.
  rewrite bool_decide_eq_false_2; [reflexivity|].
  time_units. Z.to_euclidean_division_equations. lia.
Qed.

Lemma timezone_run hours :
  -24 < hours < 24 ->
  DateTime.timezone (hours * DateTime.us_per_hour) = inr (hours * DateTime.us_per_hour).
Proof.
  intros H. unfold DateTime.timezone.
  rewrite bool_decide_eq_true_2; [reflexivity|]. time_units. lia.
Qed.

Lemma add_run clock delta :
  DateTime.representable (clock + delta) ->
  DateTime.add (DateTime.now_utc clock) delta = inr (DateTime.mk (clock + delta) 0).
Proof.
  intros H. unfold DateTime.add, DateTime.representable in *. simpl.
  rewrite bool_decide_eq_true_2; [reflexivity|].
  time_units. Z.to_euclidean_division_equations. lia.
Qed.

Lemma add_overflow clock delta :
  ~ DateTime.representable (clock + delta) ->
  DateTime.add (DateTime.now_utc clock) delta = inl DateTime.OverflowError.
Proof.
  intros H. unfold DateTime.add, DateTime.representable in *. simpl.
  rewrite bool_decide_eq_false_2; [reflexivity|].
  time_units. Z.to_euclidean_division_equations. lia.
Qed.

Lemma christmas_run year tz :
  1 <= year <= 9999 ->
  DateTime.datetime_new year 12 25 0 0 0 tz = inr (DateTime.mk (christmas_wall year) tz).
Proof.
  intros H. unfold DateTime.datetime_new.
  rewrite (bool_decide_eq_true_2 (DateTime.MINYEAR <= year <= DateTime.MAXYEAR))
    by (time_units; lia).
  simpl. unfold christmas_wall. do 2 f_equal. lia.
Qed.

Lemma christmas_out_of_range year tz :
  ~ 1 <= year <= 9999 ->
  DateTime.datetime_new year 12 25 0 0 0 tz = inl DateTime.ValueError.
Proof.
  intros H. unfold DateTime.datetime_new.
  rewrite (bool_decide_eq_false_2 (DateTime.MINYEAR <= year <= DateTime.MAXYEAR))
    by (time_units; lia).
  reflexivity.
Qed.

(** The year of a representable reading. *)
Lemma year_spec reading tz :
  DateTime.representable reading ->
  let y := DateTime.year (DateTime.mk reading tz) in
  1 <= y <= 9999
  /\ DateTime._days_before_year y * DateTime.us_per_day <= reading
     < DateTime._days_before_year (y + 1) * DateTime.us_per_day.
Proof.
  intros H y. unfold DateTime.representable in H.
  assert (Hn : 1 <= reading / DateTime.us_per_day + 1 <= 3652059).
  { time_units. Z.to_euclidean_division_equations. lia. }
  pose proof (ord2year_spec _ (proj1 Hn)) as Hy.
  change (DateTime._ord2year (reading / DateTime.us_per_day + 1)) with y in Hy.
  assert (1 <= y <= 9999) as Hrange.
  { destruct (decide (y <= 0)) as [Hlow|Hlow].
    - pose proof (days_before_year_mono (y + 1) 1 ltac:(lia)) as Hm.
      change (DateTime._days_before_year 1) with 0 in Hm. lia.
    - destruct (decide (10000 <= y)) as [Hhigh|Hhigh]; [|lia].
      pose proof (days_before_year_mono 10000 y Hhigh) as Hm.
      change (DateTime._days_before_year 10000) with 3652059 in Hm. lia. }
  split; [exact Hrange|].
  time_units. Z.to_euclidean_division_equations. lia.
Qed.

Lemma countdown_run clock hours :
  -24 < hours < 24 ->
  let offset := hours * DateTime.us_per_hour in
  let reading := clock + offset in
  DateTime.representable reading ->
  let y := DateTime.year (DateTime.mk reading 0) in
  let target := if bool_decide (reading >= christmas_wall y - offset) then y + 1 else y in
  target <= 9999 ->
  time_until_christmas clock hours
  = inr (countdown_of (christmas_wall target - offset - reading)).
Proof.
  intros Hh offset reading Hrep y target Htarget.
  destruct (year_spec reading 0 Hrep) as [Hy _]. fold y in Hy.
  unfold time_until_christmas.
  rewrite timedelta_run by assumption. cbn [DateTime.and_then].
  fold offset. rewrite add_run by assumption. cbn [DateTime.and_then].
  fold reading. fold y. unfold offset at 1. rewrite timezone_run by assumption.
  cbn [DateTime.and_then]. fold offset.
  rewrite christmas_run by assumption. cbn [DateTime.and_then].
  unfold DateTime.ge, DateTime.instant. cbn [DateTime.wall DateTime.utcoffset].
  rewrite Z.sub_0_r. unfold target in *. case_bool_decide as Hpassed.
  - unfold offset at 1. rewrite timezone_run by assumption.
    cbn [DateTime.and_then]. fold offset.
    rewrite christmas_run by lia. cbn [DateTime.and_then].
    unfold DateTime.sub, DateTime.instant. cbn [DateTime.wall DateTime.utcoffset].
    rewrite Z.sub_0_r. reflexivity.
  - cbn [DateTime.and_then].
    unfold DateTime.sub, DateTime.instant. cbn [DateTime.wall DateTime.utcoffset].
    rewrite Z.sub_0_r. reflexivity.
Qed.

Lemma total_seconds_countdown_of delta :
  total_seconds (countdown_of delta) = delta / DateTime.us_per_second.
Proof.
  unfold total_seconds, countdown_of, DateTime.days, DateTime.seconds.
  cbn [cd_days cd_hours cd_minutes cd_seconds]. time_units.
  Z.to_euclidean_division_equations. lia.
Qed.

Lemma countdown_of_ranges delta :
  0 <= delta <= 366 * DateTime.us_per_day ->
  let r := countdown_of delta in
  0 <= cd_days r <= 366 /\ 0 <= cd_hours r < 24
  /\ 0 <= cd_minutes r < 60 /\ 0 <= cd_seconds r < 60.
Proof.
  intros H. unfold countdown_of, DateTime.days, DateTime.seconds.
  cbn [cd_days cd_hours cd_minutes cd_seconds]. time_units.
  repeat split; Z.to_euclidean_division_equations; lia.
Qed.

(** A clock that reads a year from 2 to 9998, with an offset of less than
    a day: the local reading is representable, and so is the Christmas the
    countdown aims at, which lies at most 366 days ahead. *)
Lemma countdown_target clock hours :
  DateTime.representable clock ->
  -24 < hours < 24 ->
  2 <= DateTime.year (DateTime.now_utc clock) <= 9998 ->
  let offset := hours * DateTime.us_per_hour in
  let reading := clock + offset in
  let y := DateTime.year (DateTime.mk reading 0) in
  let target := if bool_decide (reading >= christmas_wall y - offset) then y + 1 else y in
  DateTime.representable reading
  /\ 1 <= target <= 9999
  /\ 0 < christmas_wall target - offset - reading <= 366 * DateTime.us_per_day.
Proof.
  intros Hclock Hh Hyear offset reading y target.
  destruct (year_spec clock 0 Hclock) as [_ Hc].
  change (DateTime.year (DateTime.mk clock 0))
    with (DateTime.year (DateTime.now_utc clock)) in Hc.
  set (yc := DateTime.year (DateTime.now_utc clock)) in *.
  pose proof (days_before_year_mono 2 yc ltac:(lia)) as Hlow.
  pose proof (days_before_year_mono (yc + 1) 9999 ltac:(lia)) as Hhigh.
  change (DateTime._days_before_year 2) with 365 in Hlow.
  change (DateTime._days_before_year 9999) with 3651694 in Hhigh.
  assert (Hrep : DateTime.representable reading).
  { unfold DateTime.representable, reading, offset. time_units. lia. }
  split; [exact Hrep|].
  destruct (year_spec reading 0 Hrep) as [Hy Hr]. fold y in Hy, Hr.
  pose proof (days_before_year_succ y) as Hs1.
  pose proof (days_before_year_succ (y + 1)) as Hs2.
  assert (Hy9 : y = 9999 -> reading < christmas_wall y - offset).
  { intros E. rewrite E. change (christmas_wall 9999) with (3652052 * DateTime.us_per_day).
    unfold reading, offset. time_units. lia. }
  unfold target. rewrite !christmas_wall_eq in *.
  case_bool_decide as Hpassed.
  - split; [lia|].
    replace (y + 1 + 1) with (y + 2) in * by lia.
    destruct (DateTime._is_leap y), (DateTime._is_leap (y + 1));
      unfold reading, offset in *; time_units; lia.
  - split; [lia|].
    destruct (DateTime._is_leap y);
      unfold reading, offset in *; time_units; lia.
Qed.

(** X20. For a clock that reads a year from 2 to 9998 and an offset of -23
    to 23 hours, [time_until_christmas] returns, and what it returns lies
    ahead: [0 <= days <= 366], [0 <= hours < 24], [0 <= minutes < 60] and
    [0 <= seconds < 60]. *)
Theorem countdown_in_range (clock hours : Z) :
  DateTime.representable clock ->
  -24 < hours < 24 ->
  2 <= DateTime.year (DateTime.now_utc clock) <= 9998 ->
  exists r,
    time_until_christmas clock hours = inr r
    /\ 0 <= cd_days r <= 366 /\ 0 <= cd_hours r < 24
    /\ 0 <= cd_minutes r < 60 /\ 0 <= cd_seconds r < 60.
Proof.
  intros Hclock Hh Hyear.
  destruct (countdown_target clock hours Hclock Hh Hyear) as (Hrep & Htarget & Hdelta).
  eexists. split; [apply countdown_run; [assumption..|lia]|].
  apply countdown_of_ranges. lia.
Qed.

Lemma countdown_in_range_witness :
  exists r,
    time_until_christmas 63929392215250000 (-5) = inr r
    /\ 0 <= cd_days r <= 366 /\ 0 <= cd_hours r < 24
    /\ 0 <= cd_minutes r < 60 /\ 0 <= cd_seconds r < 60.
Proof.
  apply countdown_in_range; [vm_compute; split; [discriminate|reflexivity]|lia|].
  vm_compute. split; discriminate.
Defined.

(** X21. For such a clock and offset, the countdown is not the time from
    the clock reading to 00:00 of a 25 December at the given offset: it is
    that time with the offset subtracted once more, in whole seconds, and
    this is a time of at most 366 days ahead.  With an offset of -5 hours
    the countdown is 5 hours more than the time that is left. *)
Theorem countdown_counts_offset_twice (clock hours : Z) :
  DateTime.representable clock ->
  -24 < hours < 24 ->
  2 <= DateTime.year (DateTime.now_utc clock) <= 9998 ->
  exists r target christmas,
    time_until_christmas clock hours = inr r
    /\ DateTime.datetime_new target 12 25 0 0 0 (hours * DateTime.us_per_hour)
       = inr christmas
    /\ let remaining := DateTime.instant christmas - DateTime.instant (DateTime.now_utc clock) in
       total_seconds r
       = (remaining - hours * DateTime.us_per_hour) / DateTime.us_per_second
       /\ 0 < remaining - hours * DateTime.us_per_hour <= 366 * DateTime.us_per_day.
Proof.
  intros Hclock Hh Hyear.
  destruct (countdown_target clock hours Hclock Hh Hyear) as (Hrep & Htarget & Hdelta).
  eexists _, _, _. split; [apply countdown_run; [assumption..|lia]|].
  split; [apply christmas_run; exact Htarget|].
  cbv zeta. rewrite total_seconds_countdown_of.
  unfold DateTime.instant. cbn [DateTime.wall DateTime.utcoffset DateTime.now_utc].
  split; [f_equal; lia|lia].
Qed.

Lemma countdown_counts_offset_twice_witness :
  exists r target christmas,
    time_until_christmas 63870678000000000 (-5) = inr r
    /\ DateTime.datetime_new target 12 25 0 0 0 (-5 * DateTime.us_per_hour)
       = inr christmas
    /\ let remaining := DateTime.instant christmas
                        - DateTime.instant (DateTime.now_utc 63870678000000000) in
       total_seconds r
       = (remaining - -5 * DateTime.us_per_hour) / DateTime.us_per_second
       /\ 0 < remaining - -5 * DateTime.us_per_hour <= 366 * DateTime.us_per_day.
Proof.
  apply (countdown_counts_offset_twice 63870678000000000 (-5));
    [vm_compute; split; [discriminate|reflexivity]|lia|].
  vm_compute. split; discriminate.
Defined.

(** X22. The errors of [time_until_christmas], for a clock that reads a
    representable time: [OverflowError] when the clock reading moved by the
    offset is no time of the years 1 to 9999; otherwise [ValueError] when
    the offset is not one of -23 to 23 hours, and also when the moved
    reading lies in the year 9999 at or after its Christmas, as counted by
    the function. *)
Theorem countdown_errors (clock hours : Z) :
  DateTime.representable clock ->
  let reading := clock + hours * DateTime.us_per_hour in
  (~ DateTime.representable reading ->
   time_until_christmas clock hours = inl DateTime.OverflowError)
  /\ (DateTime.representable reading -> ~ -24 < hours < 24 ->
      time_until_christmas clock hours = inl DateTime.ValueError)
  /\ (DateTime.representable reading -> -24 < hours < 24 ->
      DateTime.year (DateTime.mk reading 0) = 9999 ->
      reading >= christmas_wall 9999 - hours * DateTime.us_per_hour ->
      time_until_christmas clock hours = inl DateTime.ValueError).
Proof.
  intros Hclock reading. split; [|split].
  - intros Hrep. unfold time_until_christmas, DateTime.timedelta. cbv zeta.
    case_bool_decide; [reflexivity|]. cbn [DateTime.and_then].
    now rewrite add_overflow.
  - intros Hrep Hh. unfold time_until_christmas, DateTime.timedelta. cbv zeta.
    rewrite bool_decide_eq_false_2.
    2:{ unfold DateTime.representable, reading in *. time_units.
        Z.to_euclidean_division_equations. lia. }
    cbn [DateTime.and_then]. rewrite add_run by assumption.
    cbn [DateTime.and_then]. unfold DateTime.timezone.
    rewrite bool_decide_eq_false_2; [reflexivity|]. time_units. lia.
  - intros Hrep Hh Hy Hpassed. unfold time_until_christmas.
    rewrite timedelta_run by assumption. cbn [DateTime.and_then].
    rewrite add_run by assumption. cbn [DateTime.and_then].
    fold reading. rewrite Hy, timezone_run by assumption.
    cbn [DateTime.and_then]. rewrite christmas_run by lia.
    cbn [DateTime.and_then].
    unfold DateTime.ge, DateTime.instant. cbn [DateTime.wall DateTime.utcoffset].
    rewrite bool_decide_eq_true_2 by lia. cbn [DateTime.and_then].
    now rewrite christmas_out_of_range by lia.
Qed.

Lemma countdown_errors_witness :
  time_until_christmas 7200000000 (-5) = inl DateTime.OverflowError
  /\ time_until_christmas 63929392215000000 24 = inl DateTime.ValueError
  /\ time_until_christmas 315537379200000000 0 = inl DateTime.ValueError.
Proof.
  split; [|split].
  - destruct (countdown_errors 7200000000 (-5)) as (Hoverflow & _ & _).
    + vm_compute. split; [discriminate|reflexivity].
    + apply Hoverflow. vm_compute. intros [H _]. now apply H.
  - destruct (countdown_errors 63929392215000000 24) as (_ & Hoffset & _).
    + vm_compute. split; [discriminate|reflexivity].
    + apply Hoffset; [vm_compute; split; [discriminate|reflexivity]|lia].
  - destruct (countdown_errors 315537379200000000 0) as (_ & _ & Hlast).
    + vm_compute. split; [discriminate|reflexivity].
    + apply Hlast; [vm_compute; split; [discriminate|reflexivity]|lia|reflexivity|
                    vm_compute; discriminate].
Defined.

(** ** The scene *)

Lemma element_at_prefix h h' e v :
  h `prefix_of` h' -> element_at h e = Some v -> element_at h' e = Some v.
Proof. intros [k ->]. apply element_at_app. Qed.

Lemma set_heap_next_uuid h w : set_heap h (next_uuid w) = next_uuid (set_heap h w).
Proof. reflexivity. Qed.

Lemma create_message_made (w : world) (start_row start_col : Z)
    (text : list string) (z : Z) :
  exists e w',
    create_message start_row start_col text z w = (Return e, w')
    /\ made w w' e z (text_cells start_row start_col text).
Proof.
  eexists _, _. unfold create_message, Message.__init__.
  rewrite !bind_assoc.
  rewrite (bind_run _ _ _ _ _ (message_build_run start_row start_col text w)).
  rewrite !bind_assoc.
  rewrite (bind_run _ _ _ _ _ (new_cell_list_run _ w)).
  unfold ret at 1, bind at 1. cbn [Message.cell_list].
  rewrite element_init_run. split; [reflexivity|].
  unfold made. simpl. rewrite cells_heap_length.
  split; [apply prefix_app_r, cells_heap_prefix|].
  split; [|auto].
  apply element_at_Some. eexists. simpl. split.
  - rewrite <- cells_heap_length. now apply list_lookup_middle.
  - apply cells_at_app, cells_heap_cells.
Qed.

Lemma create_box_made (w : world) (start_row end_row start_col end_col : Z)
    (filled : bool) (z : Z) :
  exists e w',
    CanvasElementFactory.create_box start_row end_row start_col end_col filled z w
    = (Return e, w')
    /\ made w w' e z (Box._build (Box.mk start_row end_row start_col end_col filled)).
Proof.
  eexists _, _. unfold CanvasElementFactory.create_box.
  rewrite (bind_run _ _ _ _ _ (new_cell_list_run _ w)).
  rewrite element_init_run. split; [reflexivity|].
  unfold made. simpl. rewrite cells_heap_length.
  split; [apply prefix_app_r, cells_heap_prefix|].
  split; [|auto].
  apply element_at_Some. eexists. simpl. split.
  - rewrite <- cells_heap_length. now apply list_lookup_middle.
  - apply cells_at_app, cells_heap_cells.
Qed.

Lemma merge_made (w : world) (a b : loc) (A B : element_view) :
  element_at (heap w) a = Some A ->
  element_at (heap w) b = Some B ->
  exists e w',
    CanvasElement.merge a b w = (Return e, w')
    /\ made w w' e (ev_z A) (ev_cells A ++ ev_cells B).
Proof.
  intros HA HB.
  destruct (proj1 (element_at_Some _ _ _) HA) as (cla & Ha & Hcla).
  destruct (proj1 (element_at_Some _ _ _) HB) as (clb & Hb & Hclb).
  destruct (proj1 (cells_at_Some _ _ _) Hcla) as (ia & Hia & Hca).
  destruct (proj1 (cells_at_Some _ _ _) Hclb) as (ib & Hib & Hcb).
  destruct (merge_view w a b A B HA HB) as (w' & new & Hrun & Hheap & _ & Hview & Hsrc).
  exists (S (length (heap w))), w'. split; [exact Hrun|].
  rewrite (merge_run w a b _ _ _ _ _ _ _ _ Ha Hia Hb Hib) in Hrun.
  injection Hrun as <-.
  split; [simpl; now apply prefix_app_r|].
  split; [|auto].
  simpl in *. exact Hview.
Qed.

Lemma create_xmas_tree_made (w : world) fuel (start_row start_col height z : Z) e w' :
  CanvasElementFactory.create_xmas_tree fuel start_row start_col height z w
  = (Return e, w') ->
  exists cells',
    made w w' e z cells'
    /\ decoration_of (XmasTree._build start_row start_col height (2 * height - 1)) cells'
    /\ ornament_count cells' = 9%nat.
Proof.
  intros Hrun. unfold CanvasElementFactory.create_xmas_tree in Hrun.
  unfold bind at 1 in Hrun.
  destruct (XmasTree.__init__ fuel start_row start_col height w)
    as [[self|ex|] w2] eqn:E; [|discriminate|discriminate].
  destruct (tree_init_returns _ _ _ _ _ _ _ E)
    as (Hcl & cells' & S & Hat' & HS & Hdec).
  set (cells := XmasTree._build start_row start_col height (2 * height - 1)) in *.
  destruct (decorated_tree (heap w) start_row start_col height cells'
              (set_heap (cells_heap (heap w) cells) w) w2 S
              eq_refl Hdec) as (Hpoint & _ & Hcount & Hprefix).
  destruct Hdec as (_ & _ & _ & _ & _ & Hheap & _ & _ & Hsrc & Hpos & Hrand).
  rewrite element_init_run in Hrun. injection Hrun as <- <-.
  exists cells'. split; [|split; [exact Hpoint|now rewrite Hcount]].
  unfold made. simpl in *. rewrite Hsrc, Hpos, Hrand.
  split; [now apply prefix_app_r|]. split; [|auto].
  apply element_at_Some. eexists. simpl. split.
  - now apply list_lookup_middle.
  - apply cells_at_app. eapply cell_list_at_cells, Hat'.
Qed.

Lemma create_xmas_tree_finishes (w : world) (start_row start_col height z : Z) :
  4 <= height ->
  fair_source (rand_src w)
    (Z.of_nat (length (XmasTree._build start_row start_col height (2 * height - 1)))) ->
  exists fuel e w',
    CanvasElementFactory.create_xmas_tree fuel start_row start_col height z w
    = (Return e, w').
Proof.
  intros Hh Hfair.
  set (cells := XmasTree._build start_row start_col height (2 * height - 1)) in *.
  destruct (build_star_count start_row start_col height (2 * height - 1))
    as [Hcount Hhead].
  pose proof (build_length start_row start_col height ltac:(lia)) as Hlen.
  destruct (trunk_width_odd height) as [_ Htw].
  pose proof (Z.div_pos height 3 ltac:(lia) ltac:(lia)).
  pose proof (Z.div_pos height 4 ltac:(lia) ltac:(lia)).
  destruct (add_ornaments_terminates
              (XmasTree.mk start_row start_col height (2 * height - 1)
                 (length (heap w) + length cells)%nat)
              _ cells 9 (set_heap (cells_heap (heap w) cells) w)
              (cells_heap_at (heap w) cells) Hhead)
    as (fuel & w' & Hrun).
  - fold cells in Hcount, Hlen. nia.
  - rewrite length_seq. exact Hfair.
  - eexists fuel, _, _. unfold CanvasElementFactory.create_xmas_tree.
    erewrite bind_run; [apply element_init_run|].
    rewrite tree_init_run. fold cells.
    now rewrite (bind_run _ _ _ _ _ Hrun).
Qed.

Lemma element_at_insert_canvas h (self : loc) nrows ncols elements o e v :
  h !! self = Some (OCanvas nrows ncols elements) ->
  element_at h e = Some v ->
  element_at (<[self := o]> h) e = Some v.
Proof.
  intros Hself (cl & He & (items & Hitems & Hmap)%cells_at_Some)%element_at_Some.
  apply element_at_Some. exists cl. split.
  - rewrite list_lookup_insert_ne; [exact He|].
    intros ->. rewrite Hself in He. discriminate.
  - apply cells_at_Some. exists items. split.
    + rewrite list_lookup_insert_ne; [exact Hitems|].
      intros ->. rewrite Hself in Hitems. discriminate.
    + apply mapM_Some. apply mapM_Some in Hmap.
      eapply Forall2_impl; [exact Hmap|].
      intros l c Hc%cell_at_Some. apply cell_at_Some.
      rewrite list_lookup_insert_ne; [exact Hc|].
      intros ->. rewrite Hself in Hc. discriminate.
Qed.

Lemma dict_setitem_new {V} (k : string) (v : V) d :
  k ∉ d.*1 -> dict_setitem k v d = d ++ [(k, v)].
Proof.
  induction d as [|[k' v'] d IH]; intros Hk; [reflexivity|].
  rewrite dict_setitem_cons. csimpl in Hk.
  apply not_elem_of_cons in Hk as [Hne Hk].
  rewrite bool_decide_eq_false_2 by congruence. simpl. f_equal. now apply IH.
Qed.

Lemma prefix_insert_ge {A} (h0 h : list A) (i : nat) (x : A) :
  h0 `prefix_of` h -> (length h0 <= i)%nat -> h0 `prefix_of` <[i := x]> h.
Proof.
  intros [k ->] Hi. rewrite insert_app_r_alt by assumption. now apply prefix_app_r.
Qed.

(** One [upsert] of an element whose id the canvas does not have. *)
Lemma upsert_step w (self e : loc) v nrows ncols elements :
  heap w !! self = Some (OCanvas nrows ncols elements) ->
  element_at (heap w) e = Some v ->
  ev_id v ∉ elements.*1 ->
  exists w',
    Canvas.upsert self e w = (Return tt, w')
    /\ heap w' !! self = Some (OCanvas nrows ncols (elements ++ [(ev_id v, e)]))
    /\ (forall e' v', element_at (heap w) e' = Some v' ->
                      element_at (heap w') e' = Some v')
    /\ (forall h0, h0 `prefix_of` heap w -> (length h0 <= self)%nat ->
                   h0 `prefix_of` heap w').
Proof.
  intros Hself Hv Hnew.
  destruct (proj1 (element_at_Some _ _ _) Hv) as (cl & He & _).
  eexists. split; [eapply upsert_run; eassumption|]. simpl.
  rewrite dict_setitem_new by assumption.
  split; [apply list_lookup_insert_eq; now apply lookup_lt_Some in Hself|].
  split.
  - intros e' v'. eapply element_at_insert_canvas, Hself.
  - intros h0. apply prefix_insert_ge.
Qed.

(** Views and lookups seen from a later store. *)
Ltac lift_along Hpre :=
  repeat match goal with
  | H : element_at (heap ?wa) _ = Some _ |- _ =>
      lazymatch type of Hpre with
      | heap wa `prefix_of` _ => apply (element_at_prefix _ _ _ _ Hpre) in H
      end
  | H : heap ?wa !! _ = Some _ |- _ =>
      lazymatch type of Hpre with
      | heap wa `prefix_of` _ =>
          let H' := fresh in
          pose proof (prefix_lookup_Some _ _ _ _ H Hpre) as H'; clear H; rename H' into H
      end
  end.

Lemma xmas_outcome (clock : Z) (mouth_open : bool) (w : world) :
  let id k := uuid_src w (uuid_pos w + k)%nat in
  NoDup (id <$> [1; 0; 2; 5; 6; 7]%nat) ->
  exists w2,
    rand_src w2 = rand_src w
    /\ forall fuel,
         match CanvasElementFactory.create_xmas_tree fuel 2 2 15 1 w2 with
         | (Return tree, w3) =>
             exists tree_cells,
               decoration_of (XmasTree._build 2 2 15 (2 * 15 - 1)) tree_cells
               /\ ornament_count tree_cells = 9%nat
               /\ match time_until_christmas clock (-5) with
                  | inl e =>
                      exists w', xmas fuel clock mouth_open w = (Return (inl e), w')
                  | inr until_xmas =>
                      exists state w',
                        xmas fuel clock mouth_open w = (Return (inr state), w')
                        /\ grid_at (heap w') state
                           = Some (painted (xmas_scene id mouth_open until_xmas tree_cells))
                        /\ heap w `prefix_of` heap w'
                  end
         | (Raise e, w3) => xmas fuel clock mouth_open w = (Raise e, w3)
         | (Diverge, w3) => xmas fuel clock mouth_open w = (Diverge, w3)
         end.
Proof.
  intros id Hids.
  set (c := length (heap w)).
  set (w1 := set_heap (heap w ++ [OCanvas 20 70 []]) w).
  assert (Hcanvas : Canvas.__init__ 20 70 w = (Return c, w1)) by reflexivity.
  assert (Hc : heap w1 !! c = Some (OCanvas 20 70 [])) by (now apply list_lookup_middle).
  assert (Hw1 : heap w `prefix_of` heap w1) by (now apply prefix_app_r).
  destruct (create_message_made w1 0 5 ["🅧"; "🅜"; "🅐"; "🅢"] 10)
    as (message & wa & Hrun_message & Hpre_a & Hmessage & Hsrc_a & Hpos_a & Hrand_a).
  destruct (create_box_made wa 0 (20 - 1) 0 (70 - 1) false 5)
    as (border & w2 & Hrun_border & Hpre_2 & Hborder & Hsrc_2 & Hpos_2 & Hrand_2).
  exists w2. split; [now rewrite Hrand_2, Hrand_a|].
  intros fuel.
  assert (Hstart : forall k : loc -> M (DateTime.error + loc),
            xmas fuel clock mouth_open w
            = bind (CanvasElementFactory.create_xmas_tree fuel 2 2 15 1)
                (fun tree =>
                   face <- CanvasElementFactory.create_box 7 11 9 23 true 4 ;;
                   eyes <- (if negb mouth_open
                            then create_message 9 15 ["｡"; "◕"; "◡"; "◕"; "｡"] 4
                            else create_message 9 15 ["｡"; "◕"; "▿"; "◕"; "｡"] 4) ;;
                   face <- CanvasElement.merge face eyes ;;
                   instructions <- create_message (20 - 2) 43 (chars "q - quit") 10 ;;
                   match time_until_christmas clock (-5) with
                   | inl e => ret (inl e)
                   | inr until_xmas =>
                       count_down <- create_message 10 30
                                       (chars (countdown_text until_xmas)) 10 ;;
                       Canvas.upsert c border ;;;
                       Canvas.upsert c message ;;;
                       Canvas.upsert c tree ;;;
                       Canvas.upsert c face ;;;
                       Canvas.upsert c instructions ;;;
                       Canvas.upsert c count_down ;;;
                       state <- Canvas.render c ;;
                       ret (inr state)
                   end) w2).
  { intros _. unfold xmas. cbv zeta.
    rewrite (bind_run _ _ _ _ _ Hcanvas), (bind_run _ _ _ _ _ Hrun_message),
      (bind_run _ _ _ _ _ Hrun_border). reflexivity. }
  specialize (Hstart (fun _ => ret (inl DateTime.ValueError))).
  destruct (CanvasElementFactory.create_xmas_tree fuel 2 2 15 1 w2)
    as [[tree|e|] w3] eqn:Htree.
  2:{ rewrite Hstart. now apply bind_raise. }
  2:{ rewrite Hstart. now apply bind_diverge. }
  destruct (create_xmas_tree_made _ _ _ _ _ _ _ _ Htree)
    as (tree_cells & (Hpre_3 & Htree_view & Hsrc_3 & Hpos_3 & Hrand_3) & Hdec & Hcount).
  exists tree_cells. split; [exact Hdec|]. split; [exact Hcount|].
  rewrite Hstart, (bind_run _ _ _ _ _ Htree). clear Hstart.
  destruct (create_box_made w3 7 11 9 23 true 4)
    as (face0 & w4 & Hrun_face0 & Hpre_4 & Hface0 & Hsrc_4 & Hpos_4 & Hrand_4).
  assert (exists eyes w5,
            (if negb mouth_open
             then create_message 9 15 ["｡"; "◕"; "◡"; "◕"; "｡"] 4
             else create_message 9 15 ["｡"; "◕"; "▿"; "◕"; "｡"] 4) w4
            = (Return eyes, w5)
            /\ made w4 w5 eyes 4 (text_cells 9 15 (eyes_text mouth_open)))
    as (eyes & w5 & Hrun_eyes & Hpre_5 & Heyes & Hsrc_5 & Hpos_5 & Hrand_5)
    by (destruct mouth_open; apply create_message_made).
  pose proof (element_at_prefix _ _ _ _ Hpre_5 Hface0) as Hface0'.
  destruct (merge_made w5 face0 eyes _ _ Hface0' Heyes)
    as (face & w6 & Hrun_face & Hpre_6 & Hface & Hsrc_6 & Hpos_6 & Hrand_6).
  cbn [ev_z ev_cells] in Hface.
  destruct (create_message_made w6 (20 - 2) 43 (chars "q - quit") 10)
    as (instructions & w7 & Hrun_instructions & Hpre_7 & Hinstructions
        & Hsrc_7 & Hpos_7 & Hrand_7).
  rewrite (bind_run _ _ _ _ _ Hrun_face0), (bind_run _ _ _ _ _ Hrun_eyes),
    (bind_run _ _ _ _ _ Hrun_face), (bind_run _ _ _ _ _ Hrun_instructions).
  destruct (time_until_christmas clock (-5)) as [e|until_xmas].
  { eexists. reflexivity. }
  destruct (create_message_made w7 10 30 (chars (countdown_text until_xmas)) 10)
    as (count_down & w8 & Hrun_count_down & Hpre_8 & Hcount_down
        & Hsrc_8 & Hpos_8 & Hrand_8).
  rewrite (bind_run _ _ _ _ _ Hrun_count_down).
  clear Hface0 Hface0' Heyes.
  (* the elements and the canvas, in the store before the upserts *)
  lift_along Hpre_a. lift_along Hpre_2. lift_along Hpre_3. lift_along Hpre_4.
  lift_along Hpre_5. lift_along Hpre_6. lift_along Hpre_7. lift_along Hpre_8.
  assert (Hw8 : heap w `prefix_of` heap w8).
  { repeat (etransitivity; [eassumption|]). reflexivity. }
  (* the ids *)
  assert (Hid_message : uuid_src w1 (uuid_pos w1) = id 0%nat).
  { unfold id. simpl. f_equal. lia. }
  assert (Hid_border : uuid_src wa (uuid_pos wa) = id 1%nat).
  { unfold id. rewrite Hsrc_a, Hpos_a. simpl. f_equal. lia. }
  assert (Hid_tree : uuid_src w2 (uuid_pos w2) = id 2%nat).
  { unfold id. rewrite Hsrc_2, Hsrc_a, Hpos_2, Hpos_a. simpl. f_equal. lia. }
  assert (Hid_face : uuid_src w5 (uuid_pos w5) = id 5%nat).
  { unfold id. rewrite Hsrc_5, Hsrc_4, Hsrc_3, Hsrc_2, Hsrc_a,
      Hpos_5, Hpos_4, Hpos_3, Hpos_2, Hpos_a. simpl. f_equal. lia. }
  assert (Hid_instructions : uuid_src w6 (uuid_pos w6) = id 6%nat).
  { unfold id. rewrite Hsrc_6, Hsrc_5, Hsrc_4, Hsrc_3, Hsrc_2, Hsrc_a,
      Hpos_6, Hpos_5, Hpos_4, Hpos_3, Hpos_2, Hpos_a. simpl. f_equal. lia. }
  assert (Hid_count_down : uuid_src w7 (uuid_pos w7) = id 7%nat).
  { unfold id. rewrite Hsrc_7, Hsrc_6, Hsrc_5, Hsrc_4, Hsrc_3, Hsrc_2, Hsrc_a,
      Hpos_7, Hpos_6, Hpos_5, Hpos_4, Hpos_3, Hpos_2, Hpos_a. simpl. f_equal. lia. }
  rewrite Hid_message in Hmessage. rewrite Hid_border in Hborder.
  rewrite Hid_tree in Htree_view. rewrite Hid_face in Hface.
  rewrite Hid_instructions in Hinstructions. rewrite Hid_count_down in Hcount_down.
  change (20 - 1) with 19 in Hborder. change (70 - 1) with 69 in Hborder.
  change (20 - 2) with 18 in Hinstructions.
  fold (scene_border id) in Hborder. fold (scene_title id) in Hmessage.
  fold (scene_tree id tree_cells) in Htree_view.
  fold (scene_face id mouth_open) in Hface.
  fold (scene_instructions id) in Hinstructions.
  fold (scene_count_down id until_xmas) in Hcount_down.
  csimpl in Hids.
  apply NoDup_cons in Hids as [Hn1 Hids]. apply NoDup_cons in Hids as [Hn0 Hids].
  apply NoDup_cons in Hids as [Hn2 Hids]. apply NoDup_cons in Hids as [Hn5 Hids].
  apply NoDup_cons in Hids as [Hn6 _].
  repeat (apply not_elem_of_cons in Hn1 as [? Hn1]).
  repeat (apply not_elem_of_cons in Hn0 as [? Hn0]).
  repeat (apply not_elem_of_cons in Hn2 as [? Hn2]).
  repeat (apply not_elem_of_cons in Hn5 as [? Hn5]).
  repeat (apply not_elem_of_cons in Hn6 as [? Hn6]).
  (* the six upserts *)
  destruct (upsert_step w8 c border _ _ _ _ Hc Hborder) as (u1 & Hrun1 & Hc1 & Hkeep1 & Hpre1).
  { apply not_elem_of_nil. }
  apply Hkeep1 in Hmessage, Htree_view, Hface, Hinstructions, Hcount_down.
  destruct (upsert_step u1 c message _ _ _ _ Hc1 Hmessage)
    as (u2 & Hrun2 & Hc2 & Hkeep2 & Hpre2).
  { csimpl. cbn [scene_border scene_title ev_id]. rewrite !not_elem_of_cons; repeat split; try apply not_elem_of_nil; congruence. }
  apply Hkeep1 in Hborder.
  apply Hkeep2 in Hborder, Htree_view, Hface, Hinstructions, Hcount_down.
  destruct (upsert_step u2 c tree _ _ _ _ Hc2 Htree_view)
    as (u3 & Hrun3 & Hc3 & Hkeep3 & Hpre3).
  { csimpl. cbn [scene_border scene_title scene_tree ev_id]. rewrite !not_elem_of_cons; repeat split; try apply not_elem_of_nil; congruence. }
  apply Hkeep2 in Hmessage.
  apply Hkeep3 in Hborder, Hmessage, Hface, Hinstructions, Hcount_down.
  destruct (upsert_step u3 c face _ _ _ _ Hc3 Hface)
    as (u4 & Hrun4 & Hc4 & Hkeep4 & Hpre4).
  { csimpl. cbn [scene_border scene_title scene_tree scene_face ev_id]. rewrite !not_elem_of_cons; repeat split; try apply not_elem_of_nil; congruence. }
  apply Hkeep3 in Htree_view.
  apply Hkeep4 in Hborder, Hmessage, Htree_view, Hinstructions, Hcount_down.
  destruct (upsert_step u4 c instructions _ _ _ _ Hc4 Hinstructions)
    as (u5 & Hrun5 & Hc5 & Hkeep5 & Hpre5).
  { csimpl.
    cbn [scene_border scene_title scene_tree scene_face scene_instructions ev_id].
    rewrite !not_elem_of_cons; repeat split; try apply not_elem_of_nil; congruence. }
  apply Hkeep4 in Hface.
  apply Hkeep5 in Hborder, Hmessage, Htree_view, Hface, Hcount_down.
  destruct (upsert_step u5 c count_down _ _ _ _ Hc5 Hcount_down)
    as (u6 & Hrun6 & Hc6 & Hkeep6 & Hpre6).
  { csimpl.
    cbn [scene_border scene_title scene_tree scene_face scene_instructions
         scene_count_down ev_id].
    rewrite !not_elem_of_cons; repeat split; try apply not_elem_of_nil; congruence. }
  apply Hkeep5 in Hinstructions.
  apply Hkeep6 in Hborder, Hmessage, Htree_view, Hface, Hinstructions.
  apply Hkeep6 in Hcount_down.
  assert (Hu6 : heap w `prefix_of` heap u6).
  { apply Hpre6; [|reflexivity]. apply Hpre5; [|reflexivity].
    apply Hpre4; [|reflexivity]. apply Hpre3; [|reflexivity].
    apply Hpre2; [|reflexivity]. apply Hpre1; [exact Hw8|reflexivity]. }
  (* the render pass *)
  assert (Hcv : canvas_at (heap u6) c
                = Some (xmas_scene id mouth_open until_xmas tree_cells)).
  { apply canvas_at_Some. eexists. split; [exact Hc6|].
    apply mapM_Some. unfold xmas_scene. cbn [cv_elements]. csimpl.
    repeat constructor; unfold entry_at; cbn [fst snd];
      match goal with |- context [element_at _ ?e] =>
        match goal with H : element_at _ e = Some _ |- _ => now rewrite H end
      end. }
  destruct (render_frame u6 c _ Hcv)
    as (g & w' & rows & Hrender & Hpre_r & _ & _ & Hgrid & _).
  exists g, w'.
  rewrite (bind_run _ _ _ _ _ Hrun1), (bind_run _ _ _ _ _ Hrun2),
    (bind_run _ _ _ _ _ Hrun3), (bind_run _ _ _ _ _ Hrun4),
    (bind_run _ _ _ _ _ Hrun5), (bind_run _ _ _ _ _ Hrun6),
    (bind_run _ _ _ _ _ Hrender).
  split; [reflexivity|]. split; [exact Hgrid|].
  etransitivity; [exact Hu6|exact Hpre_r].
Qed.

(** X23. When [xmas] returns a grid, the ids it drew for the elements it
    puts on the canvas being distinct, the grid is the rendering on 20 rows
    of 70 columns of, in this order: the border ([z] 5), the title ([z] 10),
    the tree with 9 of its ['*'] as ['O'] ([z] 1), the face with its eyes
    ([z] 4), the instructions ([z] 10) and the countdown of the clock
    reading with offset -5 ([z] 10); no object that existed before the call
    is changed. *)
Theorem xmas_renders_scene (w : world) (fuel : nat) (clock : Z) (mouth_open : bool)
    (state : loc) (w' : world) :
  let id k := uuid_src w (uuid_pos w + k)%nat in
  NoDup (id <$> [1; 0; 2; 5; 6; 7]%nat) ->
  xmas fuel clock mouth_open w = (Return (inr state), w') ->
  exists until_xmas tree_cells,
    time_until_christmas clock (-5) = inr until_xmas
    /\ decoration_of (XmasTree._build 2 2 15 (2 * 15 - 1)) tree_cells
    /\ ornament_count tree_cells = 9%nat
    /\ grid_at (heap w') state
       = Some (painted (xmas_scene id mouth_open until_xmas tree_cells))
    /\ heap w `prefix_of` heap w'.
Proof.
  intros id Hids Hrun.
  destruct (xmas_outcome clock mouth_open w Hids) as (w2 & _ & Hout).
  specialize (Hout fuel).
  destruct (CanvasElementFactory.create_xmas_tree fuel 2 2 15 1 w2)
    as [[tree|e|] w3]; [|congruence|congruence].
  destruct Hout as (tree_cells & Hdec & Hcount & Hout).
  destruct (time_until_christmas clock (-5)) as [e|until_xmas].
  - destruct Hout as (w'' & Hrun'). congruence.
  - destruct Hout as (state' & w'' & Hrun' & Hgrid & Hpre).
    rewrite Hrun in Hrun'. injection Hrun' as -> ->.
    exists until_xmas, tree_cells. auto.
Qed.

Lemma xmas_renders_scene_witness :
  exists until_xmas tree_cells,
    time_until_christmas 63929392215250000 (-5) = inr until_xmas
    /\ decoration_of (XmasTree._build 2 2 15 (2 * 15 - 1)) tree_cells
    /\ ornament_count tree_cells = 9%nat
    /\ grid_at (heap (exec (xmas 20 63929392215250000 false) initial_world)) 586%nat
       = Some (painted (xmas_scene uuid_counter false until_xmas tree_cells))
    /\ heap initial_world
       `prefix_of` heap (exec (xmas 20 63929392215250000 false) initial_world).
Proof.
  apply (xmas_renders_scene initial_world 20 63929392215250000 false 586%nat).
  - refine (bool_decide_unpack _ _). vm_compute. exact I.
  - vm_compute. reflexivity.
Defined.

(** X24. With a fair random source, and the ids drawn for the elements
    being distinct, [xmas] returns: a grid when the countdown can be
    computed, which is so for every clock that reads a year from 2 to
    9998; and otherwise it ends with the exception of the countdown. *)
Theorem xmas_finishes (w : world) (clock : Z) (mouth_open : bool) :
  let id k := uuid_src w (uuid_pos w + k)%nat in
  NoDup (id <$> [1; 0; 2; 5; 6; 7]%nat) ->
  fair_source (rand_src w) (Z.of_nat (length (XmasTree._build 2 2 15 (2 * 15 - 1)))) ->
  exists fuel r w',
    xmas fuel clock mouth_open w = (Return r, w')
    /\ (forall e, time_until_christmas clock (-5) = inl e -> r = inl e)
    /\ (DateTime.representable clock ->
        2 <= DateTime.year (DateTime.now_utc clock) <= 9998 ->
        exists state, r = inr state).
Proof.
  intros id Hids Hfair.
  destruct (xmas_outcome clock mouth_open w Hids) as (w2 & Hrand & Hout).
  rewrite <- Hrand in Hfair.
  destruct (create_xmas_tree_finishes w2 2 2 15 1 ltac:(lia) Hfair)
    as (fuel & tree & w3 & Htree).
  specialize (Hout fuel). rewrite Htree in Hout.
  destruct Hout as (tree_cells & _ & _ & Hout).
  destruct (time_until_christmas clock (-5)) as [e|until_xmas] eqn:Htime.
  - destruct Hout as (w' & Hrun). exists fuel, (inl e), w'.
    split; [exact Hrun|]. split; [congruence|].
    intros Hclock Hyear.
    destruct (countdown_target clock (-5) Hclock ltac:(lia) Hyear)
      as (Hrep & Htarget & _).
    exfalso. revert Htime. rewrite countdown_run by (assumption || lia).
    generalize (countdown_of (christmas_wall
      (if bool_decide (clock + -5 * DateTime.us_per_hour
                       >= christmas_wall (DateTime.year
                            (DateTime.mk (clock + -5 * DateTime.us_per_hour) 0))
                          - -5 * DateTime.us_per_hour)
       then DateTime.year (DateTime.mk (clock + -5 * DateTime.us_per_hour) 0) + 1
       else DateTime.year (DateTime.mk (clock + -5 * DateTime.us_per_hour) 0))
      - -5 * DateTime.us_per_hour - (clock + -5 * DateTime.us_per_hour))).
    intros r Hr. discriminate Hr.
  - destruct Hout as (state & w' & Hrun & _). exists fuel, (inr state), w'.
    split; [exact Hrun|]. split; [congruence|]. eauto.
Qed.

Lemma xmas_finishes_witness :
  exists fuel r w',
    xmas fuel 63929392215250000 true initial_world = (Return r, w')
    /\ (forall e, time_until_christmas 63929392215250000 (-5) = inl e -> r = inl e)
    /\ (DateTime.representable 63929392215250000 ->
        2 <= DateTime.year (DateTime.now_utc 63929392215250000) <= 9998 ->
        exists state, r = inr state).
Proof.
  apply (xmas_finishes initial_world 63929392215250000 true).
  - refine (bool_decide_unpack _ _). vm_compute. exact I.
  - apply fair_counter. vm_compute. discriminate.
Defined.

(** *** The layers of the scene *)

Lemma by_z_six (e1 e2 e3 e4 e5 e6 : element_view) :
  ev_z e1 = 5 -> ev_z e2 = 10 -> ev_z e3 = 1 -> ev_z e4 = 4 -> ev_z e5 = 10 ->
  ev_z e6 = 10 ->
  by_z ((fun e => (ev_id e, e)) <$> [e1; e2; e3; e4; e5; e6]) = [e3; e4; e1; e2; e5; e6].
Proof.
  intros H1 H2 H3 H4 H5 H6. unfold by_z. csimpl.
  rewrite H1, H2, H3, H4, H5, H6. reflexivity.
Qed.

Lemma shown_six (e1 e2 e3 e4 e5 e6 : element_view) (r c : Z) :
  shown [e1; e2; e3; e4; e5; e6] r c (Some " ")
  = Some (first_of (ev_cells <$> [e6; e5; e4; e3; e2; e1]) r c).
Proof.
  unfold shown. csimpl.
  destruct (top_char (ev_cells e6) r c), (top_char (ev_cells e5) r c),
    (top_char (ev_cells e4) r c), (top_char (ev_cells e3) r c),
    (top_char (ev_cells e2) r c), (top_char (ev_cells e1) r c); reflexivity.
Qed.

(** X25. On the grid of the scene, each position shows the character of
    the first of these that has a cell there: the countdown, the
    instructions, the title, the border, the face, the tree; and a blank
    when none has. *)
Theorem scene_layers (id : nat -> string) (mouth_open : bool)
    (until_xmas : countdown) (tree_cells : list Cell.t) (r c : Z) :
  0 <= r < 20 -> 0 <= c < 70 ->
  char_at (painted (xmas_scene id mouth_open until_xmas tree_cells))
    (Z.to_nat r) (Z.to_nat c)
  = Some (first_of
            (ev_cells <$> [scene_count_down id until_xmas; scene_instructions id;
                           scene_title id; scene_border id;
                           scene_face id mouth_open; scene_tree id tree_cells])
            r c).
Proof.
  intros Hr Hc.
  rewrite (painted_shows (xmas_scene id mouth_open until_xmas tree_cells) r c Hr Hc).
  unfold xmas_scene. cbn [cv_elements].
  rewrite by_z_six by reflexivity. apply shown_six.
Qed.

Lemma scene_layers_witness :
  char_at (painted (xmas_scene uuid_counter false (Countdown 50 21 29 44) []))
    (Z.to_nat 10) (Z.to_nat 69)
  = Some (first_of
            (ev_cells <$> [scene_count_down uuid_counter (Countdown 50 21 29 44);
                           scene_instructions uuid_counter;
                           scene_title uuid_counter; scene_border uuid_counter;
                           scene_face uuid_counter false; scene_tree uuid_counter []])
            10 69).
Proof. apply scene_layers; lia. Defined.

(** *** What the elements of the scene have at a position *)

Lemma text_cells_cons start_row start_col ch text :
  text_cells start_row start_col (ch :: text)
  = Cell.mk start_row start_col ch :: text_cells start_row (start_col + 1) text.
Proof.
  unfold text_cells. rewrite imap_cons. f_equal; [f_equal; lia|].
  apply imap_ext. intros i x _. simpl. f_equal. lia.
Qed.

Lemma at_pos_text start_row start_col text r c :
  at_pos (text_cells start_row start_col text) r c
  = match (if bool_decide (r = start_row /\ start_col <= c)
           then text !! Z.to_nat (c - start_col) else None) with
    | Some ch => [Cell.mk r c ch]
    | None => []
    end.
Proof.
  revert start_col. induction text as [|ch text IH]; intros start_col.
  - case_bool_decide; reflexivity.
  - rewrite text_cells_cons.
    change (Cell.mk start_row start_col ch :: text_cells start_row (start_col + 1) text)
      with ([Cell.mk start_row start_col ch]
            ++ text_cells start_row (start_col + 1) text).
    rewrite at_pos_app, at_pos_one, IH.
    destruct (decide (r = start_row /\ start_col <= c)) as [[-> Hc]|Hn].
    + rewrite (bool_decide_eq_true_2 (start_row = start_row /\ start_col <= c))
        by auto.
      destruct (decide (c = start_col)) as [->|Hne].
      * rewrite bool_decide_eq_true_2 by auto.
        rewrite bool_decide_eq_false_2 by lia.
        replace (start_col - start_col) with 0 by lia. reflexivity.
      * rewrite bool_decide_eq_false_2 by (intros [_ ?]; contradiction).
        rewrite bool_decide_eq_true_2 by (split; [reflexivity|lia]).
        replace (Z.to_nat (c - start_col))
          with (S (Z.to_nat (c - (start_col + 1)))) by lia.
        reflexivity.
    + rewrite (bool_decide_eq_false_2 (r = start_row /\ start_col <= c)) by assumption.
      rewrite !bool_decide_eq_false_2; [reflexivity| |]; intros [-> ?]; apply Hn;
        split; (reflexivity || lia).
Qed.

Lemma top_char_text start_row start_col text r c :
  top_char (text_cells start_row start_col text) r c
  = if bool_decide (r = start_row /\ start_col <= c)
    then text !! Z.to_nat (c - start_col) else None.
Proof.
  change (top_char (text_cells start_row start_col text) r c)
    with (Cell.c <$> last (at_pos (text_cells start_row start_col text) r c)).
  rewrite at_pos_text.
  destruct (if bool_decide (r = start_row /\ start_col <= c)
            then text !! Z.to_nat (c - start_col) else None); reflexivity.
Qed.

Lemma top_char_app cells1 cells2 r c :
  top_char (cells1 ++ cells2) r c
  = match top_char cells2 r c with
    | Some ch => Some ch
    | None => top_char cells1 r c
    end.
Proof.
  unfold top_char. rewrite filter_app, last_app.
  destruct (last (filter _ cells2)); reflexivity.
Qed.

Lemma top_char_box (self : Box.t) r c :
  top_char (Box._build self) r c = Cell.c <$> last (at_pos (Box._build self) r c).
Proof. reflexivity. Qed.

(** The scene at a position, layer by layer. *)
Ltac scene_at :=
  match goal with
  | |- context [char_at (painted (xmas_scene ?id ?m ?u ?t)) (Z.to_nat ?r) (Z.to_nat ?c)] =>
      rewrite (painted_shows (xmas_scene id m u t) r c) by (simpl; lia);
      unfold xmas_scene; cbn [cv_elements];
      rewrite by_z_six by reflexivity; rewrite shown_six;
      cbn [fmap list_fmap first_of ev_cells scene_count_down scene_instructions
           scene_title scene_border scene_face scene_tree]
  end.

Ltac no_text :=
  rewrite ?top_char_text;
  repeat (rewrite bool_decide_eq_false_2 by lia).

Ltac box_glyph :=
  rewrite top_char_box, box_at;
  cbn [Box.filled Box.start_row Box.end_row Box.start_col Box.end_col];
  repeat (case_bool_decide; try lia); try reflexivity.

(** *** The length of the countdown text *)

Lemma chars_length_app (s1 s2 : string) :
  length (chars (s1 ++ s2)) = (length (chars s1) + length (chars s2))%nat.
Proof.
  unfold chars. rewrite !length_fmap.
  induction s1 as [|a s1 IH]; simpl; [reflexivity|now rewrite IH].
Qed.

Lemma pretty_digits (n : Z) :
  0 <= n < 1000 -> length (chars (pretty n)) = digits n.
Proof.
  intros Hn.
  assert (Hall : Forall (fun n => length (chars (pretty n)) = digits n) (seqZ 0 1000)).
  { refine (bool_decide_unpack _ _). vm_compute. exact I. }
  rewrite Forall_forall in Hall. apply Hall, elem_of_seqZ. lia.
Qed.

Lemma countdown_text_length (until_xmas : countdown) :
  0 <= cd_days until_xmas < 1000 -> 0 <= cd_hours until_xmas < 1000 ->
  0 <= cd_minutes until_xmas < 1000 -> 0 <= cd_seconds until_xmas < 1000 ->
  length (chars (countdown_text until_xmas))
  = (33 + digits (cd_days until_xmas) + digits (cd_hours until_xmas)
     + digits (cd_minutes until_xmas) + digits (cd_seconds until_xmas))%nat.
Proof.
  intros Hd Hh Hm Hs. unfold countdown_text.
  rewrite !chars_length_app, !pretty_digits by assumption.
  change (length (chars " days, ")) with 7%nat.
  change (length (chars " hours, ")) with 8%nat.
  change (length (chars " minutes, ")) with 10%nat.
  change (length (chars " seconds")) with 8%nat.
  lia.
Qed.

(** X26. The countdown is written on row 10 from column 30 on, over
    whatever else is there, and the grid ends at column 69: the first 40
    characters of the text show, the rest is cut, and the right border of
    that row shows only when the text has at most 39 characters.  For a
    countdown within its ranges the text has 37 to 42 characters, and at
    least 41 when each of the four numbers has two digits or more. *)
Theorem scene_count_down_row (id : nat -> string) (mouth_open : bool)
    (until_xmas : countdown) (tree_cells : list Cell.t) :
  let G := painted (xmas_scene id mouth_open until_xmas tree_cells) in
  let text := chars (countdown_text until_xmas) in
  (forall (i : nat) ch,
     text !! i = Some ch -> (i < 40)%nat ->
     char_at G (Z.to_nat 10) (Z.to_nat (30 + Z.of_nat i)) = Some ch)
  /\ ((length text <= 39)%nat ->
      char_at G (Z.to_nat 10) (Z.to_nat 69) = Some "│")
  /\ (0 <= cd_days until_xmas <= 366 -> 0 <= cd_hours until_xmas < 24 ->
      0 <= cd_minutes until_xmas < 60 -> 0 <= cd_seconds until_xmas < 60 ->
      (37 <= length text <= 42)%nat
      /\ (10 <= cd_days until_xmas -> 10 <= cd_hours until_xmas ->
          10 <= cd_minutes until_xmas -> 10 <= cd_seconds until_xmas ->
          (41 <= length text)%nat)).
Proof.
  intros G text. unfold G. split; [|split].
  - intros i ch Hi Hlt. scene_at. rewrite top_char_text.
    rewrite bool_decide_eq_true_2 by lia.
    replace (Z.to_nat (30 + Z.of_nat i - 30)) with i by lia.
    fold text. now rewrite Hi.
  - intros Hlen. scene_at. rewrite top_char_text.
    rewrite bool_decide_eq_true_2 by lia.
    fold text. rewrite (proj2 (lookup_ge_None text _)) by (simpl; lia).
    no_text. reflexivity.
  - intros Hd Hh Hm Hs. unfold text.
    rewrite countdown_text_length by lia. unfold digits.
    split; [|intros; rewrite !(bool_decide_eq_false_2 (_ < 10)) by lia];
      repeat case_bool_decide; lia.
Qed.

Lemma scene_count_down_row_witness :
  char_at (painted (xmas_scene uuid_counter false (Countdown 50 21 29 44) []))
    (Z.to_nat 10) (Z.to_nat (30 + Z.of_nat 39)) = Some "d"
  /\ (41 <= length (chars (countdown_text (Countdown 50 21 29 44))))%nat.
Proof.
  destruct (scene_count_down_row uuid_counter false (Countdown 50 21 29 44) [])
    as (Hshown & _ & Hlength).
  split.
  - apply Hshown; [reflexivity|lia].
  - apply Hlength; simpl; lia.
Defined.

(** X27. On the rectangle of the face (rows 7 to 11, columns 9 to 23) the
    grid shows the face and nothing of the tree behind it, whatever the
    tree's cells are: the eyes on row 9 from column 15 on, elsewhere the
    outline of the box or a blank. *)
Theorem scene_face_covers_tree (id : nat -> string) (mouth_open : bool)
    (until_xmas : countdown) (tree_cells : list Cell.t) (r c : Z) :
  7 <= r <= 11 -> 9 <= c <= 23 ->
  let G := painted (xmas_scene id mouth_open until_xmas tree_cells) in
  let box := Box._build (Box.mk 7 11 9 23 true) in
  exists ch,
    char_at G (Z.to_nat r) (Z.to_nat c) = Some ch
    /\ (if bool_decide (r = 9 /\ 15 <= c <= 19)
        then eyes_text mouth_open !! Z.to_nat (c - 15) = Some ch
        else top_char box r c = Some ch /\ ch <> "*" /\ ch <> "O" /\ ch <> "✪").
Proof.
  intros Hr Hc G box. unfold G. scene_at. no_text.
  assert (Hborder : top_char (Box._build (Box.mk 0 19 0 69 false)) r c = None)
    by box_glyph.
  rewrite Hborder, top_char_app, top_char_text.
  assert (Hbox : exists ch, top_char box r c = Some ch
                            /\ ch <> "*" /\ ch <> "O" /\ ch <> "✪").
  { unfold box. rewrite top_char_box, box_at.
    cbn [Box.filled Box.start_row Box.end_row Box.start_col Box.end_col].
    repeat (case_bool_decide; try lia);
      (eexists; split; [reflexivity|]; repeat split; discriminate). }
  destruct Hbox as (ch & Hbox & Hch). fold box. rewrite Hbox.
  destruct (decide (r = 9 /\ 15 <= c <= 19)) as [Heyes|Heyes].
  - rewrite (bool_decide_eq_true_2 (r = 9 /\ 15 <= c)) by lia.
    rewrite (bool_decide_eq_true_2 (r = 9 /\ 15 <= c <= 19)) by assumption.
    destruct (eyes_text mouth_open !! Z.to_nat (c - 15)) as [eye|] eqn:E.
    + exists eye. auto.
    + apply lookup_ge_None in E. destruct mouth_open; simpl in E; lia.
  - rewrite (bool_decide_eq_false_2 (r = 9 /\ 15 <= c <= 19)) by assumption.
    exists ch.
    assert ((if bool_decide (r = 9 /\ 15 <= c)
             then eyes_text mouth_open !! Z.to_nat (c - 15) else None) = None) as ->.
    { case_bool_decide; [|reflexivity]. apply lookup_ge_None.
      destruct mouth_open; simpl; lia. }
    auto.
Qed.

Lemma scene_face_covers_tree_witness :
  exists ch,
    char_at (painted (xmas_scene uuid_counter true (Countdown 50 21 29 44)
                        (XmasTree._build 2 2 15 (2 * 15 - 1))))
      (Z.to_nat 9) (Z.to_nat 17) = Some ch
    /\ (if bool_decide (9 = 9 /\ 15 <= 17 <= 19)
        then eyes_text true !! Z.to_nat (17 - 15) = Some ch
        else top_char (Box._build (Box.mk 7 11 9 23 true)) 9 17 = Some ch
             /\ ch <> "*" /\ ch <> "O" /\ ch <> "✪").
Proof. apply scene_face_covers_tree; lia. Defined.

(** X28. The frame of the scene: the four corners; the top row, with the
    title on columns 5 to 8; the bottom row, over the third row of the
    tree's trunk, which never shows; the left column; and the right
    column, but for row 10, which is the countdown's. *)
Theorem scene_frame (id : nat -> string) (mouth_open : bool)
    (until_xmas : countdown) (tree_cells : list Cell.t) :
  let G := painted (xmas_scene id mouth_open until_xmas tree_cells) in
  let shows r c := char_at G (Z.to_nat r) (Z.to_nat c) in
  shows 0 0 = Some "╭" /\ shows 0 69 = Some "╮" /\ shows 19 0 = Some "╰" /\ shows 19 69 = Some "╯"
  /\ (forall c, 1 <= c <= 68 -> ~ 5 <= c <= 8 -> shows 0 c = Some "─")
  /\ (forall (i : nat) ch,
        ["🅧"; "🅜"; "🅐"; "🅢"] !! i = Some ch -> shows 0 (5 + Z.of_nat i) = Some ch)
  /\ (forall c, 1 <= c <= 68 -> shows 19 c = Some "─")
  /\ (forall r, 1 <= r <= 18 -> shows r 0 = Some "│")
  /\ (forall r, 1 <= r <= 18 -> r <> 10 -> shows r 69 = Some "│")
  /\ Cell.mk 19 16 "*" ∈ XmasTree._build 2 2 15 (2 * 15 - 1).
Proof.
  intros G shows. unfold shows, G.
  repeat match goal with |- _ /\ _ => split end.
  - scene_at. no_text. box_glyph.
  - scene_at. no_text. box_glyph.
  - scene_at. no_text. box_glyph.
  - scene_at. no_text. box_glyph.
  - intros c Hc Htitle. scene_at. rewrite !top_char_text.
    rewrite !(bool_decide_eq_false_2 (0 = _ /\ _)) by lia.
    destruct (decide (5 <= c)) as [H5|H5].
    + rewrite bool_decide_eq_true_2 by lia.
      rewrite (proj2 (lookup_ge_None _ _)) by (simpl; lia). box_glyph.
    + rewrite bool_decide_eq_false_2 by lia. box_glyph.
  - intros i ch Hi. pose proof (lookup_lt_Some _ _ _ Hi) as Hlt. simpl in Hlt.
    scene_at. rewrite !top_char_text.
    rewrite !(bool_decide_eq_false_2 (0 = _ /\ _)) by lia.
    rewrite bool_decide_eq_true_2 by lia.
    replace (Z.to_nat (5 + Z.of_nat i - 5)) with i by lia.
    now rewrite Hi.
  - intros c Hc. scene_at. no_text. box_glyph.
  - intros r Hr. scene_at. rewrite !top_char_text.
    repeat (rewrite bool_decide_eq_false_2 by lia). box_glyph.
  - intros r Hr Hr10. scene_at. rewrite !top_char_text.
    rewrite (bool_decide_eq_false_2 (r = 10 /\ _)) by lia.
    destruct (decide (r = 18)) as [->|H18].
    + rewrite bool_decide_eq_true_2 by lia.
      rewrite (proj2 (lookup_ge_None _ _)) by (simpl; lia).
      rewrite bool_decide_eq_false_2 by lia. box_glyph.
    + repeat (rewrite bool_decide_eq_false_2 by lia). box_glyph.
  - apply list_elem_of_lookup. exists 237%nat. vm_compute. reflexivity.
Qed.

Lemma scene_frame_witness :
  char_at (painted (xmas_scene uuid_counter false (Countdown 50 21 29 44)
                      (XmasTree._build 2 2 15 (2 * 15 - 1))))
    (Z.to_nat 19) (Z.to_nat 16) = Some "─".
Proof.
  destruct (scene_frame uuid_counter false (Countdown 50 21 29 44)
              (XmasTree._build 2 2 15 (2 * 15 - 1)))
    as (_ & _ & _ & _ & _ & _ & Hbottom & _).
  apply Hbottom. lia.
Defined.

Lemma create_xmas_tree_raises_nothing (w : world) fuel (start_row start_col height z : Z)
    e w' :
  2 <= height ->
  CanvasElementFactory.create_xmas_tree fuel start_row start_col height z w
  <> (Raise e, w').
Proof.
  intros Hh Hrun. unfold CanvasElementFactory.create_xmas_tree in Hrun.
  unfold bind at 1 in Hrun. rewrite tree_init_run in Hrun.
  set (cells := XmasTree._build start_row start_col height (2 * height - 1)) in *.
  set (self := XmasTree.mk start_row start_col height (2 * height - 1)
                 (length (heap w) + length cells)%nat) in *.
  set (w1 := set_heap (cells_heap (heap w) cells) w) in *.
  pose proof (cells_heap_at (heap w) cells) as Hat.
  pose proof (build_length_ge start_row start_col height Hh) as Hlen.
  fold cells in Hlen.
  assert (Hitems : (2 <= length (seq (length (heap w)) (length cells)))%nat)
    by (now rewrite length_seq).
  unfold bind at 1 in Hrun.
  rewrite (add_ornaments_run self _ cells fuel 9 w1 Hat) in Hrun.
  destruct (ornaments_outcome self _ fuel (range 0 9) Hitems cells w1 Hat)
    as [(w2 & Hd)|(w2 & S & cells' & Hr & _)]; rewrite ?Hd, ?Hr in Hrun.
  - discriminate.
  - unfold ret in Hrun. rewrite element_init_run in Hrun. discriminate.
Qed.

(** X29. [xmas] raises no exception of its own: with distinct ids, whatever
    the random draws and the clock reading, a call does not end in an
    exception of the store, of an index or of an attribute; it returns (a
    grid, or the exception of the countdown) or is still decorating the
    tree. *)
Theorem xmas_raises_nothing (w : world) (fuel : nat) (clock : Z) (mouth_open : bool) :
  let id k := uuid_src w (uuid_pos w + k)%nat in
  NoDup (id <$> [1; 0; 2; 5; 6; 7]%nat) ->
  (exists r w', xmas fuel clock mouth_open w = (Return r, w'))
  \/ (exists w', xmas fuel clock mouth_open w = (Diverge, w')).
Proof.
  intros id Hids.
  destruct (xmas_outcome clock mouth_open w Hids) as (w2 & _ & Hout).
  specialize (Hout fuel).
  destruct (CanvasElementFactory.create_xmas_tree fuel 2 2 15 1 w2)
    as [[tree|e|] w3] eqn:Htree.
  - left. destruct Hout as (tree_cells & _ & _ & Hout).
    destruct (time_until_christmas clock (-5)) as [e|until_xmas].
    + destruct Hout as (w' & Hrun). eauto.
    + destruct Hout as (state & w' & Hrun & _). eauto.
  - exfalso. eapply create_xmas_tree_raises_nothing; [|exact Htree]. lia.
  - right. eauto.
Qed.

Lemma xmas_raises_nothing_witness :
  (exists r w', xmas 3 63929392215250000 false initial_world = (Return r, w'))
  \/ (exists w', xmas 3 63929392215250000 false initial_world = (Diverge, w')).
Proof.
  apply (xmas_raises_nothing initial_world 3 63929392215250000 false).
  refine (bool_decide_unpack _ _). vm_compute. exact I.
Defined.

(** X30. Opening the mouth changes one character of the scene and no
    other: the grids for [mouth_open] true and false differ at row 9,
    column 17, which shows ['▿'] and ['◡'], and agree everywhere else. *)
Theorem scene_mouth (id : nat -> string) (until_xmas : countdown)
    (tree_cells : list Cell.t) :
  let opened := painted (xmas_scene id true until_xmas tree_cells) in
  let closed := painted (xmas_scene id false until_xmas tree_cells) in
  char_at opened (Z.to_nat 9) (Z.to_nat 17) = Some "▿"
  /\ char_at closed (Z.to_nat 9) (Z.to_nat 17) = Some "◡"
  /\ forall r c, 0 <= r < 20 -> 0 <= c < 70 -> ~ (r = 9 /\ c = 17) ->
       char_at opened (Z.to_nat r) (Z.to_nat c)
       = char_at closed (Z.to_nat r) (Z.to_nat c).
Proof.
  intros opened closed. unfold opened, closed. split; [|split].
  - scene_at. no_text.
    assert (top_char (Box._build (Box.mk 0 19 0 69 false)) 9 17 = None) as ->
      by box_glyph.
    rewrite top_char_app, top_char_text. reflexivity.
  - scene_at. no_text.
    assert (top_char (Box._build (Box.mk 0 19 0 69 false)) 9 17 = None) as ->
      by box_glyph.
    rewrite top_char_app, top_char_text. reflexivity.
  - intros r c Hr Hc Hne.
    rewrite (painted_shows (xmas_scene id true until_xmas tree_cells) r c)
      by (simpl; lia).
    rewrite (painted_shows (xmas_scene id false until_xmas tree_cells) r c)
      by (simpl; lia).
    unfold xmas_scene. cbn [cv_elements].
    rewrite !by_z_six by reflexivity. rewrite !shown_six.
    cbn [fmap list_fmap first_of ev_cells scene_count_down scene_instructions
         scene_title scene_border scene_face scene_tree].
    rewrite !top_char_app, !(top_char_text 9 15).
    assert (Heyes : (if bool_decide (r = 9 /\ 15 <= c)
                     then eyes_text true !! Z.to_nat (c - 15) else None)
                    = (if bool_decide (r = 9 /\ 15 <= c)
                       then eyes_text false !! Z.to_nat (c - 15) else None)).
    { case_bool_decide as E; [|reflexivity].
      assert (Z.to_nat (c - 15) <> 2%nat) as Hi by lia.
      destruct (Z.to_nat (c - 15)) as [|[|[|[|[|k]]]]]; try reflexivity.
      contradiction. }
    now rewrite Heyes.
Qed.

Lemma scene_mouth_witness :
  char_at (painted (xmas_scene uuid_counter true (Countdown 50 21 29 44) []))
    (Z.to_nat 9) (Z.to_nat 16)
  = char_at (painted (xmas_scene uuid_counter false (Countdown 50 21 29 44) []))
      (Z.to_nat 9) (Z.to_nat 16).
Proof.
  destruct (scene_mouth uuid_counter (Countdown 50 21 29 44) []) as (_ & _ & Hsame).
  apply Hsame; lia.
Defined.
